(** * Log analysis and anomaly detection tool: a shallow embedding

    The development follows the C++ sources file by file:
    [StringUtils.hpp], [TimeUtils.cpp], [LogEntry.hpp], [Anomaly.hpp],
    [Report.hpp], [LogParser.cpp], [TimeWindowAnalyzer.cpp],
    [BurstPatternDetector.cpp], [IpFrequencyDetector.cpp],
    [SpikeDetector.cpp], [ReportGenerator.cpp] and the driver loop of
    [main.cpp].

    Modelling conventions.
    - [std::string] and [std::string_view] are [string] (8-bit characters).
    - [Utils::TimePoint] is an integer number of seconds since the epoch
      ([Z]); parsing only produces whole seconds and every duration of the
      program is a [std::chrono::seconds].
    - [double] values are exact rationals ([Q]); rounding, infinities and
      NaN are outside the model, and divisions are only used where the
      divisor is known to be non-zero.
    - [std::unordered_map<std::string, V>] is [gmap string V]; the
      default-constructing [operator[]] is written out as a lookup with a
      default followed by an insert.
    - A [std::size_t] that is the size of a container, or a counter kept
      equal to one, is a [nat]: a container held in memory has fewer than
      [2^64] elements.  The other unsigned counters wrap around at
      [2^64]. *)

From Stdlib Require Import ZArith QArith Qpower Qabs Ascii String List Lia Bool.
From Stdlib Require Import Permutation Sorted.
From stdpp Require Import base option list strings gmap.

Local Open Scope string_scope.
Local Open Scope list_scope.
Local Open Scope Z_scope.

(** ** Characters ([<cctype>] in the "C" locale) *)

Module CType.

Definition code (c : ascii) : N := N_of_ascii c.

(** The double-quote character. *)
Definition dquote : ascii := ascii_of_N 34.

Definition isspace (c : ascii) : bool :=
  (N.eqb (code c) 32 || (N.leb 9 (code c) && N.leb (code c) 13))%bool.

Definition isdigit (c : ascii) : bool :=
  (N.leb 48 (code c) && N.leb (code c) 57)%bool.

Definition isupper (c : ascii) : bool :=
  (N.leb 65 (code c) && N.leb (code c) 90)%bool.

Definition islower (c : ascii) : bool :=
  (N.leb 97 (code c) && N.leb (code c) 122)%bool.

Definition toupper (c : ascii) : ascii :=
  if islower c then ascii_of_N (code c - 32) else c.

Definition tolower (c : ascii) : ascii :=
  if isupper c then ascii_of_N (code c + 32) else c.

(** [\w] of ECMAScript regular expressions, which decides [\b]. *)
Definition isword (c : ascii) : bool :=
  (isdigit c || isupper c || islower c || N.eqb (code c) 95)%bool.

(** [[0-9a-f]] matched case-insensitively. *)
Definition isxdigit (c : ascii) : bool :=
  (isdigit c || (N.leb 97 (code c) && N.leb (code c) 102)
   || (N.leb 65 (code c) && N.leb (code c) 70))%bool.

End CType.

(** ** Strings ([std::string_view] operations and [StringUtils.hpp]) *)

Module StringUtils.
Import CType.

Definition empty (s : string) : bool :=
  match s with EmptyString => true | String _ _ => false end.

Fixpoint map_chars (f : ascii -> ascii) (s : string) : string :=
  match s with
  | EmptyString => EmptyString
  | String c r => String (f c) (map_chars f r)
  end.

Fixpoint drop_chars (n : nat) (s : string) : string :=
  match n, s with
  | O, _ => s
  | S _, EmptyString => EmptyString
  | S k, String _ r => drop_chars k r
  end.

Fixpoint take_chars (n : nat) (s : string) : string :=
  match n, s with
  | O, _ => EmptyString
  | S _, EmptyString => EmptyString
  | S k, String c r => String c (take_chars k r)
  end.

(** [sv.substr(pos, n)] for [pos <= sv.size()]. *)
Definition substr (s : string) (pos n : nat) : string :=
  take_chars n (drop_chars pos s).

Definition front (s : string) : option ascii :=
  match s with EmptyString => None | String c _ => Some c end.

(** Position of the first occurrence of [needle] in [s], as
    [sv.find(needle)]. *)
Fixpoint find (needle s : string) : option nat :=
  if String.prefix needle s then Some O
  else match s with
       | EmptyString => None
       | String _ r => option_map S (find needle r)
       end.

(** [sv.find(c)]. *)
Fixpoint find_char (c : ascii) (s : string) : option nat :=
  match s with
  | EmptyString => None
  | String d r => if Ascii.eqb d c then Some O
                  else option_map S (find_char c r)
  end.

(** [sv.find(c, pos)]: the result is an absolute position. *)
Definition find_char_from (c : ascii) (s : string) (pos : nat) : option nat :=
  if Nat.ltb (String.length s) pos then None
  else option_map (Nat.add pos) (find_char c (drop_chars pos s)).

Fixpoint ltrim (s : string) : string :=
  match s with
  | EmptyString => EmptyString
  | String c r => if isspace c then ltrim r else s
  end.

Fixpoint rtrim (s : string) : string :=
  match s with
  | EmptyString => EmptyString
  | String c r =>
      let r' := rtrim r in
      if (isspace c && empty r')%bool then EmptyString else String c r'
  end.

Definition trim (s : string) : string := rtrim (ltrim s).

Definition toUpper (s : string) : string := map_chars toupper s.
Definition toLower (s : string) : string := map_chars tolower s.

Definition contains (sv needle : string) : bool :=
  if empty needle then true
  else match find needle sv with Some _ => true | None => false end.

(** [split(sv, delimiter, keepEmpty)]: [cur] is the token that started at
    [start] and has not met a delimiter yet. *)
Fixpoint split_from (delimiter : ascii) (keepEmpty : bool)
         (cur : string) (s : string) : list string :=
  let emit := if (negb (empty cur) || keepEmpty)%bool then [cur] else [] in
  match s with
  | EmptyString => emit
  | String c r =>
      if Ascii.eqb c delimiter
      then emit ++ split_from delimiter keepEmpty EmptyString r
      else split_from delimiter keepEmpty (cur ++ String c EmptyString) r
  end.

Definition split (sv : string) (delimiter : ascii) (keepEmpty : bool)
  : list string :=
  split_from delimiter keepEmpty EmptyString sv.

(** [join] of the parts with a separator, as the loops that emit a
    separator before every part but the first. *)
Fixpoint join (sep : string) (parts : list string) : string :=
  match parts with
  | [] => EmptyString
  | [p] => p
  | p :: rest => p ++ sep ++ join sep rest
  end.

(** [escapeJson] of [StringUtils.cpp]. *)
Fixpoint escapeJson (s : string) : string :=
  match s with
  | EmptyString => EmptyString
  | String c r =>
      (if Ascii.eqb c "\" then "\\"
       else if Ascii.eqb c dquote then String "\" (String dquote EmptyString)
       else if N.eqb (code c) 10 then "\n"
       else if N.eqb (code c) 13 then "\r"
       else if N.eqb (code c) 9 then "\t"
       else String c EmptyString) ++ escapeJson r
  end.

(** [escapeCsv] of [StringUtils.cpp]: the first loop looks for a comma, a
    quote, a line feed or a carriage return; the second doubles every
    quote. *)
Definition csvSpecial (c : ascii) : bool :=
  (Ascii.eqb c "," || Ascii.eqb c dquote
   || N.eqb (code c) 10 || N.eqb (code c) 13)%bool.

Fixpoint any_char (p : ascii -> bool) (s : string) : bool :=
  match s with
  | EmptyString => false
  | String c r => (p c || any_char p r)%bool
  end.

Fixpoint doubleQuotes (s : string) : string :=
  match s with
  | EmptyString => EmptyString
  | String c r =>
      if Ascii.eqb c dquote
      then String dquote (String dquote (doubleQuotes r))
      else String c (doubleQuotes r)
  end.

Definition escapeCsv (s : string) : string :=
  let needQuotes := any_char csvSpecial s in
  let out := doubleQuotes s in
  if needQuotes then String dquote (out ++ String dquote EmptyString)
  else out.

End StringUtils.

(** ** Time ([TimeUtils.cpp]) *)

Module TimeUtils.
Import CType StringUtils.

(** Seconds since the epoch.  A [system_clock::time_point] counts
    nanoseconds in 64 bits; the model keeps the whole seconds, which is
    what [from_time_t] gives and [to_time_t] reads.  The overflow of
    [from_time_t] on a [time_t] outside the years 1677 to 2262 is not
    modelled: see [representable]. *)
Definition TimePoint := Z.

(** [std::tm], with the fields [parseTimestamp] sets. *)
Record tm := mk_tm {
  tm_year : Z;   (* years since 1900 *)
  tm_mon  : Z;   (* months since January *)
  tm_mday : Z;
  tm_hour : Z;
  tm_min  : Z;
  tm_sec  : Z
}.

(** Days between 1970-01-01 and the civil date [y]-[m]-[d] of the
    proleptic Gregorian calendar ([m] in 1..12; [d] may overflow). *)
Definition days_from_civil (y m d : Z) : Z :=
  let y' := if m <=? 2 then y - 1 else y in
  let era := y' / 400 in
  let yoe := y' - era * 400 in
  let mp := if 2 <? m then m - 3 else m + 9 in
  let doy := (153 * mp + 2) / 5 + d - 1 in
  let doe := yoe * 365 + yoe / 4 - yoe / 100 + doy in
  era * 146097 + doe - 719468.

(** The civil date of a day number, inverse of [days_from_civil]. *)
Definition civil_from_days (z : Z) : Z * Z * Z :=
  let z' := z + 719468 in
  let era := z' / 146097 in
  let doe := z' - era * 146097 in
  let yoe := (doe - doe / 1460 + doe / 36524 - doe / 146096) / 365 in
  let doy := doe - (365 * yoe + yoe / 4 - yoe / 100) in
  let mp := (5 * doy + 2) / 153 in
  let d := doy - (153 * mp + 2) / 5 + 1 in
  let m := if mp <? 10 then mp + 3 else mp - 9 in
  let y := yoe + era * 400 in
  (if m <=? 2 then y + 1 else y, m, d).

(** [std::mktime] belongs to the C library.  It is modelled for a
    process whose local time zone is a fixed offset of [tz] seconds east
    of UTC, without daylight-saving rules: out-of-range fields carry
    over as POSIX prescribes, and the result is the number of seconds
    since the epoch. *)
Definition mktime (tz : Z) (t : tm) : Z :=
  let y := tm_year t + 1900 + tm_mon t / 12 in
  let m := tm_mon t mod 12 + 1 in
  let days := days_from_civil y m 1 + (tm_mday t - 1) in
  days * 86400 + tm_hour t * 3600 + tm_min t * 60 + tm_sec t - tz.

(** [parseIntField]: [None] stands for the [std::invalid_argument]
    thrown on a non-digit. *)
Fixpoint parseIntField_from (value : Z) (sv : string) : option Z :=
  match sv with
  | EmptyString => Some value
  | String c r =>
      if isdigit c
      then parseIntField_from (value * 10 + (Z.of_N (code c) - 48)) r
      else None
  end.

Definition parseIntField (sv : string) : option Z := parseIntField_from 0 sv.

Definition parseTimestamp (tz : Z) (sv : string) : option TimePoint :=
  if Nat.ltb (String.length sv) 19 then None
  else
    match parseIntField (substr sv 0 4), parseIntField (substr sv 5 2),
          parseIntField (substr sv 8 2), parseIntField (substr sv 11 2),
          parseIntField (substr sv 14 2), parseIntField (substr sv 17 2) with
    | Some year, Some month, Some day, Some hour, Some min, Some sec =>
        let t := mktime tz (mk_tm (year - 1900) (month - 1) day hour min sec) in
        if t =? -1 then None else Some t
    | _, _, _, _, _, _ => None
    end.

(** [diffSeconds(start, end)]. *)
Definition diffSeconds (start end_ : TimePoint) : Z := end_ - start.

(** Decimal digits of a non-negative number, left-padded with zeros to
    [width] characters, as [std::put_time] prints the fields. *)
Fixpoint digits_from (fuel : nat) (n : Z) (acc : string) : string :=
  match fuel with
  | O => acc
  | S k =>
      let acc' := String (ascii_of_N (Z.to_N (n mod 10) + 48)) acc in
      if n / 10 =? 0 then acc' else digits_from k (n / 10) acc'
  end.

Definition decimal (n : Z) : string :=
  digits_from (S (Z.to_nat (Z.log2 n))) n EmptyString.

Fixpoint pad_left (width : nat) (s : string) : string :=
  if Nat.ltb (String.length s) width
  then match width with
       | O => s
       | S k => String "0"%char (pad_left k s)
       end
  else s.

Definition field (width : nat) (n : Z) : string := pad_left width (decimal n).

(** A signed decimal number, as [operator<<] and [%Y] print it. *)
Definition signed (z : Z) : string :=
  if z <? 0 then ("-" ++ decimal (- z))%string else decimal z.

(** [toIso8601]: [formatTimestamp(tp, "%Y-%m-%dT%H:%M:%S")], with
    [localtime_r] in the same fixed-offset zone as [mktime]. *)
Definition toIso8601 (tz : Z) (tp : TimePoint) : string :=
  let t := tp + tz in
  let '(y, m, d) := civil_from_days (t / 86400) in
  let s := t mod 86400 in
  signed y ++ "-" ++ field 2 m ++ "-" ++ field 2 d ++ "T" ++
  field 2 (s / 3600) ++ ":" ++ field 2 (s mod 3600 / 60) ++ ":" ++
  field 2 (s mod 60).

End TimeUtils.

(** ** Core data model ([LogEntry.hpp], [Anomaly.hpp], [Report.hpp]) *)

Module Core.
Import TimeUtils.

Inductive LogLevel := Trace | Debug | Info | Warn | Error | Critical | Unknown.

(** [static_cast<int>(level)]. *)
Definition LogLevel_ordinal (l : LogLevel) : Z :=
  match l with
  | Trace => 0 | Debug => 1 | Info => 2 | Warn => 3
  | Error => 4 | Critical => 5 | Unknown => 6
  end.

Record LogEntry := mkLogEntry {
  timestamp : TimePoint;
  level     : LogLevel;
  source    : option string;
  message   : string;
  rawLine   : option string
}.

Inductive AnomalyType :=
| FrequencySpike | RarePattern | StatisticalOutlier
| SequenceViolation | Silence | Other.

Definition AnomalyType_ordinal (t : AnomalyType) : Z :=
  match t with
  | FrequencySpike => 0 | RarePattern => 1 | StatisticalOutlier => 2
  | SequenceViolation => 3 | Silence => 4 | Other => 5
  end.

Inductive AnomalySeverity := Low | Medium | High | SevCritical.

Definition AnomalySeverity_ordinal (s : AnomalySeverity) : Z :=
  match s with Low => 0 | Medium => 1 | High => 2 | SevCritical => 3 end.

Record Anomaly := mkAnomaly {
  a_type           : AnomalyType;
  a_severity       : AnomalySeverity;
  a_windowStart    : TimePoint;
  a_windowEnd      : TimePoint;
  a_score          : Q;
  a_description    : string;
  a_source         : option string;
  a_relatedEntries : list LogEntry
}.

(** [has_value] and [value_or] of [std::optional]. *)
Definition has_value {A} (o : option A) : bool :=
  match o with Some _ => true | None => false end.

Definition value_or {A} (o : option A) (d : A) : A :=
  match o with Some x => x | None => d end.

End Core.

(** ** The parser ([LogParser.cpp]) *)

Module LogParser.
Import CType StringUtils TimeUtils Core.

Record ParseResult := mkParseResult {
  entry     : option LogEntry;
  wasJson   : bool;
  malformed : bool;
  error     : string
}.

(** The parser object: its only member is the pattern list. *)
Record t := mkLogParser { m_patterns : list string }.

(** The constructor's four patterns. *)
Definition new : t :=
  mkLogParser
    [ "%timestamp% %level% %source%: %message%";
      "%timestamp% %level% %source% %message%";
      "\[%timestamp%] %level%\[%source%] %message%";
      "%timestamp% %level% %message%" ].

Definition addPattern (p : t) (pattern : string) : t :=
  mkLogParser (m_patterns p ++ [pattern]).

Definition clearPatterns (p : t) : t := mkLogParser [].

(** [isReasonableTime] of the anonymous namespace. *)
Definition isReasonableTime (tp : TimePoint) : bool := 946684800 <=? tp.

Definition trimSv (s : string) : string := rtrim (ltrim s).

(** [s.find(needle) != npos]. *)
Definition found (s needle : string) : bool :=
  match find needle s with Some _ => true | None => false end.

(** The body of a JSON string value, read after the opening quote: a
    backslash copies the next character, a quote ends the value. *)
Fixpoint read_json_string (s : string) : string :=
  match s with
  | EmptyString => EmptyString
  | String c r =>
      if Ascii.eqb c "\"
      then match r with
           | EmptyString => EmptyString
           | String d r' => String d (read_json_string r')
           end
      else if Ascii.eqb c dquote then EmptyString
      else String c (read_json_string r)
  end.

(** A non-string value: the characters before the first [,] or [}]. *)
Fixpoint read_json_scalar (s : string) : string :=
  match s with
  | EmptyString => EmptyString
  | String c r =>
      if (Ascii.eqb c "," || Ascii.eqb c "}")%bool then EmptyString
      else String c (read_json_scalar r)
  end.

Definition extractJsonRaw (json key : string) : option string :=
  let needle := String dquote (key ++ String dquote EmptyString) in
  match find needle json with
  | None => None
  | Some pos =>
      match find_char_from ":" json (pos + String.length needle) with
      | None => None
      | Some colon =>
          match ltrim (drop_chars (S colon) json) with
          | EmptyString => None
          | String c body =>
              if Ascii.eqb c dquote then Some (read_json_string body)
              else Some (trimSv (read_json_scalar (String c body)))
          end
      end
  end.

Definition extractJsonString (json key : string) : option string :=
  extractJsonRaw json key.

(** [if (!x) x = y]. *)
Definition or_else {A} (x y : option A) : option A :=
  match x with Some _ => x | None => y end.

Section WithTimeZone.
(** The local time zone of the process, seconds east of UTC. *)
Variable tz : Z.

Definition extractTimestamp (line : string) : option TimePoint :=
  let prefix := ltrim line in
  if Nat.ltb (String.length prefix) 19 then None
  else parseTimestamp tz (substr prefix 0 19).

Definition levelMap : list (string * LogLevel) :=
  [ ("TRACE", Trace); ("DEBUG", Debug); ("INFO", Info); ("WARN", Warn);
    ("WARNING", Warn); ("ERROR", Error); ("FATAL", Critical);
    ("CRITICAL", Critical) ].

Fixpoint scanLevels (upperLine : string) (m : list (string * LogLevel))
  : LogLevel :=
  match m with
  | [] => Unknown
  | (levelStr, lvl) :: rest =>
      if contains upperLine levelStr then lvl else scanLevels upperLine rest
  end.

Definition extractLevel (line : string) : option LogLevel :=
  Some (scanLevels (toUpper line) levelMap).

Definition extractSource (line : string) : option string :=
  let trimmed := trim line in
  let bracketed :=
    match find_char "[" trimmed with
    | Some start =>
        match find_char_from "]" trimmed start with
        | Some end_ => Some (substr trimmed (S start) (end_ - start - 1))
        | None => None
        end
    | None => None
    end in
  match find_char ":" trimmed with
  | Some colonPos =>
      let potentialSource := rtrim (substr trimmed 0 colonPos) in
      match find_char " " potentialSource with
      | None => Some potentialSource
      | Some _ => bracketed
      end
  | None => bracketed
  end.

Definition extractMessage (line : string) : option string :=
  let remaining := trim line in
  let remaining :=
    if Nat.ltb 20 (String.length remaining)
    then drop_chars 20 remaining else remaining in
  let remaining := trim remaining in
  let words := split remaining " " true in
  let message :=
    if Nat.ltb 2 (List.length words)
    then join " " (List.skipn 2 words) else EmptyString in
  if empty message then None else Some message.

Definition tryParsePattern (line pattern : string) : option LogEntry :=
  match extractTimestamp line, extractLevel line, extractMessage line with
  | Some timestamp, Some level, Some message =>
      Some (mkLogEntry timestamp level
                       (Some (value_or (extractSource line) "unknown"))
                       message (Some line))
  | _, _, _ => None
  end.

(** The level mapping of [tryParseJsonLine]. *)
Definition jsonLevel (upperLvl : string) : LogLevel :=
  if found upperLvl "TRACE" then Trace
  else if found upperLvl "DEBUG" then Debug
  else if found upperLvl "INFO" then Info
  else if found upperLvl "WARN" then Warn
  else if found upperLvl "ERROR" then Error
  else if (found upperLvl "CRIT" || found upperLvl "FATAL")%bool
       then Critical
  else Unknown.

Definition replaceT (c : ascii) : ascii :=
  if Ascii.eqb c "T" then " "%char else c.

(** The timestamp of a JSON line: the first 19 characters as they are,
    then with every [T] turned into a space. *)
Definition jsonTimestamp (tsv : string) : option TimePoint :=
  if Nat.leb 19 (String.length tsv)
  then or_else (parseTimestamp tz (substr tsv 0 19))
               (parseTimestamp tz (map_chars replaceT (substr tsv 0 19)))
  else None.

(** [tryParseJsonLine]: the entry and what is written to [errOut]. *)
Definition tryParseJsonLine (line : string) : option LogEntry * string :=
  let tsStr := or_else (or_else (extractJsonString line "timestamp")
                                (extractJsonString line "time"))
                       (extractJsonString line "@timestamp") in
  let lvlStr := or_else (extractJsonString line "level")
                        (extractJsonString line "severity") in
  let msgStr := or_else (extractJsonString line "message")
                        (extractJsonString line "msg") in
  let srcStr := or_else (or_else (extractJsonString line "service")
                                 (extractJsonString line "component"))
                        (extractJsonString line "source") in
  match tsStr, lvlStr, msgStr with
  | Some ts, Some lvl, Some msg =>
      match jsonTimestamp ts with
      | None => (None, "Invalid timestamp format")
      | Some tp =>
          (Some (mkLogEntry tp (jsonLevel (toUpper lvl))
                            (match srcStr with
                             | Some s => Some s
                             | None => Some "unknown"
                             end)
                            msg (Some line)),
           EmptyString)
      end
  | _, _, _ =>
      (None,
       ("JSON missing required fields:"
        ++ (if has_value tsStr then "" else " timestamp")
        ++ (if has_value lvlStr then "" else " level")
        ++ (if has_value msgStr then "" else " message"))%string)
  end.

(** The loop over [m_patterns]: the first pattern that parses wins. *)
Fixpoint tryPatterns (trimmed : string) (patterns : list string)
  : option LogEntry :=
  match patterns with
  | [] => None
  | pattern :: rest =>
      match tryParsePattern trimmed pattern with
      | Some e => Some e
      | None => tryPatterns trimmed rest
      end
  end.

Definition parseLineDetailed (p : t) (rawLine : string) : ParseResult :=
  let trimmed := trimSv rawLine in
  if empty trimmed then mkParseResult None false true "Empty line"
  else if match front trimmed with
          | Some c => Ascii.eqb c "{"
          | None => false
          end
  then
    match tryParseJsonLine trimmed with
    | (Some e, _) => mkParseResult (Some e) true false EmptyString
    | (None, err) =>
        mkParseResult None true true
          (if empty err then "Failed to parse JSON log line" else err)
    end
  else
    match tryPatterns trimmed (m_patterns p) with
    | Some e => mkParseResult (Some e) false false EmptyString
    | None => mkParseResult None false true "No matching pattern"
    end.

Definition parseLine (p : t) (rawLine : string) : option LogEntry :=
  entry (parseLineDetailed p rawLine).

End WithTimeZone.

End LogParser.

(** ** Doubles as rationals

    A [double] is the rational it holds.  Comparisons are exact.  The
    operations of [SpikeDetector] are rounded as the machine rounds them
    ([div], [sub], [cast_Z], [cast_nat]); in the other components [of_Z],
    [of_nat] and the arithmetic of [Q] stand for the operation without its
    rounding. *)

Module Double.
Import StringUtils TimeUtils.

Definition ltb (x y : Q) : bool := negb (Qle_bool y x).
Definition gtb (x y : Q) : bool := ltb y x.
Definition geb (x y : Q) : bool := Qle_bool y x.
Definition neqb (x y : Q) : bool := negb (Qeq_bool x y).

(** [std::min(a, b)] is [(b < a) ? b : a]; [std::max(a, b)] is
    [(a < b) ? b : a]. *)
Definition min (a b : Q) : Q := if ltb b a then b else a.
Definition max (a b : Q) : Q := if ltb a b then b else a.

Definition of_Z (z : Z) : Q := inject_Z z.
Definition of_nat (n : nat) : Q := inject_Z (Z.of_nat n).

(** The integer nearest to a non-negative rational, ties to even. *)
Definition round_half_even (q : Q) : Z :=
  let n := Qnum q in
  let d := Zpos (Qden q) in
  let fl := n / d in
  let r := 2 * (n - fl * d) in
  if r <? d then fl
  else if d <? r then fl + 1
  else if Z.even fl then fl else fl + 1.

(** The value of a [double] operation: the exact result rounded to a
    significand of 53 bits, to nearest, ties to even.  The exponent is
    not bounded: overflow to infinity and subnormal results are out of
    the model, as are infinities and NaN. *)

(** [floor (log2 q)] of a positive rational. *)
Definition ilog2 (q : Q) : Z :=
  let l := Z.log2 (Qnum q) - Z.log2 (Zpos (Qden q)) in
  if Qle_bool (2 ^ l) q then l else l - 1.

Definition round_pos (q : Q) : Q :=
  let e := ilog2 q - 52 in
  Qred (inject_Z (round_half_even (q / 2 ^ e)) * 2 ^ e).

Definition round (q : Q) : Q :=
  match Qnum q with
  | Z0 => 0
  | Zpos _ => round_pos q
  | Zneg _ => - round_pos (- q)
  end.

(** [a / b] on doubles, and the conversion of an integer to [double]. *)
Definition div (a b : Q) : Q := round (a / b).
Definition sub (a b : Q) : Q := round (a - b).


Definition cast_Z (z : Z) : Q := round (inject_Z z).
Definition cast_nat (n : nat) : Q := round (inject_Z (Z.of_nat n)).

(** [std::fixed << std::setprecision(prec)]. *)
Definition format_fixed (prec : nat) (q : Q) : string :=
  let scale := 10 ^ Z.of_nat prec in
  let neg := ltb q 0 in
  let a := round_half_even (Qabs q * inject_Z scale) in
  let ip := decimal (a / scale) in
  let fp := field prec (a mod scale) in
  ((if neg then "-" else "") ++ ip
   ++ (match prec with O => "" | S _ => "." ++ fp end))%string.

End Double.

(** Decimal output of a signed integer, as [operator<<] and
    [std::to_string] print it. *)
Definition show_Z (z : Z) : string := TimeUtils.signed z.

Definition show_nat (n : nat) : string := TimeUtils.decimal (Z.of_nat n).

(** ** [TimeWindowAnalyzer.cpp] *)

Module TimeWindowAnalyzer.
Import StringUtils TimeUtils Core.

Record TimedEvent := mkTimedEvent {
  te_timestamp : TimePoint;
  te_level     : LogLevel;
  te_source    : string
}.

Record TimeBucket := mkTimeBucket {
  b_start        : TimePoint;
  b_end          : TimePoint;
  b_events       : list TimedEvent;        (* oldest first *)
  b_sourceCounts : gmap string N
}.

Record WindowStats := mkWindowStats {
  totalEvents    : nat;
  errorEvents    : nat;
  errorRate      : Q;
  eventsBySource : gmap string N;
  windowStart    : TimePoint;
  windowEnd      : TimePoint
}.

(** The analyzer's own [Anomaly] struct.  Its [score] member has no
    initialiser. *)
Record Anomaly := mkAnomaly {
  description : string;
  score       : Q;
  stats       : WindowStats
}.

Record t := mkAnalyzer {
  m_currentWindow      : TimeBucket;
  m_windowHistory      : list TimeBucket;   (* oldest first *)
  m_initialized        : bool;
  m_windowSize         : Z;
  m_errorRateThreshold : Q;
  m_burstThreshold     : nat;
  m_silenceThreshold   : Z;
  m_maxHistoryWindows  : nat
}.

Definition emptyBucket : TimeBucket := mkTimeBucket 0 0 [] ∅.

Definition new : t :=
  mkAnalyzer emptyBucket [] false 60 (1 # 2) 100 300 12.

Definition defaultStats : WindowStats := mkWindowStats 0 0 0 ∅ 0 0.

(** [Anomaly anomaly;] leaves [score] uninitialised: the value then read
    from it is the parameter [uninit]. *)
Definition defaultAnomaly (uninit : Q) : Anomaly :=
  mkAnomaly EmptyString uninit defaultStats.

Definition setWindowSize (a : t) (size : Z) : t :=
  let cur := m_currentWindow a in
  mkAnalyzer
    (if m_initialized a
     then mkTimeBucket (b_start cur) (b_start cur + size)
                       (b_events cur) (b_sourceCounts cur)
     else cur)
    (m_windowHistory a) (m_initialized a) size (m_errorRateThreshold a)
    (m_burstThreshold a) (m_silenceThreshold a) (m_maxHistoryWindows a).

Definition setSilenceThreshold (a : t) (duration : Z) : t :=
  mkAnalyzer (m_currentWindow a) (m_windowHistory a) (m_initialized a)
             (m_windowSize a) (m_errorRateThreshold a) (m_burstThreshold a)
             duration (m_maxHistoryWindows a).

Definition with_windows (a : t) (cur : TimeBucket) (hist : list TimeBucket)
           (init : bool) : t :=
  mkAnalyzer cur hist init (m_windowSize a) (m_errorRateThreshold a)
             (m_burstThreshold a) (m_silenceThreshold a)
             (m_maxHistoryWindows a).

(** [push_back] on the history followed by the bound on its size. *)
Definition pushHistory (a : t) (b : TimeBucket) : list TimeBucket :=
  let h := m_windowHistory a ++ [b] in
  if Nat.ltb (m_maxHistoryWindows a) (List.length h) then List.tl h else h.

(** One iteration of the loop of [addEventUnlocked]. *)
Definition advanceOnce (a : t) : t :=
  let cur := m_currentWindow a in
  with_windows a
    (mkTimeBucket (b_end cur) (b_end cur + m_windowSize a) [] ∅)
    (pushHistory a cur) (m_initialized a).

(** [while (ts >= m_currentWindow.end)]: [None] when the fuel runs out. *)
Fixpoint advanceLoop (fuel : nat) (ts : TimePoint) (a : t) : option t :=
  if b_end (m_currentWindow a) <=? ts
  then match fuel with
       | O => None
       | S k => advanceLoop k ts (advanceOnce a)
       end
  else Some a.

(** Iterations the loop needs; with a window size that is not positive
    the loop does not end once it is entered. *)
Definition advanceFuel (ts : TimePoint) (a : t) : nat :=
  if 0 <? m_windowSize a
  then Z.to_nat ((ts - b_end (m_currentWindow a)) / m_windowSize a + 1)
  else O.

Definition decr_size_t (n : N) : N :=
  if N.eqb n 0 then (2 ^ 64 - 1)%N else (n - 1)%N.

Fixpoint evictOldEvents_from (start : TimePoint) (events : list TimedEvent)
         (counts : gmap string N) : list TimedEvent * gmap string N :=
  match events with
  | [] => ([], counts)
  | ev :: rest =>
      if te_timestamp ev <? start
      then
        let c := decr_size_t (default 0%N (counts !! te_source ev)) in
        evictOldEvents_from start rest
          (if N.eqb c 0 then delete (te_source ev) counts
           else <[te_source ev := c]> counts)
      else (events, counts)
  end.

Definition evictOldEvents (b : TimeBucket) : TimeBucket :=
  let '(events, counts) :=
    evictOldEvents_from (b_start b) (b_events b) (b_sourceCounts b) in
  mkTimeBucket (b_start b) (b_end b) events counts.

(** [addEventUnlocked]; [None] stands for a loop that does not end. *)
Definition addEventUnlocked (a : t) (entry : LogEntry) : option t :=
  let ts := timestamp entry in
  let a :=
    if m_initialized a then a
    else with_windows a
           (mkTimeBucket ts (ts + m_windowSize a)
                         (b_events (m_currentWindow a))
                         (b_sourceCounts (m_currentWindow a)))
           (m_windowHistory a) true in
  match advanceLoop (advanceFuel ts a) ts a with
  | None => None
  | Some a =>
      let cur := m_currentWindow a in
      if ts <? b_start cur then Some a
      else
        let src := value_or (source entry) EmptyString in
        let timedEvent := mkTimedEvent ts (level entry) src in
        let cur' :=
          mkTimeBucket (b_start cur) (b_end cur)
            (b_events cur ++ [timedEvent])
            (<[src := (default 0 (b_sourceCounts cur !! src) + 1)%N]>
               (b_sourceCounts cur)) in
        Some (with_windows a (evictOldEvents cur') (m_windowHistory a)
                           (m_initialized a))
  end.

Definition addEntry (a : t) (entry : LogEntry) : option t :=
  addEventUnlocked a entry.

(** The legacy manual advance. *)
Definition advanceWindow (a : t) (windowSize : Z) : t :=
  if negb (m_initialized a) then a
  else
    let cur := m_currentWindow a in
    with_windows a
      (mkTimeBucket (b_end cur) (b_end cur + windowSize) [] ∅)
      (match b_events cur with
       | [] => m_windowHistory a
       | _ :: _ => pushHistory a cur
       end)
      (m_initialized a).

Definition isErrorEvent (ev : TimedEvent) : bool :=
  match te_level ev with
  | Error | Critical => true
  | _ => false
  end.

Definition calculateStats (bucket : TimeBucket) : WindowStats :=
  let total := List.length (b_events bucket) in
  let errorCount := List.length (List.filter isErrorEvent (b_events bucket)) in
  mkWindowStats total errorCount
    (if Nat.ltb 0 total
     then Double.of_nat errorCount / Double.of_nat total else 0)%Q
    (b_sourceCounts bucket) (b_start bucket) (b_end bucket).

(** [formatTimestamp(tp, "%H:%M:%S")]. *)
Definition formatHMS (tz : Z) (tp : TimePoint) : string :=
  let s := (tp + tz) mod 86400 in
  (field 2 (s / 3600) ++ ":" ++ field 2 (s mod 3600 / 60) ++ ":"
   ++ field 2 (s mod 60))%string.

Section Checks.
Variable tz : Z.
Variable a : t.

Definition checkErrorSpike (uninit : Q) (bucket : TimeBucket) : Anomaly :=
  let st := calculateStats bucket in
  if Double.gtb (errorRate st) (m_errorRateThreshold a)
  then mkAnomaly
         ("Error spike: " ++ Double.format_fixed 1 (errorRate st * 100)
          ++ "% errors in [" ++ formatHMS tz (windowStart st) ++ "-"
          ++ formatHMS tz (windowEnd st) ++ "]")%string
         (Double.min 1 (errorRate st * 2)) st
  else defaultAnomaly uninit.

(** With a burst threshold of zero the quotient is infinite and the
    minimum is [1.0]. *)
Definition checkBurst (uninit : Q) (bucket : TimeBucket) : Anomaly :=
  let st := calculateStats bucket in
  if Nat.ltb (m_burstThreshold a) (totalEvents st)
  then mkAnomaly
         ("Event burst: " ++ show_nat (totalEvents st) ++ " events in "
          ++ show_Z (m_windowSize a) ++ "s window")%string
         (match m_burstThreshold a with
          | O => 1
          | S _ => Double.min 1 (Double.of_nat (totalEvents st)
                                 / Double.of_nat (m_burstThreshold a))
          end)
         st
  else defaultAnomaly uninit.

Definition checkSilence (uninit : Q) (bucket : TimeBucket) : Anomaly :=
  match List.last (List.map Some (m_windowHistory a)) None with
  | None => defaultAnomaly uninit
  | Some prev =>
      let gap := diffSeconds (b_end prev) (b_start bucket) in
      if m_silenceThreshold a <? gap
      then mkAnomaly
             ("Silence detected: " ++ show_Z gap
              ++ "s gap since last activity")%string
             (if m_silenceThreshold a =? 0 then 1
              else Double.min 1 (Double.of_Z gap
                                 / Double.of_Z (m_silenceThreshold a)))
             defaultStats
      else defaultAnomaly uninit
  end.

(** [if (x.score > 0.0) anomalies.push_back(x)]. *)
Definition pushIfScored (x : Anomaly) : list Anomaly :=
  if Double.gtb (score x) 0 then [x] else [].

(** The loop over the history; [k] numbers the [Anomaly] objects. *)
Fixpoint checkHistory (uninit : nat -> Q) (k : nat)
         (history : list TimeBucket) : list Anomaly :=
  match history with
  | [] => []
  | window :: rest =>
      pushIfScored (checkErrorSpike (uninit k) window)
      ++ pushIfScored (checkBurst (uninit (S k)) window)
      ++ checkHistory uninit (S (S k)) rest
  end.

Definition detectAnomalies (uninit : nat -> Q) : list Anomaly :=
  pushIfScored (checkErrorSpike (uninit 0%nat) (m_currentWindow a))
  ++ pushIfScored (checkBurst (uninit 1%nat) (m_currentWindow a))
  ++ checkHistory uninit 2 (m_windowHistory a)
  ++ match m_windowHistory a with
     | [] => []
     | _ :: _ =>
         pushIfScored
           (checkSilence (uninit (2 + 2 * List.length (m_windowHistory a))%nat)
                         (m_currentWindow a))
     end.

End Checks.

(** Feeding a stream of entries, one [addEntry] each. *)
Fixpoint addEntries (a : t) (entries : list LogEntry) : option t :=
  match entries with
  | [] => Some a
  | e :: rest =>
      match addEntry a e with
      | Some a' => addEntries a' rest
      | None => None
      end
  end.

End TimeWindowAnalyzer.

(** ** [BurstPatternDetector.cpp] *)

Module BurstPatternDetector.
Import CType StringUtils TimeUtils Core.

(** [std::regex_replace(s, /[0-9a-f]{8,}/i, "<id>")]: the greedy
    quantifier takes a whole run of hexadecimal digits, and a run shorter
    than eight has no match inside it.  [run] is the run being read. *)
Fixpoint replaceIds (run : string) (s : string) : string :=
  let flush := if Nat.leb 8 (String.length run) then "<id>" else run in
  match s with
  | EmptyString => flush
  | String c r =>
      if isxdigit c then replaceIds (run ++ String c EmptyString) r
      else (flush ++ String c (replaceIds EmptyString r))%string
  end.

Fixpoint all_digits (s : string) : bool :=
  match s with
  | EmptyString => true
  | String c r => (isdigit c && all_digits r)%bool
  end.

(** [std::regex_replace(s, /\b\d+\b/, "<n>")]: both word boundaries hold
    exactly when the digits are a whole run of word characters.  [word]
    is the run being read. *)
Fixpoint replaceNumbers (word : string) (s : string) : string :=
  let flush :=
    if (negb (empty word) && all_digits word)%bool then "<n>" else word in
  match s with
  | EmptyString => flush
  | String c r =>
      if isword c then replaceNumbers (word ++ String c EmptyString) r
      else (flush ++ String c (replaceNumbers EmptyString r))%string
  end.

Fixpoint collapseWhitespace (inWs : bool) (s : string) : string :=
  match s with
  | EmptyString => EmptyString
  | String c r =>
      if isspace c
      then if inWs then collapseWhitespace true r
           else String " " (collapseWhitespace true r)
      else String c (collapseWhitespace false r)
  end.

Fixpoint trimFrontSpaces (s : string) : string :=
  match s with
  | String c r => if Ascii.eqb c " " then trimFrontSpaces r else s
  | EmptyString => EmptyString
  end.

Fixpoint trimBackSpaces (s : string) : string :=
  match s with
  | EmptyString => EmptyString
  | String c r =>
      let r' := trimBackSpaces r in
      if (Ascii.eqb c " " && empty r')%bool then EmptyString else String c r'
  end.

Definition normalizeMessage (msg : string) : string :=
  let s := map_chars tolower msg in
  let s := replaceIds EmptyString s in
  let s := replaceNumbers EmptyString s in
  trimBackSpaces (trimFrontSpaces (collapseWhitespace false s)).

Definition signature (e : LogEntry) : string :=
  (value_or (source e) "unknown" ++ "|" ++ show_Z (LogLevel_ordinal (level e))
   ++ "|" ++ normalizeMessage (message e))%string.

Record Burst := mkBurst {
  key           : string;
  description   : string;
  score         : Q;
  b_level       : LogLevel;
  b_source      : option string;
  b_windowStart : TimePoint;
  b_windowEnd   : TimePoint;
  samples       : list LogEntry
}.

(** [State] holds one deque of (timestamp, entry), oldest first. *)
Definition State := list (TimePoint * LogEntry).

Record t := mkDetector {
  m_states     : gmap string State;
  m_window     : Z;
  m_minRepeats : nat;
  m_maxSamples : nat
}.

Definition new : t := mkDetector ∅ 60 20 5.

Definition setWindow (d : t) (w : Z) : t :=
  mkDetector (m_states d) w (m_minRepeats d) (m_maxSamples d).
Definition setMinRepeats (d : t) (r : nat) : t :=
  mkDetector (m_states d) (m_window d) r (m_maxSamples d).
Definition setMaxSamples (d : t) (n : nat) : t :=
  mkDetector (m_states d) (m_window d) (m_minRepeats d) n.

Fixpoint evictOld (window : Z) (events : State) (now : TimePoint) : State :=
  match events with
  | [] => []
  | (t0, _) :: rest =>
      if now - t0 <=? window then events else evictOld window rest now
  end.

(** [while (events.size() > keep) events.pop_front()]. *)
Definition keepLast {A} (keep : nat) (events : list A) : list A :=
  List.skipn (List.length events - keep) events.

Definition processEntry (d : t) (entry : LogEntry) : t * list Burst :=
  let now := timestamp entry in
  let key := signature entry in
  let st := default [] (m_states d !! key) in
  let events := evictOld (m_window d) (st ++ [(now, entry)]) now in
  let c := List.length events in
  if Nat.leb (m_minRepeats d) c
  then
    let b :=
      mkBurst key
        ("Burst repetition detected: " ++ show_nat c ++ " repeats within "
         ++ show_Z (m_window d) ++ "s")%string
        (Double.of_nat c) (level entry) (source entry)
        (match events with (t0, _) :: _ => t0 | [] => 0 end)
        (List.last (List.map fst events) 0)
        (List.map snd (keepLast (m_maxSamples d) events)) in
    let events' :=
      if Nat.ltb (m_minRepeats d) (List.length events)
      then keepLast (Nat.max 1 (m_minRepeats d / 2)) events
      else events in
    (mkDetector (<[key := events']> (m_states d)) (m_window d)
                (m_minRepeats d) (m_maxSamples d),
     [b])
  else
    (mkDetector (<[key := events]> (m_states d)) (m_window d)
                (m_minRepeats d) (m_maxSamples d),
     []).

(** A stream of entries: the bursts each entry emitted, in order. *)
Fixpoint processEntries (d : t) (entries : list LogEntry)
  : t * list (list Burst) :=
  match entries with
  | [] => (d, [])
  | e :: rest =>
      let '(d1, out) := processEntry d e in
      let '(d2, outs) := processEntries d1 rest in
      (d2, out :: outs)
  end.

End BurstPatternDetector.

(** ** [IpFrequencyDetector.cpp] *)

Module IpFrequencyDetector.
Import CType StringUtils TimeUtils Core.

(** The first [n] characters when they are all digits, and the rest. *)
Fixpoint takeDigits (n : nat) (s : string) : option (string * string) :=
  match n with
  | O => Some (EmptyString, s)
  | S k =>
      match s with
      | String c r =>
          if isdigit c
          then match takeDigits k r with
               | Some (ds, rest) => Some (String c ds, rest)
               | None => None
               end
          else None
      | EmptyString => None
      end
  end.

(** [\b] after a digit: the next character is not a word character. *)
Definition boundaryAfterDigit (s : string) : bool :=
  match s with
  | EmptyString => true
  | String c _ => negb (isword c)
  end.

(** The tail [(?:\.\d{1,3}){k}\b] of the pattern.  The greedy [\d{1,3}]
    tries three digits, then two, then one, and backtracks when what
    follows does not match. *)
Fixpoint matchGroups (k : nat) (s : string) : option string :=
  match k with
  | O => if boundaryAfterDigit s then Some EmptyString else None
  | S k' =>
      match s with
      | String c r =>
          if Ascii.eqb c "."
          then
            let try n :=
              match takeDigits n r with
              | Some (ds, rest) =>
                  match matchGroups k' rest with
                  | Some m => Some (String "." (ds ++ m))%string
                  | None => None
                  end
              | None => None
              end in
            LogParser.or_else (try 3%nat) (LogParser.or_else (try 2%nat) (try 1%nat))
          else None
      | EmptyString => None
      end
  end.

(** The pattern [\b\d{1,3}(?:\.\d{1,3}){3}\b] at the start of [s]; the
    leading [\b] is checked by the caller. *)
Definition matchHere (s : string) : option string :=
  let try n :=
    match takeDigits n s with
    | Some (ds, rest) =>
        match matchGroups 3 rest with
        | Some m => Some (ds ++ m)%string
        | None => None
        end
    | None => None
    end in
  LogParser.or_else (try 3%nat) (LogParser.or_else (try 2%nat) (try 1%nat)).

(** [std::regex_search]: the leftmost position where the pattern
    matches; [prev] is the character before [s]. *)
Fixpoint searchIp (prev : option ascii) (s : string) : option string :=
  let here :=
    if match prev with Some p => negb (isword p) | None => true end
    then matchHere s else None in
  match here with
  | Some m => Some m
  | None =>
      match s with
      | EmptyString => None
      | String c r => searchIp (Some c) r
      end
  end.

Definition extractIp (message : string) : option string :=
  searchIp None message.

Record IpHit := mkIpHit {
  ip      : string;
  count   : N;
  h_entry : LogEntry
}.

Record t := mkDetector {
  m_counts          : gmap string N;
  m_maxCountForRare : N
}.

Definition new : t := mkDetector ∅ 5.

Definition setMaxCountForRare (d : t) (v : N) : t :=
  mkDetector (m_counts d) v.

(** [++] on a [std::size_t]. *)
Definition incr_size_t (n : N) : N := ((n + 1) mod 2 ^ 64)%N.

Definition processEntry (d : t) (entry : LogEntry) : t * list IpHit :=
  match extractIp (message entry) with
  | None => (d, [])
  | Some ip =>
      let newCount := incr_size_t (default 0%N (m_counts d !! ip)) in
      let d' := mkDetector (<[ip := newCount]> (m_counts d))
                           (m_maxCountForRare d) in
      if N.leb newCount (m_maxCountForRare d)
      then (d', [mkIpHit ip newCount entry])
      else (d', [])
  end.

Fixpoint processEntries (d : t) (entries : list LogEntry)
  : t * list IpHit :=
  match entries with
  | [] => (d, [])
  | e :: rest =>
      let '(d1, out) := processEntry d e in
      let '(d2, outs) := processEntries d1 rest in
      (d2, out ++ outs)
  end.

End IpFrequencyDetector.

(** ** [SpikeDetector.cpp] *)

Module SpikeDetector.
Import StringUtils TimeUtils Core.

Record SpikeStats := mkSpikeStats {
  currentCount  : nat;
  baselineCount : nat;
  spikeRatio    : Q;
  rateOfChange  : Q;
  windowStart   : TimePoint;
  windowEnd     : TimePoint;
  s_source      : string
}.

Record SpikeAnomaly := mkSpikeAnomaly {
  description  : string;
  severity     : Q;
  stats        : SpikeStats;
  sampleEvents : list LogEntry
}.

(** The counts are kept next to the deques they count. *)
Record SourceState := mkSourceState {
  recentEvents      : list TimePoint;   (* oldest first *)
  st_currentCount   : nat;
  baselineEvents    : list TimePoint;   (* oldest first *)
  st_baselineCount  : nat;
  previousCount     : nat;
  samples           : list LogEntry;
  lastWindowAdvance : TimePoint
}.

Definition newSourceState : SourceState := mkSourceState [] 0 [] 0 0 [] 0.

Record t := mkDetector {
  m_sourceStates    : gmap string SourceState;
  m_spikeThreshold  : Q;
  m_shortWindow     : Z;
  m_baselineWindow  : Z;
  m_maxSampleEvents : nat
}.

Definition new : t := mkDetector ∅ 3 60 600 5.

Definition reset (d : t) : t :=
  mkDetector ∅ (m_spikeThreshold d) (m_shortWindow d) (m_baselineWindow d)
             (m_maxSampleEvents d).

(** [std::max(1.1, ratio)].  The literal stands for the rational 11/10;
    the [double] it denotes is larger by less than 1e-16. *)
Definition setSpikeThreshold (d : t) (ratio : Q) : t :=
  mkDetector (m_sourceStates d) (Double.max (11 # 10) ratio)
             (m_shortWindow d) (m_baselineWindow d) (m_maxSampleEvents d).

Definition setShortWindow (d : t) (duration : Z) : t :=
  mkDetector (m_sourceStates d) (m_spikeThreshold d) duration
             (m_baselineWindow d) (m_maxSampleEvents d).

Definition setBaselineWindow (d : t) (duration : Z) : t :=
  mkDetector (m_sourceStates d) (m_spikeThreshold d) (m_shortWindow d)
             duration (m_maxSampleEvents d).

Definition setMaxSampleEvents (d : t) (count : nat) : t :=
  mkDetector (m_sourceStates d) (m_spikeThreshold d) (m_shortWindow d)
             (m_baselineWindow d) (Nat.max 1 count).

(** [advanceWindows] has an empty body. *)
Definition advanceWindows (state : SourceState) (now : TimePoint)
  : SourceState := state.

(** [while (!events.empty() && diffSeconds(events.front(), now) > window)
    { events.pop_front(); count--; }] *)
Fixpoint evict (window : Z) (now : TimePoint) (events : list TimePoint)
         (count : nat) : list TimePoint * nat :=
  match events with
  | [] => ([], count)
  | t0 :: rest =>
      if window <? diffSeconds t0 now
      then evict window now rest (Nat.pred count)
      else (events, count)
  end.

(** The three quotients are [double] divisions, each rounded; the
    counts and the window lengths are converted to [double] first. *)
Definition calculateStats (d : t) (state : SourceState) (source : string)
           (now : TimePoint) : SpikeStats :=
  let currentRate :=
    Double.div (Double.cast_nat (st_currentCount state))
               (Double.cast_Z (m_shortWindow d)) in
  let baselineRate :=
    Double.div (Double.cast_nat (st_baselineCount state))
               (Double.cast_Z (m_baselineWindow d)) in
  mkSpikeStats
    (st_currentCount state)
    (match st_baselineCount state with O => 1%nat | n => n end)
    (if Double.gtb baselineRate 0
     then Double.div currentRate baselineRate else 1)
    (if Nat.ltb 0 (previousCount state)
     then Double.div
            (Double.cast_Z
               ((Z.of_nat (st_currentCount state)
                 - Z.of_nat (previousCount state)) mod 2 ^ 64))
            (Double.cast_nat (previousCount state))
     else 0)
    (now - m_shortWindow d) now source.

Definition isSpike (d : t) (stats : SpikeStats) : bool :=
  (Double.gtb (spikeRatio stats) (m_spikeThreshold d)
   && Nat.leb 5 (currentCount stats)
   && Nat.leb 10 (baselineCount stats))%bool.

Definition createAnomaly (d : t) (stats : SpikeStats)
           (samples : list LogEntry) : SpikeAnomaly :=
  mkSpikeAnomaly
    ("Spike detected: " ++ s_source stats ++ " ("
     ++ show_nat (currentCount stats) ++ " events in "
     ++ show_Z (m_shortWindow d) ++ "s, "
     ++ Double.format_fixed 1 (spikeRatio stats) ++ "x baseline, ROC="
     ++ Double.format_fixed 2 (rateOfChange stats))%string
    (Double.min 1 (Double.div (Double.sub (spikeRatio stats) 1)
                              (Double.sub (m_spikeThreshold d) 1)))
    stats samples.

Definition with_states (d : t) (m : gmap string SourceState) : t :=
  mkDetector m (m_spikeThreshold d) (m_shortWindow d) (m_baselineWindow d)
             (m_maxSampleEvents d).

(** The state of source [src] after the entry has been recorded and the
    windows evicted. *)
Definition recordEntry (d : t) (state : SourceState) (entry : LogEntry)
  : SourceState :=
  let nowTime := timestamp entry in
  let state := advanceWindows state nowTime in
  let '(recent, cur) :=
    evict (m_shortWindow d) nowTime (recentEvents state ++ [nowTime])
          (S (st_currentCount state)) in
  let '(baseline, base) :=
    evict (m_baselineWindow d) nowTime (baselineEvents state ++ [nowTime])
          (S (st_baselineCount state)) in
  let samples := samples state ++ [entry] in
  let samples :=
    if Nat.ltb (m_maxSampleEvents d) (List.length samples)
    then List.tl samples else samples in
  mkSourceState recent cur baseline base (previousCount state) samples
                (lastWindowAdvance state).

Definition processEntry (d : t) (entry : LogEntry)
  : t * list SpikeAnomaly :=
  match source entry with
  | None => (d, [])
  | Some src =>
      if empty src then (d, [])
      else
        let state :=
          recordEntry d (default newSourceState (m_sourceStates d !! src))
                      entry in
        let stats := calculateStats d state src (timestamp entry) in
        (with_states d (<[src := state]> (m_sourceStates d)),
         if isSpike d stats then [createAnomaly d stats (samples state)]
         else [])
  end.

End SpikeDetector.

(** ** [Report.hpp] *)

Module Report.
Import StringUtils TimeUtils Core.

Record LevelStats := mkLevelStats { ls_count : N; ls_anomalyCount : N }.

Record SourceStats := mkSourceStats {
  totalEvents   : N;
  errorEvents   : N;
  warningEvents : N
}.

(** [++] on a [std::uint64_t]. *)
Definition incr_u64 (n : N) : N := ((n + 1) mod 2 ^ 64)%N.
Definition add_u64 (a b : N) : N := ((a + b) mod 2 ^ 64)%N.

(** A [std::map] is an association list kept in increasing key order,
    the order in which it is iterated.  [m[k] = f(m[k])], where a missing
    key starts from the default value [d]. *)
Fixpoint map_update {K V} (ltb : K -> K -> bool) (eqb : K -> K -> bool)
         (d : V) (f : V -> V) (k : K) (m : list (K * V)) : list (K * V) :=
  match m with
  | [] => [(k, f d)]
  | (k', v) :: rest =>
      if eqb k k' then (k', f v) :: rest
      else if ltb k k' then (k, f d) :: m
      else (k', v) :: map_update ltb eqb d f k rest
  end.

Record t := mkReport {
  m_analysisStart : TimePoint;
  m_analysisEnd   : TimePoint;
  m_totalEntries  : N;
  m_processedFile : option string;
  m_anomalies     : list Anomaly;
  m_levelStats    : list (LogLevel * LevelStats);
  m_sourceStats   : list (string * SourceStats)
}.

Definition new : t := mkReport 0 0 0 None [] [] [].

Definition anomalies (r : t) : list Anomaly := m_anomalies r.

Definition setProcessedFile (r : t) (file : option string) : t :=
  mkReport (m_analysisStart r) (m_analysisEnd r) (m_totalEntries r) file
           (m_anomalies r) (m_levelStats r) (m_sourceStats r).

Definition setAnalysisStart (r : t) (tp : TimePoint) : t :=
  mkReport tp (m_analysisEnd r) (m_totalEntries r) (m_processedFile r)
           (m_anomalies r) (m_levelStats r) (m_sourceStats r).

Definition setAnalysisEnd (r : t) (tp : TimePoint) : t :=
  mkReport (m_analysisStart r) tp (m_totalEntries r) (m_processedFile r)
           (m_anomalies r) (m_levelStats r) (m_sourceStats r).

Definition setTotalEntries (r : t) (total : N) : t :=
  mkReport (m_analysisStart r) (m_analysisEnd r) total (m_processedFile r)
           (m_anomalies r) (m_levelStats r) (m_sourceStats r).

Definition addAnomaly (r : t) (a : Anomaly) : t :=
  mkReport (m_analysisStart r) (m_analysisEnd r) (m_totalEntries r)
           (m_processedFile r) (m_anomalies r ++ [a]) (m_levelStats r)
           (m_sourceStats r).

Definition incrementLevelCount (r : t) (lvl : LogLevel) (isAnomaly : bool)
  : t :=
  mkReport (m_analysisStart r) (m_analysisEnd r) (m_totalEntries r)
           (m_processedFile r) (m_anomalies r)
           (map_update
              (fun a b => LogLevel_ordinal a <? LogLevel_ordinal b)
              (fun a b => LogLevel_ordinal a =? LogLevel_ordinal b)
              (mkLevelStats 0 0)
              (fun s => mkLevelStats
                          (incr_u64 (ls_count s))
                          (if isAnomaly then incr_u64 (ls_anomalyCount s)
                           else ls_anomalyCount s))
              lvl (m_levelStats r))
           (m_sourceStats r).

Definition updateSourceStats (r : t) (src : string) (lvl : LogLevel) : t :=
  mkReport (m_analysisStart r) (m_analysisEnd r) (m_totalEntries r)
           (m_processedFile r) (m_anomalies r) (m_levelStats r)
           (map_update String.ltb String.eqb (mkSourceStats 0 0 0)
              (fun s =>
                 match lvl with
                 | Error | Critical =>
                     mkSourceStats (incr_u64 (totalEvents s))
                                   (incr_u64 (errorEvents s))
                                   (warningEvents s)
                 | Warn =>
                     mkSourceStats (incr_u64 (totalEvents s))
                                   (errorEvents s)
                                   (incr_u64 (warningEvents s))
                 | _ =>
                     mkSourceStats (incr_u64 (totalEvents s))
                                   (errorEvents s) (warningEvents s)
                 end)
              src (m_sourceStats r)).

Definition totalErrorEvents (r : t) : N :=
  List.fold_left (fun total kv => add_u64 total (errorEvents (snd kv)))
                 (m_sourceStats r) 0%N.

Definition totalWarningEvents (r : t) : N :=
  List.fold_left (fun total kv => add_u64 total (warningEvents (snd kv)))
                 (m_sourceStats r) 0%N.

End Report.

(** ** [std::sort] *)

Module StdSort.

(** What [std::sort] asks of its comparator. *)
Record strict_weak_order {A} (cmp : A -> A -> bool) : Prop := {
  swo_irrefl : forall x, cmp x x = false;
  swo_trans : forall x y z, cmp x y = true -> cmp y z = true -> cmp x z = true;
  swo_incomp_trans : forall x y z,
      cmp x y = false -> cmp y x = false ->
      cmp y z = false -> cmp z y = false ->
      cmp x z = false /\ cmp z x = false
}.

(** No element is ordered before one that stands earlier. *)
Definition sorted_by {A} (cmp : A -> A -> bool) (l : list A) : Prop :=
  StronglySorted (fun a b => cmp b a = false) l.

(** What [std::sort] promises: the range holds the same elements, sorted
    with respect to the comparator.  The order of equivalent elements is
    not specified, so the function itself is a parameter. *)
Definition contract (sort : forall A, (A -> A -> bool) -> list A -> list A)
  : Prop :=
  forall A (cmp : A -> A -> bool), strict_weak_order cmp ->
    forall l, Permutation (sort A cmp l) l /\ sorted_by cmp (sort A cmp l).

(** One instance: insertion sort. *)
Fixpoint insert {A} (cmp : A -> A -> bool) (x : A) (l : list A) : list A :=
  match l with
  | [] => [x]
  | y :: r => if cmp x y then x :: l else y :: insert cmp x r
  end.

Definition isort (A : Type) (cmp : A -> A -> bool) (l : list A) : list A :=
  List.fold_right (insert cmp) [] l.

End StdSort.

(** ** [ReportGenerator.cpp] *)

Module ReportGenerator.
Import StringUtils TimeUtils Core.

Inductive OutputFormat := CONSOLE | JSON | CSV | SUMMARY.

Record t := mkGenerator {
  m_reportData      : Report.t;
  m_sortedAnomalies : list Anomaly;
  m_format          : OutputFormat;
  m_maxAnomalies    : nat;
  m_includeSamples  : bool
}.

Definition new (format : OutputFormat) : t :=
  mkGenerator Report.new [] format 50 true.

Definition setMaxAnomalies (g : t) (count : nat) : t :=
  mkGenerator (m_reportData g) (m_sortedAnomalies g) (m_format g) count
              (m_includeSamples g).

Definition anomalySeverityComparator (a b : Anomaly) : bool :=
  if negb (AnomalySeverity_ordinal (a_severity a)
           =? AnomalySeverity_ordinal (a_severity b))
  then AnomalySeverity_ordinal (a_severity b)
       <? AnomalySeverity_ordinal (a_severity a)
  else if Double.neqb (a_score a) (a_score b)
  then Double.gtb (a_score a) (a_score b)
  else if negb (a_windowEnd a =? a_windowEnd b)
  then a_windowEnd b <? a_windowEnd a
  else String.ltb (a_description a) (a_description b).

Section WithSort.
Variable std_sort : forall A, (A -> A -> bool) -> list A -> list A.

Definition generateReport (g : t) (reportData : Report.t) : t :=
  let sorted :=
    std_sort Anomaly anomalySeverityComparator
             (Report.anomalies reportData) in
  mkGenerator reportData
    (if (Nat.ltb 0 (m_maxAnomalies g)
         && Nat.ltb (m_maxAnomalies g) (List.length sorted))%bool
     then List.firstn (m_maxAnomalies g) sorted else sorted)
    (m_format g) (m_maxAnomalies g) (m_includeSamples g).

Definition computeTopSources (report : Report.t) : list (string * N) :=
  std_sort (string * N)%type
           (fun a b => N.ltb (snd b) (snd a))
           (List.map (fun kv => (fst kv, Report.totalEvents (snd kv)))
                     (Report.m_sourceStats report)).

Definition quoted (s : string) : string :=
  (String CType.dquote s ++ String CType.dquote EmptyString)%string.

Definition nl : string := String (ascii_of_N 10) EmptyString.

(** The body of the loop over [m_sortedAnomalies] in [renderJson]. *)
Definition renderJsonAnomaly (tz : Z) (a : Anomaly) (last : bool)
  : string :=
  ("    {" ++ nl
   ++ "      " ++ quoted "type" ++ ": "
   ++ show_Z (AnomalyType_ordinal (a_type a)) ++ "," ++ nl
   ++ "      " ++ quoted "severity" ++ ": "
   ++ show_Z (AnomalySeverity_ordinal (a_severity a)) ++ "," ++ nl
   ++ "      " ++ quoted "score" ++ ": "
   ++ Double.format_fixed 6 (a_score a) ++ "," ++ nl
   ++ "      " ++ quoted "windowStart" ++ ": "
   ++ quoted (toIso8601 tz (a_windowStart a)) ++ "," ++ nl
   ++ "      " ++ quoted "windowEnd" ++ ": "
   ++ quoted (toIso8601 tz (a_windowEnd a)) ++ "," ++ nl
   ++ "      " ++ quoted "source" ++ ": "
   ++ quoted (escapeJson (value_or (a_source a) EmptyString)) ++ "," ++ nl
   ++ "      " ++ quoted "description" ++ ": "
   ++ quoted (escapeJson (a_description a)) ++ nl
   ++ "    }" ++ (if last then "" else ",") ++ nl)%string.

Fixpoint renderJsonAnomalies (tz : Z) (l : list Anomaly) : string :=
  match l with
  | [] => EmptyString
  | [a] => renderJsonAnomaly tz a true
  | a :: rest =>
      (renderJsonAnomaly tz a false ++ renderJsonAnomalies tz rest)%string
  end.

Fixpoint renderTopSources (l : list (string * N)) : string :=
  match l with
  | [] => EmptyString
  | kv :: rest =>
      ("    {" ++ quoted "source" ++ ": " ++ quoted (escapeJson (fst kv))
       ++ ", " ++ quoted "count" ++ ": " ++ show_Z (Z.of_N (snd kv)) ++ "}"
       ++ (match rest with [] => "" | _ :: _ => "," end) ++ nl
       ++ renderTopSources rest)%string
  end.

(** [renderJson]; [generated] is the reading of [Utils::now()]. *)
Definition renderJson (tz : Z) (generated : TimePoint) (g : t) : string :=
  let r := m_reportData g in
  ("{" ++ nl
   ++ "  " ++ quoted "generated" ++ ": "
   ++ quoted (toIso8601 tz generated) ++ "," ++ nl
   ++ "  " ++ quoted "analysisStart" ++ ": "
   ++ quoted (toIso8601 tz (Report.m_analysisStart r)) ++ "," ++ nl
   ++ "  " ++ quoted "analysisEnd" ++ ": "
   ++ quoted (toIso8601 tz (Report.m_analysisEnd r)) ++ "," ++ nl
   ++ "  " ++ quoted "totalEvents" ++ ": "
   ++ show_Z (Z.of_N (Report.m_totalEntries r)) ++ "," ++ nl
   ++ "  " ++ quoted "totalErrors" ++ ": "
   ++ show_Z (Z.of_N (Report.totalErrorEvents r)) ++ "," ++ nl
   ++ "  " ++ quoted "totalWarnings" ++ ": "
   ++ show_Z (Z.of_N (Report.totalWarningEvents r)) ++ "," ++ nl
   ++ "  " ++ quoted "processedFile" ++ ": "
   ++ (match Report.m_processedFile r with
       | Some f => quoted (escapeJson f)
       | None => "null"
       end) ++ "," ++ nl
   ++ "  " ++ quoted "topSources" ++ ": [" ++ nl
   ++ renderTopSources (List.firstn 5 (computeTopSources r))
   ++ "  ]," ++ nl
   ++ "  " ++ quoted "anomalies" ++ ": [" ++ nl
   ++ renderJsonAnomalies tz (m_sortedAnomalies g)
   ++ "  ]" ++ nl
   ++ "}" ++ nl)%string.

End WithSort.

End ReportGenerator.

(** ** [JsonReporter.cpp] *)

Module JsonReporter.
Import CType StringUtils TimeUtils Core.

Inductive PrettyPrint := COMPACT | PRETTY.

Record t := mkReporter {
  m_report         : Report.t;
  m_anomalies      : list Anomaly;     (* filtered/sorted view *)
  m_prettyPrint    : PrettyPrint;
  m_maxAnomalies   : nat;
  m_includeSamples : bool;
  m_minSeverity    : Q
}.

Definition new (pretty : PrettyPrint) : t :=
  mkReporter Report.new [] pretty 100 true 0.

(** [std::clamp(v, lo, hi)] is [(v < lo) ? lo : (hi < v) ? hi : v]. *)
Definition clamp (v lo hi : Q) : Q :=
  if Double.ltb v lo then lo else if Double.ltb hi v then hi else v.

Definition setPrettyPrint (r : t) (mode : PrettyPrint) : t :=
  mkReporter (m_report r) (m_anomalies r) mode (m_maxAnomalies r)
             (m_includeSamples r) (m_minSeverity r).

Definition setMaxAnomalies (r : t) (count : nat) : t :=
  mkReporter (m_report r) (m_anomalies r) (m_prettyPrint r) count
             (m_includeSamples r) (m_minSeverity r).

Definition setIncludeSamples (r : t) (include : bool) : t :=
  mkReporter (m_report r) (m_anomalies r) (m_prettyPrint r)
             (m_maxAnomalies r) include (m_minSeverity r).


(** The severity of an anomaly on the scale [0..1], with the [maxSev] of
    the filter loop. *)
Definition maxSev : Z := 4.

Definition sevNorm (a : Anomaly) : Q :=
  if maxSev <=? 0 then 0
  else clamp (Double.of_Z (AnomalySeverity_ordinal (a_severity a))
              / Double.of_Z maxSev) 0 1.

(** The literal [1e-12]. *)
Definition epsilon : Q := 1 # 1000000000000.

(** [sevNorm + 1e-12 >= m_minSeverity]. *)
Definition passesFilter (r : t) (a : Anomaly) : bool :=
  Double.geb (sevNorm a + epsilon) (m_minSeverity r).

(** The comparator given to [std::sort]. *)
Definition comparator (a b : Anomaly) : bool :=
  if negb (AnomalySeverity_ordinal (a_severity a)
           =? AnomalySeverity_ordinal (a_severity b))
  then AnomalySeverity_ordinal (a_severity b)
       <? AnomalySeverity_ordinal (a_severity a)
  else if Double.neqb (a_score a) (a_score b)
  then Double.gtb (a_score a) (a_score b)
  else if negb (a_windowEnd a =? a_windowEnd b)
  then a_windowEnd b <? a_windowEnd a
  else String.ltb (a_description a) (a_description b).

Section WithSort.
Variable std_sort : forall A, (A -> A -> bool) -> list A -> list A.

Definition generateReport (r : t) (report : Report.t) : t :=
  let kept := List.filter (passesFilter r) (Report.anomalies report) in
  let sorted := std_sort Anomaly comparator kept in
  mkReporter report
    (if (Nat.ltb 0 (m_maxAnomalies r)
         && Nat.ltb (m_maxAnomalies r) (List.length sorted))%bool
     then List.firstn (m_maxAnomalies r) sorted else sorted)
    (m_prettyPrint r) (m_maxAnomalies r) (m_includeSamples r)
    (m_minSeverity r).

End WithSort.

(** [toHex]: upper-case hexadecimal digits, zero-filled to [width]. *)
Definition hexDigit (n : N) : ascii :=
  if (n <? 10)%N then ascii_of_N (48 + n) else ascii_of_N (55 + n).

Fixpoint hex_from (fuel : nat) (n : N) (acc : string) : string :=
  match fuel with
  | O => acc
  | S k =>
      let acc' := String (hexDigit (n mod 16)) acc in
      if (n / 16 =? 0)%N then acc' else hex_from k (n / 16)%N acc'
  end.

Definition toHex (value : N) (width : nat) : string :=
  pad_left width (hex_from (S (N.to_nat (N.log2 value))) value EmptyString).

Fixpoint escapeJsonString (str : string) : string :=
  match str with
  | EmptyString => EmptyString
  | String c r =>
      (if Ascii.eqb c dquote then String "\" (String dquote EmptyString)
       else if Ascii.eqb c "\" then "\\"
       else if N.eqb (code c) 8 then "\b"
       else if N.eqb (code c) 12 then "\f"
       else if N.eqb (code c) 10 then "\n"
       else if N.eqb (code c) 13 then "\r"
       else if N.eqb (code c) 9 then "\t"
       else if N.ltb (code c) 32 then "\u" ++ toHex (code c) 4
       else String c EmptyString) ++ escapeJsonString r
  end.

Definition formatIsoTimestamp (tz : Z) (tp : TimePoint) : string :=
  toIso8601 tz tp.

Definition quoted (s : string) : string :=
  (String dquote s ++ String dquote EmptyString)%string.

Definition anomalyToJson (tz : Z) (a : Anomaly) : string :=
  ("{"
   ++ quoted "type" ++ ":" ++ show_Z (AnomalyType_ordinal (a_type a)) ++ ","
   ++ quoted "severity" ++ ":"
   ++ show_Z (AnomalySeverity_ordinal (a_severity a)) ++ ","
   ++ quoted "score" ++ ":" ++ Double.format_fixed 6 (a_score a) ++ ","
   ++ quoted "windowStart" ++ ":"
   ++ quoted (formatIsoTimestamp tz (a_windowStart a)) ++ ","
   ++ quoted "windowEnd" ++ ":"
   ++ quoted (formatIsoTimestamp tz (a_windowEnd a)) ++ ","
   ++ quoted "source" ++ ":"
   ++ quoted (escapeJsonString (value_or (a_source a) EmptyString)) ++ ","
   ++ quoted "description" ++ ":"
   ++ quoted (escapeJsonString (a_description a))
   ++ "}")%string.

Definition summaryToJson (tz : Z) (report : Report.t) : string :=
  ("{"
   ++ quoted "analysisStart" ++ ":"
   ++ quoted (formatIsoTimestamp tz (Report.m_analysisStart report)) ++ ","
   ++ quoted "analysisEnd" ++ ":"
   ++ quoted (formatIsoTimestamp tz (Report.m_analysisEnd report)) ++ ","
   ++ quoted "totalEvents" ++ ":"
   ++ show_Z (Z.of_N (Report.m_totalEntries report)) ++ ","
   ++ quoted "totalErrors" ++ ":"
   ++ show_Z (Z.of_N (Report.totalErrorEvents report)) ++ ","
   ++ quoted "totalWarnings" ++ ":"
   ++ show_Z (Z.of_N (Report.totalWarningEvents report))
   ++ "}")%string.

Definition processedFileJson (r : t) : string :=
  match Report.m_processedFile (m_report r) with
  | Some f => quoted (escapeJsonString f)
  | None => "null"
  end.

(** [writeCompactJson]; [generated] is the reading of [Utils::now()]. *)
Definition writeCompactJson (tz : Z) (generated : TimePoint) (r : t)
  : string :=
  ("{"
   ++ quoted "generated" ++ ":"
   ++ quoted (formatIsoTimestamp tz generated) ++ ","
   ++ quoted "summary" ++ ":" ++ summaryToJson tz (m_report r) ++ ","
   ++ quoted "processedFile" ++ ":" ++ processedFileJson r ++ ","
   ++ quoted "anomalyCount" ++ ":"
   ++ show_nat (List.length (m_anomalies r)) ++ ","
   ++ quoted "anomalies" ++ ":["
   ++ join "," (List.map (anomalyToJson tz) (m_anomalies r))
   ++ "]"
   ++ "}")%string.

Definition nl : string := String (ascii_of_N 10) EmptyString.

Fixpoint prettyAnomalies (tz : Z) (l : list Anomaly) : string :=
  match l with
  | [] => EmptyString
  | a :: rest =>
      ("    " ++ anomalyToJson tz a
       ++ (match rest with [] => "" | _ :: _ => "," end) ++ nl
       ++ prettyAnomalies tz rest)%string
  end.

Definition writePrettyJson (tz : Z) (generated : TimePoint) (r : t)
  : string :=
  ("{" ++ nl
   ++ "  " ++ quoted "generated" ++ ": "
   ++ quoted (formatIsoTimestamp tz generated) ++ "," ++ nl
   ++ "  " ++ quoted "summary" ++ ": " ++ summaryToJson tz (m_report r)
   ++ "," ++ nl
   ++ "  " ++ quoted "processedFile" ++ ": " ++ processedFileJson r
   ++ "," ++ nl
   ++ "  " ++ quoted "anomalyCount" ++ ": "
   ++ show_nat (List.length (m_anomalies r)) ++ "," ++ nl
   ++ "  " ++ quoted "anomalies" ++ ": [" ++ nl
   ++ prettyAnomalies tz (m_anomalies r)
   ++ "  ]" ++ nl
   ++ "}" ++ nl)%string.

Definition writeJson (tz : Z) (generated : TimePoint) (r : t) : string :=
  match m_prettyPrint r with
  | PRETTY => writePrettyJson tz generated r
  | COMPACT => writeCompactJson tz generated r
  end.

End JsonReporter.

(** ** [CsvReporter.cpp] *)

Module CsvReporter.
Import CType StringUtils TimeUtils Core.

Inductive ExportMode :=
  ANOMALIES_ONLY | SUMMARY_TABLES | FULL_REPORT | RAW_EVENTS.

Record t := mkReporter {
  m_report            : Report.t;
  m_anomalies         : list Anomaly;   (* filtered/sorted view *)
  m_exportMode        : ExportMode;
  m_maxAnomalies      : nat;
  m_minSeverity       : Q;
  m_includeTimestamps : bool
}.

Definition new (mode : ExportMode) : t :=
  mkReporter Report.new [] mode 1000 0 true.

Definition setExportMode (r : t) (mode : ExportMode) : t :=
  mkReporter (m_report r) (m_anomalies r) mode (m_maxAnomalies r)
             (m_minSeverity r) (m_includeTimestamps r).

Definition setMaxAnomalies (r : t) (count : nat) : t :=
  mkReporter (m_report r) (m_anomalies r) (m_exportMode r) count
             (m_minSeverity r) (m_includeTimestamps r).


Definition setIncludeTimestamps (r : t) (include : bool) : t :=
  mkReporter (m_report r) (m_anomalies r) (m_exportMode r)
             (m_maxAnomalies r) (m_minSeverity r) include.

Definition maxSev : Z := 4.

Definition sevNorm (a : Anomaly) : Q :=
  if maxSev <=? 0 then 0
  else JsonReporter.clamp
         (Double.of_Z (AnomalySeverity_ordinal (a_severity a))
          / Double.of_Z maxSev) 0 1.

(** The predicate of [std::remove_if]: [sevNorm + 1e-12 < m_minSeverity]. *)
Definition removed (r : t) (a : Anomaly) : bool :=
  Double.ltb (sevNorm a + JsonReporter.epsilon) (m_minSeverity r).

(** The comparator given to [std::sort]: it ends at the window end. *)
Definition comparator (a b : Anomaly) : bool :=
  if negb (AnomalySeverity_ordinal (a_severity a)
           =? AnomalySeverity_ordinal (a_severity b))
  then AnomalySeverity_ordinal (a_severity b)
       <? AnomalySeverity_ordinal (a_severity a)
  else if Double.neqb (a_score a) (a_score b)
  then Double.gtb (a_score a) (a_score b)
  else a_windowEnd b <? a_windowEnd a.

Section WithSort.
Variable std_sort : forall A, (A -> A -> bool) -> list A -> list A.

Definition generateReport (r : t) (report : Report.t) : t :=
  let kept :=
    List.filter (fun a => negb (removed r a)) (Report.anomalies report) in
  let sorted := std_sort Anomaly comparator kept in
  mkReporter report
    (if (Nat.ltb 0 (m_maxAnomalies r)
         && Nat.ltb (m_maxAnomalies r) (List.length sorted))%bool
     then List.firstn (m_maxAnomalies r) sorted else sorted)
    (m_exportMode r) (m_maxAnomalies r) (m_minSeverity r)
    (m_includeTimestamps r).

End WithSort.

(** The characters of [find_first_of]: comma, quote, carriage return
    and line feed. *)
Definition needsQuoting (c : ascii) : bool :=
  (Ascii.eqb c "," || Ascii.eqb c dquote
   || N.eqb (code c) 13 || N.eqb (code c) 10)%bool.

Definition escapeCsvField (field : string) : string :=
  if any_char needsQuoting field
  then String dquote (doubleQuotes field ++ String dquote EmptyString)
  else field.

Definition crlf : string :=
  String (ascii_of_N 13) (String (ascii_of_N 10) EmptyString).

Definition writeCsvRow (fields : list string) : string :=
  (join "," (List.map escapeCsvField fields) ++ crlf)%string.

Definition getExportAnomalies (r : t) : list Anomaly := m_anomalies r.

Definition anomalyRow (tz : Z) (r : t) (a : Anomaly) : list string :=
  (if m_includeTimestamps r
   then [toIso8601 tz (a_windowStart a); toIso8601 tz (a_windowEnd a)]
   else [])
  ++ [ show_Z (AnomalyType_ordinal (a_type a));
       show_Z (AnomalySeverity_ordinal (a_severity a));
       Double.format_fixed 6 (a_score a);
       value_or (a_source a) EmptyString;
       a_description a ].

Definition summaryRows (tz : Z) (r : t) : list (list string) :=
  [ ["Analysis Start"; toIso8601 tz (Report.m_analysisStart (m_report r))];
    ["Analysis End"; toIso8601 tz (Report.m_analysisEnd (m_report r))];
    ["Total Events"; show_Z (Z.of_N (Report.m_totalEntries (m_report r)))];
    ["Total Errors";
     show_Z (Z.of_N (Report.totalErrorEvents (m_report r)))];
    ["Total Warnings";
     show_Z (Z.of_N (Report.totalWarningEvents (m_report r)))];
    ["Anomalies"; show_nat (List.length (m_anomalies r))] ].

Definition writeRows (rows : list (list string)) : string :=
  String.concat EmptyString (List.map writeCsvRow rows).

Definition writeCsv (tz : Z) (r : t) (includeHeader : bool) : string :=
  match m_exportMode r with
  | SUMMARY_TABLES =>
      writeRows ((if includeHeader then [["Metric"; "Value"]] else [])
                 ++ summaryRows tz r)
  | _ =>
      writeRows
        ((if includeHeader
          then [if m_includeTimestamps r
                then ["WindowStart"; "WindowEnd"; "Type"; "Severity";
                      "Score"; "Source"; "Description"]
                else ["Type"; "Severity"; "Score"; "Source";
                      "Description"]]
          else [])
         ++ List.map (anomalyRow tz r) (getExportAnomalies r))
  end.

End CsvReporter.

(** ** The driver ([main.cpp]) *)

Module Pipeline.
Import StringUtils TimeUtils Core.

(** What the driver reads from a [StatisticalDetector::Anomaly]. *)
Record StatAnomaly := mkStatAnomaly {
  sa_description : string;
  sa_zscore      : Q;
  sa_severity    : Q
}.

(** [FrequencyAnalyzer], [PatternAnalyzer] and [StatisticalDetector] are
    seen through the member functions the driver calls.  None of them
    reads a clock; each is a state and functions of that state. *)
Record Analyzers := mkAnalyzers {
  FreqState : Type;
  freq_new : FreqState;
  freq_addEntry : FreqState -> LogEntry -> FreqState;
  freq_detectAnomalies : FreqState -> list string;
  PatternState : Type;
  pattern_new : PatternState;
  pattern_addEntry : PatternState -> LogEntry -> PatternState;
  pattern_detectAnomalies : PatternState -> list string;
  StatState : Type;
  stat_new : StatState;
  stat_processEntry : StatState -> LogEntry -> StatState * list StatAnomaly
}.

(** Analyzers that report nothing.  On a stream without a parsed entry
    the analyzers of the program are never fed, and their
    [detectAnomalies] loop over empty maps. *)
Definition silentAnalyzers : Analyzers :=
  mkAnalyzers unit tt (fun s _ => s) (fun _ => [])
              unit tt (fun s _ => s) (fun _ => [])
              unit tt (fun s _ => (s, [])).

(** The environment of a run: the local time zone, the readings of
    [system_clock::now()] in the order the driver takes them, and the
    values read from the uninitialised scores of [TimeWindowAnalyzer]. *)
Record Env := mkEnv {
  tz     : Z;
  clock  : nat -> TimePoint;
  uninit : nat -> Q
}.

Section Driver.
Variable A : Analyzers.
Variable env : Env.

(** The local variables of [main] that the report depends on; the
    per-minute series kept for [--graphs] is left out. *)
Record State := mkState {
  report         : Report.t;
  parsedCount    : N;
  malformedCount : N;
  emittedCount   : N;
  haveTimeRange  : bool;
  minTs          : TimePoint;
  maxTs          : TimePoint;
  freq           : FreqState A;
  timeWindow     : TimeWindowAnalyzer.t;
  pattern        : PatternState A;
  spikeDetector  : SpikeDetector.t;
  statDetector   : StatState A;
  burstDetector  : BurstPatternDetector.t;
  ipDetector     : IpFrequencyDetector.t;
  clockReads     : nat
}.

Definition start (inputFile : string) : State :=
  mkState (Report.setProcessedFile Report.new (Some inputFile))
          0 0 0 false 0 0
          (freq_new A) TimeWindowAnalyzer.new (pattern_new A)
          SpikeDetector.new (stat_new A) BurstPatternDetector.new
          IpFrequencyDetector.new 0.

(** [report.addAnomaly(a); ++emittedCount;] for each anomaly. *)
Definition emit (r : Report.t * N) (a : Anomaly) : Report.t * N :=
  (Report.addAnomaly (fst r) a, Report.incr_u64 (snd r)).

Definition emitAll (r : Report.t * N) (l : list Anomaly) : Report.t * N :=
  List.fold_left emit l r.

Definition malformedAnomaly (nowTp : TimePoint) (error : string)
  : Anomaly :=
  mkAnomaly Other Low nowTp nowTp 1
            ("Malformed log line: "
             ++ (if empty error then "parse failure" else error))%string
            (Some "parser") [].

(** [RuleBasedDetector::matchesToAnomalies] returns an empty vector. *)
Definition ruleAnomalies (entry : LogEntry) : list Anomaly := [].

Definition spikeToAnomaly (s : SpikeDetector.SpikeAnomaly) : Anomaly :=
  mkAnomaly FrequencySpike
            (if Double.geb (SpikeDetector.severity s) (9 # 10)
             then SevCritical
             else if Double.geb (SpikeDetector.severity s) (6 # 10)
                  then High else Medium)
            (SpikeDetector.windowStart (SpikeDetector.stats s))
            (SpikeDetector.windowEnd (SpikeDetector.stats s))
            (SpikeDetector.spikeRatio (SpikeDetector.stats s))
            (SpikeDetector.description s)
            (if empty (SpikeDetector.s_source (SpikeDetector.stats s))
             then None
             else Some (SpikeDetector.s_source (SpikeDetector.stats s)))
            (SpikeDetector.sampleEvents s).

Definition statToAnomaly (entry : LogEntry) (st : StatAnomaly) : Anomaly :=
  mkAnomaly StatisticalOutlier
            (if Double.geb (sa_severity st) (9 # 10) then High
             else if Double.geb (sa_severity st) (6 # 10) then Medium
                  else Low)
            (timestamp entry) (timestamp entry) (sa_zscore st)
            (sa_description st) (source entry) [entry].

Definition burstToAnomaly (br : BurstPatternDetector.Burst) : Anomaly :=
  mkAnomaly SequenceViolation High
            (BurstPatternDetector.b_windowStart br)
            (BurstPatternDetector.b_windowEnd br)
            (BurstPatternDetector.score br)
            (BurstPatternDetector.description br)
            (BurstPatternDetector.b_source br)
            (BurstPatternDetector.samples br).

Definition ipToAnomaly (h : IpFrequencyDetector.IpHit) : Anomaly :=
  let e := IpFrequencyDetector.h_entry h in
  mkAnomaly RarePattern Low (timestamp e) (timestamp e) 1
            ("Rare IP observed (count="
             ++ show_Z (Z.of_N (IpFrequencyDetector.count h)) ++ "): "
             ++ IpFrequencyDetector.ip h)%string
            (source e) [e].

(** The anomalies one parsed entry appends to the report, detector by
    detector in the order of the loop body. *)
Definition entryAnomalies (entry : LogEntry)
           (spikes : list SpikeDetector.SpikeAnomaly)
           (stats : list StatAnomaly)
           (bursts : list BurstPatternDetector.Burst)
           (hits : list IpFrequencyDetector.IpHit) : list Anomaly :=
  ruleAnomalies entry
  ++ List.map spikeToAnomaly spikes
  ++ List.map (statToAnomaly entry) stats
  ++ List.map burstToAnomaly bursts
  ++ List.map ipToAnomaly hits.

(** One iteration of [while (std::getline(file, line))]; [None] stands
    for an iteration that does not end. *)
Definition processLine (s : State) (line : string) : option State :=
  if empty line then Some s
  else
    let pr := LogParser.parseLineDetailed (tz env) LogParser.new line in
    match LogParser.entry pr with
    | None =>
        let nowTp := clock env (clockReads s) in
        let '(r, emitted) :=
          emit (report s, emittedCount s)
               (malformedAnomaly nowTp (LogParser.error pr)) in
        Some (mkState r (parsedCount s)
                      (Report.incr_u64 (malformedCount s)) emitted
                      (haveTimeRange s) (minTs s) (maxTs s)
                      (freq s) (timeWindow s) (pattern s)
                      (spikeDetector s) (statDetector s)
                      (burstDetector s) (ipDetector s)
                      (S (clockReads s)))
    | Some entry =>
        let ts := timestamp entry in
        let minTs' :=
          if haveTimeRange s
          then (if ts <? minTs s then ts else minTs s) else ts in
        let maxTs' :=
          if haveTimeRange s
          then (if maxTs s <? ts then ts else maxTs s) else ts in
        let r := Report.incrementLevelCount (report s) (level entry) false in
        let r := Report.updateSourceStats
                   r (value_or (source entry) "unknown") (level entry) in
        match TimeWindowAnalyzer.addEntry (timeWindow s) entry with
        | None => None
        | Some tw =>
            let '(spike, spikes) :=
              SpikeDetector.processEntry (spikeDetector s) entry in
            let '(stat, stats) :=
              stat_processEntry A (statDetector s) entry in
            let '(burst, bursts) :=
              BurstPatternDetector.processEntry (burstDetector s) entry in
            let '(ip, hits) :=
              IpFrequencyDetector.processEntry (ipDetector s) entry in
            let '(r, emitted) :=
              emitAll (r, emittedCount s)
                      (entryAnomalies entry spikes stats bursts hits) in
            Some (mkState r (Report.incr_u64 (parsedCount s))
                          (malformedCount s) emitted true minTs' maxTs'
                          (freq_addEntry A (freq s) entry) tw
                          (pattern_addEntry A (pattern s) entry)
                          spike stat burst ip (clockReads s))
        end
    end.

Fixpoint processLines (s : State) (lines : list string) : option State :=
  match lines with
  | [] => Some s
  | line :: rest =>
      match processLine s line with
      | Some s' => processLines s' rest
      | None => None
      end
  end.

(** The end-of-stream anomalies built from the strings of an offline
    analyzer.  Without a parsed entry each window bound is a fresh
    reading of the clock; [k] counts the readings taken so far. *)
Fixpoint offlineAnomalies (ty : AnomalyType) (have : bool)
         (lo hi : TimePoint) (k : nat) (descriptions : list string)
  : list Anomaly * nat :=
  match descriptions with
  | [] => ([], k)
  | d :: rest =>
      if have
      then let '(l, k') := offlineAnomalies ty have lo hi k rest in
           (mkAnomaly ty Medium lo hi 1 d None [] :: l, k')
      else let '(l, k') := offlineAnomalies ty have lo hi (S (S k)) rest in
           (mkAnomaly ty Medium (clock env k) (clock env (S k)) 1 d None []
              :: l, k')
  end.

Definition timeWindowToAnomaly (tw : TimeWindowAnalyzer.Anomaly)
  : Anomaly :=
  mkAnomaly
    (if LogParser.found (TimeWindowAnalyzer.description tw) "Silence"
     then Silence else FrequencySpike)
    (if Double.geb (TimeWindowAnalyzer.score tw) (9 # 10) then High
     else if Double.geb (TimeWindowAnalyzer.score tw) (6 # 10) then Medium
          else Low)
    (TimeWindowAnalyzer.windowStart (TimeWindowAnalyzer.stats tw))
    (TimeWindowAnalyzer.windowEnd (TimeWindowAnalyzer.stats tw))
    (TimeWindowAnalyzer.score tw)
    (TimeWindowAnalyzer.description tw) None [].

(** What [main] does after the loop, up to the finished report. *)
Definition finish (s : State) : Report.t :=
  let '(freqAnoms, k1) :=
    offlineAnomalies FrequencySpike (haveTimeRange s) (minTs s) (maxTs s)
                     (clockReads s) (freq_detectAnomalies A (freq s)) in
  let '(patAnoms, k2) :=
    offlineAnomalies SequenceViolation (haveTimeRange s) (minTs s)
                     (maxTs s) k1
                     (pattern_detectAnomalies A (pattern s)) in
  let twAnoms :=
    List.map timeWindowToAnomaly
             (TimeWindowAnalyzer.detectAnomalies
                (tz env) (timeWindow s) (uninit env)) in
  let '(r, _) :=
    emitAll (report s, emittedCount s) (freqAnoms ++ patAnoms ++ twAnoms) in
  let r := Report.setTotalEntries r (parsedCount s) in
  if haveTimeRange s
  then Report.setAnalysisEnd (Report.setAnalysisStart r (minTs s)) (maxTs s)
  else Report.setAnalysisEnd (Report.setAnalysisStart r (clock env k2))
                             (clock env k2).

Definition run (inputFile : string) (lines : list string)
  : option Report.t :=
  match processLines (start inputFile) lines with
  | Some s => Some (finish s)
  | None => None
  end.

End Driver.

End Pipeline.

(** ** The literal inputs of the end-to-end scenarios *)

Module Scenarios.
Import StringUtils TimeUtils Core.

(** [{"k1":"v1","k2":"v2",...}] *)
Definition jsonField (kv : string * string) : string :=
  (ReportGenerator.quoted (fst kv) ++ ":" ++ ReportGenerator.quoted (snd kv))%string.

Definition jsonLine (fields : list (string * string)) : string :=
  ("{" ++ join "," (List.map jsonField fields) ++ "}")%string.

(** Silence: five lines at 00:00:00..04, then five at 00:10:00..04. *)
Definition silence_lines : list string :=
  [ "2024-01-01 00:00:00 INFO svc1: heartbeat ok";
    "2024-01-01 00:00:01 INFO svc1: heartbeat ok";
    "2024-01-01 00:00:02 INFO svc1: heartbeat ok";
    "2024-01-01 00:00:03 INFO svc1: heartbeat ok";
    "2024-01-01 00:00:04 INFO svc1: heartbeat ok";
    "2024-01-01 00:10:00 INFO svc1: heartbeat ok";
    "2024-01-01 00:10:01 INFO svc1: heartbeat ok";
    "2024-01-01 00:10:02 INFO svc1: heartbeat ok";
    "2024-01-01 00:10:03 INFO svc1: heartbeat ok";
    "2024-01-01 00:10:04 INFO svc1: heartbeat ok" ].

(** The entries the parser makes of a list of lines (UTC). *)
Definition parsed (lines : list string) : list LogEntry :=
  omap (LogParser.parseLine 0 LogParser.new) lines.

(** Burst: 25 consecutive identical lines. *)
Definition burst_line : string :=
  "2024-01-01 00:00:00 INFO svc2: cache miss for user 42".

Definition burst_lines : list string := List.repeat burst_line 25.

(** Rare IP: 1000 entries, five of them from 10.0.0.7. *)
Definition ip_entry (ip : string) : LogEntry :=
  mkLogEntry 1704067200 Info (Some "unknown")
             ("login from " ++ ip)%string None.

Definition common : list LogEntry := List.repeat (ip_entry "10.0.0.1") 199.

Definition rare_ip_stream : list LogEntry :=
  List.concat (List.repeat (common ++ [ip_entry "10.0.0.7"]) 5).

(** A line stamped before 2000-01-01. *)
Definition pre2000_line : string :=
  "1990-01-01 00:00:00 INFO svc1: started".

(** A JSON line whose message is the empty string. *)
Definition json_empty_message_line : string :=
  jsonLine [ ("time", "2024-01-01T00:00:00"); ("level", "ERROR");
             ("service", "db"); ("message", "") ].

Definition json_line : string :=
  jsonLine [ ("time", "2024-01-01T00:00:00"); ("level", "ERROR");
             ("service", "db"); ("message", "timeout") ].

Definition malformed_line : string := "this is not a log".

End Scenarios.

(** ** Vocabulary of the properties *)

Section ParserVocabulary.
Import StringUtils TimeUtils Core LogParser.

(** The source lookup of [tryParseJsonLine]. *)
Definition jsonSource (line : string) : option string :=
  or_else (or_else (extractJsonString line "service")
                   (extractJsonString line "component"))
          (extractJsonString line "source").

End ParserVocabulary.

(** The entry the parser makes of the burst line. *)
Definition burst_entry : Core.LogEntry :=
  Core.mkLogEntry 1704067200 Core.Info (Some "unknown"%string)
                  "cache miss for user 42"%string
                  (Some Scenarios.burst_line).

(** An entry of source [svc1]; fifteen of them in one second make a
    spike. *)
Definition spike_entry : Core.LogEntry :=
  Core.mkLogEntry 1704067200 Core.Error (Some "svc1"%string)
                  "connection lost"%string None.

(** The same source, a hundred seconds later. *)
Definition spike_entry_later : Core.LogEntry :=
  Core.mkLogEntry 1704067300 Core.Error (Some "svc1"%string)
                  "connection lost"%string None.

(** A report with three anomalies, emitted in an order that is not the
    ranked one. *)
Definition sample_report : Report.t :=
  Report.addAnomaly
    (Report.addAnomaly
       (Report.addAnomaly Report.new
          (Core.mkAnomaly Core.Other Core.Low 100 100 1
                          "Malformed log line: No matching pattern"%string
                          (Some "parser"%string) []))
       (Core.mkAnomaly Core.SequenceViolation Core.High 40 50 (20 # 1)
                       "Burst repetition detected"%string None []))
    (Core.mkAnomaly Core.SequenceViolation Core.High 40 50 (21 # 1)
                    "Burst repetition detected"%string None []).

Section TimeWindowVocabulary.
Import Core TimeWindowAnalyzer.

(** The end of the newest bucket of the history, when there is one. *)
Definition lastHistoryEnd (a : t) : option TimeUtils.TimePoint :=
  option_map b_end (List.last (List.map Some (m_windowHistory a)) None).

(** The newest bucket of the history ends where the current one starts,
    and an analyzer that has seen no entry has no history. *)
Definition contiguous (a : t) : Prop :=
  (forall e, lastHistoryEnd a = Some e -> e = b_start (m_currentWindow a))
  /\ (m_initialized a = false -> m_windowHistory a = []).

(** A bucket on which neither the error-rate check nor the burst check
    fires. *)
Definition quietBucket (a : t) (b : TimeBucket) : bool :=
  (negb (Double.gtb (errorRate (calculateStats b)) (m_errorRateThreshold a))
   && negb (Nat.ltb (m_burstThreshold a) (totalEvents (calculateStats b))))%bool.

End TimeWindowVocabulary.

Section RareIpVocabulary.
Import Core IpFrequencyDetector.

(** The address of an entry is [ip]. *)
Definition hasIp (addr : string) (e : LogEntry) : bool :=
  match extractIp (message e) with
  | Some i => String.eqb i addr
  | None => false
  end.

Definition occurrences (addr : string) (stream : list LogEntry) : nat :=
  List.length (List.filter (hasIp addr) stream).

Definition hitsFor (addr : string) (hits : list IpHit) : nat :=
  List.length (List.filter (fun h => String.eqb (ip h) addr) hits).

Definition countOf (d : t) (addr : string) : N :=
  default 0%N (m_counts d !! addr).

(** The scenario of the specification: 1000 entries, five from
    10.0.0.7, all others from 10.0.0.1. *)
Definition rare_ip_scenario (stream : list LogEntry) : Prop :=
  List.length stream = 1000%nat
  /\ occurrences "10.0.0.7" stream = 5%nat
  /\ occurrences "10.0.0.1" stream = 995%nat.

(** What the specification expects of it: five anomalies, one for each
    occurrence of 10.0.0.7, none for 10.0.0.1. *)
Definition rare_ip_expectation (stream : list LogEntry) : Prop :=
  let hits := snd (processEntries new stream) in
  List.length hits = 5%nat
  /\ hitsFor "10.0.0.7" hits = 5%nat
  /\ hitsFor "10.0.0.1" hits = 0%nat.

End RareIpVocabulary.

Section SpikeVocabulary.
Import Core SpikeDetector.

(** The state kept for a source; a source never seen has the
    default-constructed one. *)
Definition stateOf (d : t) (src : string) : SourceState :=
  default newSourceState (m_sourceStates d !! src).

(** The sizes of the two deques of a source. *)
Definition shortSize (d : t) (src : string) : nat :=
  List.length (recentEvents (stateOf d src)).

Definition longSize (d : t) (src : string) : nat :=
  List.length (baselineEvents (stateOf d src)).

(** The spike ratio in the words of the specification, read in exact
    arithmetic:
    (|short| / short_window_seconds) / (|long| / baseline_window_seconds),
    and 1.0 when the baseline is zero. *)
Definition exact_spike_ratio (d : t) (short long : nat) : Q :=
  let current_rate := (Double.of_nat short / Double.of_Z (m_shortWindow d))%Q in
  let baseline_rate := (Double.of_nat long / Double.of_Z (m_baselineWindow d))%Q in
  if Qeq_bool baseline_rate 0 then 1%Q else (current_rate / baseline_rate)%Q.

(** The same ratio in [double] arithmetic: each of the three divisions
    is rounded to the nearest [double], ties to even. *)
Definition spike_ratio (d : t) (short long : nat) : Q :=
  let current_rate :=
    Double.div (Double.cast_nat short) (Double.cast_Z (m_shortWindow d)) in
  let baseline_rate :=
    Double.div (Double.cast_nat long) (Double.cast_Z (m_baselineWindow d)) in
  if Qeq_bool baseline_rate 0 then 1%Q
  else Double.div current_rate baseline_rate.

(** The counters of a source state agree with its deques. *)
Definition counts_consistent (st : SourceState) : Prop :=
  st_currentCount st = List.length (recentEvents st)
  /\ st_baselineCount st = List.length (baselineEvents st).

(** Every stored source state is consistent. *)
Definition all_consistent (d : t) : Prop :=
  forall src st, m_sourceStates d !! src = Some st -> counts_consistent st.

(** The detectors a program can build: a fresh one, reconfigured and fed
    in any order. *)
Inductive reachable : t -> Prop :=
| reach_new : reachable new
| reach_reset d : reachable d -> reachable (reset d)
| reach_setSpikeThreshold d ratio :
    reachable d -> reachable (setSpikeThreshold d ratio)
| reach_setShortWindow d duration :
    reachable d -> reachable (setShortWindow d duration)
| reach_setBaselineWindow d duration :
    reachable d -> reachable (setBaselineWindow d duration)
| reach_setMaxSampleEvents d count :
    reachable d -> reachable (setMaxSampleEvents d count)
| reach_processEntry d entry :
    reachable d -> reachable (fst (processEntry d entry)).

End SpikeVocabulary.

Section RankingVocabulary.
Import Core.

(** The ranking in the words of the specification: severity
    descending, then score descending, then window end descending, then
    description ascending.  [ranks_before a b] allows [a] to stand
    before [b]. *)
Definition ranks_before (a b : Anomaly) : Prop :=
  AnomalySeverity_ordinal (a_severity b) < AnomalySeverity_ordinal (a_severity a)
  \/ (a_severity a = a_severity b
      /\ ((a_score b < a_score a)%Q
          \/ ((a_score a == a_score b)%Q
              /\ (a_windowEnd b < a_windowEnd a
                  \/ (a_windowEnd a = a_windowEnd b
                      /\ String.leb (a_description a) (a_description b)
                         = true))))).

(** A three-way comparison that behaves like one of a total preorder. *)
Record good_compare {A} (c : A -> A -> comparison) : Prop := {
  gc_refl : forall a, c a a = Eq;
  gc_antisym : forall a b, c b a = CompOpp (c a b);
  gc_trans_lt : forall a b d, c a b = Lt -> c b d = Lt -> c a d = Lt;
  gc_eq_l : forall a b d, c a b = Eq -> c a d = c b d
}.

(** Lexicographic composition. *)
Definition lex {A} (c1 c2 : A -> A -> comparison) (a b : A) : comparison :=
  match c1 a b with Eq => c2 a b | r => r end.

(** The ranking as a comparison: [Lt] when the first anomaly ranks
    strictly before the second. *)
Definition rank_compare : Anomaly -> Anomaly -> comparison :=
  lex (fun a b => Z.compare (AnomalySeverity_ordinal (a_severity b))
                            (AnomalySeverity_ordinal (a_severity a)))
      (lex (fun a b => Qcompare (a_score b) (a_score a))
           (lex (fun a b => Z.compare (a_windowEnd b) (a_windowEnd a))
                (fun a b => String.compare (a_description a)
                                           (a_description b)))).

(** The view [generateReport] is expected to build from a ranked list. *)
Definition capped {A} (max : nat) (ranked : list A) : list A :=
  if Nat.ltb 0 max then List.firstn max ranked else ranked.

End RankingVocabulary.

Section PipelineVocabulary.
Import Core Pipeline.

(** Two anomalies that differ at most in their window. *)
Definition same_but_window (a b : Anomaly) : Prop :=
  a_type a = a_type b /\ a_severity a = a_severity b
  /\ a_score a = a_score b /\ a_description a = a_description b
  /\ a_source a = a_source b /\ a_relatedEntries a = a_relatedEntries b.

(** Two anomalies of two runs: the same anomaly, or two malformed-line
    anomalies (type [Other]) that differ at most in their window. *)
Definition same_but_malformed_window (a b : Anomaly) : Prop :=
  a = b \/ (a_type a = Other /\ same_but_window a b).

(** A line the driver gives to the parser, and what becomes of it. *)
Definition lineParses (tz : Z) (line : string) : bool :=
  (negb (StringUtils.empty line)
   && has_value (LogParser.entry
                   (LogParser.parseLineDetailed tz LogParser.new line)))%bool.

Definition lineMalformed (tz : Z) (line : string) : bool :=
  (negb (StringUtils.empty line)
   && negb (has_value (LogParser.entry
                         (LogParser.parseLineDetailed tz LogParser.new line))))%bool.

(** A report with another anomaly list. *)
Definition withAnomalies (r : Report.t) (l : list Anomaly) : Report.t :=
  Report.mkReport (Report.m_analysisStart r) (Report.m_analysisEnd r)
                  (Report.m_totalEntries r) (Report.m_processedFile r) l
                  (Report.m_levelStats r) (Report.m_sourceStats r).

(** A driver state with another report. *)
Definition withReport {A} (s : State A) (r : Report.t) : State A :=
  mkState A r (parsedCount A s) (malformedCount A s) (emittedCount A s)
          (haveTimeRange A s) (minTs A s) (maxTs A s) (freq A s)
          (timeWindow A s) (pattern A s) (spikeDetector A s)
          (statDetector A s) (burstDetector A s) (ipDetector A s)
          (clockReads A s).

(** The emission counter after a list of anomalies was appended. *)
Definition emittedAfter (n : N) (l : list Anomaly) : N :=
  List.fold_left (fun n _ => Report.incr_u64 n) l n.

(** Two driver states that differ at most in the anomalies reported so
    far, and there at most in the windows of malformed-line anomalies. *)
Definition twin_states {A} (s1 s2 : State A) : Prop :=
  withReport s1 (withAnomalies (report A s1) [])
  = withReport s2 (withAnomalies (report A s2) [])
  /\ Forall2 same_but_malformed_window
             (Report.anomalies (report A s1)) (Report.anomalies (report A s2)).

(** The determinism property as the specification states it (P4): two
    runs on the same input give the same ordered anomaly list, and the
    same serialized anomalies. *)
Definition runs_identical (A : Analyzers) (env1 env2 : Env)
           (file : string) (lines : list string) : Prop :=
  match run A env1 file lines, run A env2 file lines with
  | Some r1, Some r2 =>
      Report.anomalies r1 = Report.anomalies r2
      /\ ReportGenerator.renderJsonAnomalies (tz env1) (Report.anomalies r1)
         = ReportGenerator.renderJsonAnomalies (tz env2) (Report.anomalies r2)
  | _, _ => False
  end.

End PipelineVocabulary.

Section StringVocabulary.
Import CType StringUtils.

(** Every character of the string satisfies [p]. *)
Fixpoint all_chars (p : ascii -> bool) (s : string) : bool :=
  match s with
  | EmptyString => true
  | String c r => (p c && all_chars p r)%bool
  end.

(** The number of occurrences of a character. *)
Fixpoint count_char (c : ascii) (s : string) : nat :=
  match s with
  | EmptyString => O
  | String d r => ((if Ascii.eqb d c then 1 else 0) + count_char c r)%nat
  end.

(** Line feed, carriage return or tab. *)
Definition isLayout (c : ascii) : bool :=
  (N.eqb (code c) 10 || N.eqb (code c) 13 || N.eqb (code c) 9)%bool.

(** Not one of the control characters U+0000 to U+001F, the ones a JSON
    string may not hold unescaped: a byte of value 32 or more.  DEL
    (127) and the bytes above it are such bytes. *)
Definition above_c0 (c : ascii) : bool := N.leb 32 (code c).

(** A digit, the sign or the decimal point. *)
Definition numeric (c : ascii) : bool :=
  (isdigit c || Ascii.eqb c "-" || Ascii.eqb c ".")%bool.

(** A digit or a dot. *)
Definition dotted (c : ascii) : bool := (isdigit c || Ascii.eqb c ".")%bool.

(** Digits and dots: [k] dots, and between [lo] and [hi] characters. *)
Definition shaped (k lo hi : nat) (m : string) : Prop :=
  all_chars dotted m = true /\ count_char "." m = k
  /\ (lo <= String.length m <= hi)%nat.

(** Any character but the capital letter S. *)
Definition notCapitalS (c : ascii) : bool := negb (Ascii.eqb c "S").

(** What becomes of a layout character that is escaped and then read
    by a reader that copies the character after a backslash. *)
Definition deControl (c : ascii) : ascii :=
  if N.eqb (code c) 10 then "n"%char
  else if N.eqb (code c) 13 then "r"%char
  else if N.eqb (code c) 9 then "t"%char
  else c.

(** The JSON reading of an escaped character. *)
Definition reControl (c : ascii) : ascii :=
  if Ascii.eqb c "n" then ascii_of_N 10
  else if Ascii.eqb c "r" then ascii_of_N 13
  else if Ascii.eqb c "t" then ascii_of_N 9
  else c.

(** A JSON string reader for the escapes [escapeJson] writes. *)
Fixpoint unescapeJson (s : string) : string :=
  match s with
  | EmptyString => EmptyString
  | String c r =>
      if Ascii.eqb c "\"
      then match r with
           | EmptyString => EmptyString
           | String x r' => String (reControl x) (unescapeJson r')
           end
      else String c (unescapeJson r)
  end.

(** The object with one member, [key] and the string [body]. *)
Definition jsonObject1 (key body : string) : string :=
  ("{" ++ ReportGenerator.quoted key ++ ":" ++ ReportGenerator.quoted body
   ++ "}")%string.

(** A reader of CSV fields: inside a quoted field a doubled quote is a
    quote, and a single one ends the field. *)
Fixpoint undoubleQuotes (s : string) : string :=
  match s with
  | EmptyString => EmptyString
  | String c r =>
      if Ascii.eqb c dquote
      then match r with
           | EmptyString => EmptyString
           | String x r' =>
               if Ascii.eqb x dquote then String dquote (undoubleQuotes r')
               else EmptyString
           end
      else String c (undoubleQuotes r)
  end.

Definition unescapeCsv (s : string) : string :=
  match s with
  | EmptyString => EmptyString
  | String c r => if Ascii.eqb c dquote then undoubleQuotes r else s
  end.

End StringVocabulary.

Section TimeVocabulary.
Import StringUtils TimeUtils.

(** The fourteen characters [parseTimestamp] converts. *)
Definition stampDigits (sv : string) : string :=
  (substr sv 0 4 ++ substr sv 5 2 ++ substr sv 8 2 ++ substr sv 11 2
   ++ substr sv 14 2 ++ substr sv 17 2)%string.

(** The same six fields between the separators of
    [YYYY-MM-DD HH:MM:SS]. *)
Definition canonicalStamp (sv : string) : string :=
  (substr sv 0 4 ++ "-" ++ substr sv 5 2 ++ "-" ++ substr sv 8 2 ++ " "
   ++ substr sv 11 2 ++ ":" ++ substr sv 14 2 ++ ":" ++ substr sv 17 2)%string.

(** An instant a [TimePoint] can hold: a number of seconds whose count
    of nanoseconds fits in 64 bits, from 1677-09-21 to 2262-04-11. *)
Definition representable (t : Z) : bool :=
  ((-9223372036 <=? t) && (t <=? 9223372036))%bool.

(** The calendar year of an instant in the local time zone. *)
Definition localYear (tz : Z) (tp : TimePoint) : Z :=
  fst (fst (civil_from_days ((tp + tz) / 86400))).

(** The two-digit rendering of [n] reads back as [n]. *)
Definition two_digit_ok (n : Z) : bool :=
  match field 2 n with
  | String a (String b EmptyString) =>
      match parseIntField (String a (String b EmptyString)) with
      | Some v => v =? n
      | None => false
      end
  | _ => false
  end.

(** The rendering of the year [n] has four characters and reads back
    as [n]. *)
Definition four_digit_ok (n : Z) : bool :=
  match signed n with
  | String a (String b (String c (String d EmptyString))) =>
      match parseIntField (signed n) with
      | Some v => v =? n
      | None => false
      end
  | _ => false
  end.

(** [ok] holds for the [n] integers from [z] on. *)
Fixpoint all_from (ok : Z -> bool) (n : nat) (z : Z) : bool :=
  match n with
  | O => true
  | S k => if ok z then all_from ok k (z + 1) else false
  end.

End TimeVocabulary.

Section LineVocabulary.
Import CType StringUtils Core LogParser.

(** What [extractMessage] splits into words: the trimmed line without
    its first 20 characters when it has more than 20, trimmed again. *)
Definition remainingText (line : string) : string :=
  let remaining := trim line in
  trim (if Nat.ltb 20 (String.length remaining)
        then drop_chars 20 remaining else remaining).

(** The level names a line is searched for. *)
Definition levelKeywords : list string :=
  ["TRACE"; "DEBUG"; "INFO"; "WARN"; "ERROR"; "FATAL"; "CRITICAL"].

End LineVocabulary.

Section WindowVocabulary.
Import Core TimeWindowAnalyzer.

(** The number of events of a source in a bucket. *)
Definition eventsOf (src : string) (b : TimeBucket) : N :=
  N.of_nat (List.length
              (List.filter (fun ev => String.eqb (te_source ev) src)
                           (b_events b))).

(** A bucket of [size] seconds whose events lie inside it and whose
    per-source counters count them. *)
Definition bucket_ok (size : Z) (b : TimeBucket) : Prop :=
  b_end b = b_start b + size
  /\ Forall (fun ev => b_start b <= te_timestamp ev < b_end b) (b_events b)
  /\ forall src, default 0%N (b_sourceCounts b !! src) = eventsOf src b.

(** Consecutive buckets: each one ends where the next one starts. *)
Fixpoint chained (l : list TimeBucket) : Prop :=
  match l with
  | b1 :: rest =>
      match rest with
      | b2 :: _ => b_end b1 = b_start b2 /\ chained rest
      | [] => True
      end
  | [] => True
  end.

(** What the analyzer keeps true of its state. *)
Definition window_invariant (a : t) : Prop :=
  m_windowSize a = 60 /\ m_maxHistoryWindows a = 12%nat
  /\ (List.length (m_windowHistory a) <= 12)%nat
  /\ Forall (bucket_ok 60) (m_windowHistory a)
  /\ chained (m_windowHistory a ++ [m_currentWindow a])
  /\ (if m_initialized a then bucket_ok 60 (m_currentWindow a)
      else m_windowHistory a = [] /\ b_events (m_currentWindow a) = []
           /\ b_sourceCounts (m_currentWindow a) = ∅).

(** The analyzer after a stream of entries. *)
Definition windowAfter (entries : list LogEntry) : t :=
  match addEntries new entries with
  | Some a => a
  | None => new
  end.

(** An entry stamped 100 seconds before [spike_entry]. *)
Definition late_entry : LogEntry :=
  mkLogEntry 1704067100 Info (Some "svc1"%string) "started"%string None.

End WindowVocabulary.

Section BurstVocabulary.
Import Core BurstPatternDetector.



(** No two spaces in a row. *)
Fixpoint no_double_space (s : string) : bool :=
  match s with
  | EmptyString => true
  | String a r =>
      match r with
      | EmptyString => true
      | String b _ =>
          (negb (Ascii.eqb a " " && Ascii.eqb b " ") && no_double_space r)%bool
      end
  end.

(** No white space but the space character. *)
Definition onlySpaces (c : ascii) : bool :=
  (negb (CType.isspace c) || Ascii.eqb c " ")%bool.

End BurstVocabulary.

Section SpikeRunVocabulary.
Import Core SpikeDetector.

(** A stream of entries: the spikes each entry emitted, in order. *)
Fixpoint spikeRun (d : t) (entries : list LogEntry)
  : t * list (list SpikeAnomaly) :=
  match entries with
  | [] => (d, [])
  | e :: rest =>
      let r := processEntry d e in
      let r' := spikeRun (fst r) rest in
      (fst r', snd r :: snd r')
  end.


(** No stored source state has a previous count. *)
Definition no_previous (d : t) : Prop :=
  forall src st, m_sourceStates d !! src = Some st -> previousCount st = 0%nat.

End SpikeRunVocabulary.

Section ReporterVocabulary.
Import Core.





End ReporterVocabulary.

Section DriverVocabulary.
Import StringUtils Core Pipeline.

(** The entry the driver makes of a line, when it makes one. *)
Definition lineEntry (tz : Z) (line : string) : option LogEntry :=
  if empty line then None
  else LogParser.entry (LogParser.parseLineDetailed tz LogParser.new line).

(** The parsed entries of a file, in the order of its lines. *)
Definition entriesOf (tz : Z) (lines : list string) : list LogEntry :=
  omap (lineEntry tz) lines.

(** A count as a [std::uint64_t] holds it. *)
Definition wrap64 (n : nat) : N := (N.of_nat n mod 2 ^ 64)%N.

Definition isOther (a : Anomaly) : bool :=
  match a_type a with Other => true | _ => false end.

Definition isErrorLevel (l : LogLevel) : bool :=
  match l with Error | Critical => true | _ => false end.

Definition isWarnLevel (l : LogLevel) : bool :=
  match l with Warn => true | _ => false end.

Definition sameLevel (a b : LogLevel) : bool :=
  LogLevel_ordinal a =? LogLevel_ordinal b.

(** [std::map::find]. *)
Fixpoint map_find {K V} (eqb : K -> K -> bool) (k : K) (m : list (K * V))
  : option V :=
  match m with
  | [] => None
  | (k', v) :: rest => if eqb k k' then Some v else map_find eqb k rest
  end.

(** The name under which the driver counts an entry's source. *)
Definition sourceName (e : LogEntry) : string :=
  value_or (source e) "unknown".

Definition count_if {A} (p : A -> bool) (l : list A) : nat :=
  List.length (List.filter p l).

(** A [std::map] holds its keys in strictly increasing order. *)
Definition keys_above {K V} (ltb : K -> K -> bool) (k : K)
           (m : list (K * V)) : Prop :=
  Forall (fun kv => ltb k (fst kv) = true) m.

Fixpoint keys_sorted {K V} (ltb : K -> K -> bool) (m : list (K * V))
  : Prop :=
  match m with
  | [] => True
  | kv :: rest => keys_above ltb (fst kv) rest /\ keys_sorted ltb rest
  end.

(** The sum of one counter over the values of a map. *)
Definition sumN {K V} (g : V -> N) (m : list (K * V)) : N :=
  List.fold_right (fun kv acc => (g (snd kv) + acc)%N) 0%N m.

(** What the driver reports of a kind it has found no trace of, or
    of one it has counted [n] times. *)
Definition counted {V} (n : nat) (v : V) : option V :=
  match n with O => None | S _ => Some v end.

(** The anomalies the driver can build. *)
Definition driverKind (a : Anomaly) : Prop :=
  a_type a <> Silence
  /\ (a_severity a = SevCritical -> a_type a = FrequencySpike)
  /\ (a_type a = Other ->
      a_severity a = Low /\ a_score a = 1%Q
      /\ a_source a = Some "parser"
      /\ String.prefix "Malformed log line: " (a_description a) = true).

End DriverVocabulary.
(** * Properties *)

(** ** The parser *)

Section ParserProperties.
Import StringUtils TimeUtils Core LogParser.

Variable tz : Z.

Lemma tryParsePattern_fields line pattern e :
  tryParsePattern tz line pattern = Some e ->
  source e = Some (value_or (extractSource line) "unknown")
  /\ extractMessage line = Some (message e)
  /\ extractTimestamp tz line = Some (timestamp e).
Proof.
  unfold tryParsePattern.
  destruct (extractTimestamp tz line) as [ts|]; [|discriminate].
  destruct (extractLevel line) as [lv|]; [|discriminate].
  destruct (extractMessage line) as [msg|]; [|discriminate].
  intros [= <-]. auto.
Qed.

Lemma tryPatterns_fields line patterns e :
  tryPatterns tz line patterns = Some e ->
  source e = Some (value_or (extractSource line) "unknown")
  /\ extractMessage line = Some (message e)
  /\ extractTimestamp tz line = Some (timestamp e).
Proof.
  induction patterns as [|pattern rest IH]; [discriminate|].
  cbn [tryPatterns].
  destruct (tryParsePattern tz line pattern) as [e'|] eqn:Hp.
  - intros [= <-]. eapply tryParsePattern_fields; eauto.
  - exact IH.
Qed.

Lemma tryParseJsonLine_source line e err :
  tryParseJsonLine tz line = (Some e, err) ->
  source e = Some (value_or (jsonSource line) "unknown").
Proof.
  unfold tryParseJsonLine, jsonSource.
  destruct (or_else (or_else (extractJsonString line "timestamp") _) _);
    [|discriminate].
  destruct (or_else (extractJsonString line "level") _); [|discriminate].
  destruct (or_else (extractJsonString line "message") _); [|discriminate].
  destruct (jsonTimestamp tz _); [|discriminate].
  intros [= <- _]. cbn [source].
  destruct (or_else (or_else (extractJsonString line "service") _) _);
    reflexivity.
Qed.

(** The message of a text line is never empty: [extractMessage] turns an
    empty message into a failure. *)
Lemma extractMessage_nonempty line msg :
  extractMessage line = Some msg -> msg <> EmptyString.
Proof.
  unfold extractMessage.
  match goal with |- context [empty ?m] => destruct m eqn:E end;
    cbn [empty]; [discriminate|].
  intros [= <-]. discriminate.
Qed.

Lemma parseLineDetailed_cases p rawLine e :
  entry (parseLineDetailed tz p rawLine) = Some e ->
  (wasJson (parseLineDetailed tz p rawLine) = true
   /\ exists err, tryParseJsonLine tz (trimSv rawLine) = (Some e, err))
  \/ (wasJson (parseLineDetailed tz p rawLine) = false
      /\ tryPatterns tz (trimSv rawLine) (m_patterns p) = Some e).
Proof.
  unfold parseLineDetailed.
  destruct (empty (trimSv rawLine)); [discriminate|].
  destruct (match front (trimSv rawLine) with
            | Some c => Ascii.eqb c "{" | None => false end).
  - destruct (tryParseJsonLine tz (trimSv rawLine)) as [[e'|] err] eqn:Hj;
      cbn [entry wasJson]; [|discriminate].
    intros [= <-]. left. eauto.
  - destruct (tryPatterns tz (trimSv rawLine) (m_patterns p)) as [e'|] eqn:Ht;
      cbn [entry wasJson]; [|discriminate].
    intros [= <-]. right. auto.
Qed.

End ParserProperties.

(** C9.  Every entry the parser produces carries a source: the source
    optional is never absent, and it is the literal ["unknown"] when a text
    line yields no source token or a JSON line has none of the keys
    [service], [component], [source].  An empty-string source stays
    possible. *)
Theorem parsed_entry_source_present :
  forall tz p rawLine e,
    LogParser.entry (LogParser.parseLineDetailed tz p rawLine) = Some e ->
    (exists s, Core.source e = Some s)
    /\ (LogParser.wasJson (LogParser.parseLineDetailed tz p rawLine) = false ->
        LogParser.extractSource (LogParser.trimSv rawLine) = None ->
        Core.source e = Some "unknown"%string)
    /\ (LogParser.wasJson (LogParser.parseLineDetailed tz p rawLine) = true ->
        jsonSource (LogParser.trimSv rawLine) = None ->
        Core.source e = Some "unknown"%string).
Proof.
  intros tz p rawLine e He.
  destruct (parseLineDetailed_cases tz p rawLine e He)
    as [[Hw [err Hj]]|[Hw Ht]].
  - apply tryParseJsonLine_source in Hj. rewrite Hw, Hj.
    split; [eauto|]. split; [discriminate|].
    intros _ ->. reflexivity.
  - apply tryPatterns_fields in Ht. destruct Ht as [Hs _]. rewrite Hw, Hs.
    split; [eauto|]. split; [|discriminate].
    intros _ ->. reflexivity.
Qed.

Lemma parsed_entry_source_present_witness :
  LogParser.entry
    (LogParser.parseLineDetailed 0 LogParser.new Scenarios.burst_line)
  = Some burst_entry
  /\ ((exists s, Core.source burst_entry = Some s)
      /\ (LogParser.wasJson
            (LogParser.parseLineDetailed 0 LogParser.new Scenarios.burst_line)
          = false ->
          LogParser.extractSource (LogParser.trimSv Scenarios.burst_line) = None ->
          Core.source burst_entry = Some "unknown"%string)
      /\ (LogParser.wasJson
            (LogParser.parseLineDetailed 0 LogParser.new Scenarios.burst_line)
          = true ->
          jsonSource (LogParser.trimSv Scenarios.burst_line) = None ->
          Core.source burst_entry = Some "unknown"%string)).
Proof.
  split; [vm_compute; reflexivity|].
  apply (parsed_entry_source_present 0 LogParser.new Scenarios.burst_line).
  vm_compute; reflexivity.
Defined.

(** An empty-string source does reach the detectors: a JSON line may carry
    one. *)
Example json_empty_source :
  option_map Core.source
    (LogParser.parseLine 0 LogParser.new
       (Scenarios.jsonLine [ ("time", "2024-01-01T00:00:00"); ("level", "INFO");
                             ("service", ""); ("message", "ping") ])%string)
  = Some (Some EmptyString).
Proof. vm_compute. reflexivity. Qed.

(** C5 (text lines).  A text line that parses has a non-empty message. *)
Lemma text_entry_message_nonempty :
  forall tz line patterns e,
    LogParser.tryPatterns tz line patterns = Some e ->
    Core.message e <> EmptyString.
Proof.
  intros tz line patterns e H.
  apply tryPatterns_fields in H. destruct H as (_ & Hm & _).
  eapply extractMessage_nonempty; eauto.
Qed.

(** C5 (JSON lines).  The JSON path has no such check: the line
    [{"time":"2024-01-01T00:00:00","level":"ERROR","service":"db","message":""}]
    parses to an entry whose message is the empty string. *)
Theorem json_entry_with_empty_message :
  exists e,
    LogParser.entry
      (LogParser.parseLineDetailed 0 LogParser.new
                                   Scenarios.json_empty_message_line)
    = Some e
    /\ Core.message e = EmptyString
    /\ LogParser.malformed
         (LogParser.parseLineDetailed 0 LogParser.new
                                      Scenarios.json_empty_message_line)
       = false.
Proof. eexists. vm_compute. repeat split. Qed.

Lemma mktime_tz tz t : TimeUtils.mktime tz t = TimeUtils.mktime 0 t - tz.
Proof. unfold TimeUtils.mktime. lia. Qed.

(** C4.  [isReasonableTime] is never called: the line
    [1990-01-01 00:00:00 INFO svc1: started] parses, in any time zone, to
    an entry stamped before 2000-01-01. *)
Theorem pre2000_line_is_parsed :
  forall tz, -86400 <= tz <= 86400 ->
    exists e,
      LogParser.entry
        (LogParser.parseLineDetailed tz LogParser.new Scenarios.pre2000_line)
      = Some e
      /\ Core.timestamp e = 631152000 - tz
      /\ Core.timestamp e < 946684800
      /\ LogParser.isReasonableTime (Core.timestamp e) = false.
Proof.
  intros tz Htz.
  assert (Hts : LogParser.extractTimestamp tz Scenarios.pre2000_line
                = Some (631152000 - tz)).
  { unfold LogParser.extractTimestamp.
    change (StringUtils.ltrim Scenarios.pre2000_line) with Scenarios.pre2000_line.
    change (Nat.ltb (String.length Scenarios.pre2000_line) 19) with false.
    cbv iota.
    change (StringUtils.substr Scenarios.pre2000_line 0 19)
      with "1990-01-01 00:00:00"%string.
    unfold TimeUtils.parseTimestamp.
    change (Nat.ltb (String.length "1990-01-01 00:00:00") 19) with false.
    cbv iota.
    change (TimeUtils.parseIntField (StringUtils.substr "1990-01-01 00:00:00" 0 4))
      with (Some 1990).
    change (TimeUtils.parseIntField (StringUtils.substr "1990-01-01 00:00:00" 5 2))
      with (Some 1).
    change (TimeUtils.parseIntField (StringUtils.substr "1990-01-01 00:00:00" 8 2))
      with (Some 1).
    change (TimeUtils.parseIntField (StringUtils.substr "1990-01-01 00:00:00" 11 2))
      with (Some 0).
    change (TimeUtils.parseIntField (StringUtils.substr "1990-01-01 00:00:00" 14 2))
      with (Some 0).
    change (TimeUtils.parseIntField (StringUtils.substr "1990-01-01 00:00:00" 17 2))
      with (Some 0).
    cbv iota beta.
    rewrite (mktime_tz tz).
    change (TimeUtils.mktime 0 _) with 631152000.
    destruct (Z.eqb_spec (631152000 - tz) (-1)); [lia|reflexivity]. }
  eexists. split; [|split; [|split]].
  - unfold LogParser.parseLineDetailed.
    change (LogParser.trimSv Scenarios.pre2000_line) with Scenarios.pre2000_line.
    change (StringUtils.empty Scenarios.pre2000_line) with false.
    cbv iota.
    change (match StringUtils.front Scenarios.pre2000_line with
            | Some c => Ascii.eqb c "{" | None => false end) with false.
    cbv iota.
    change (LogParser.m_patterns LogParser.new)
      with ("%timestamp% %level% %source%: %message%"%string
            :: List.tl (LogParser.m_patterns LogParser.new)).
    cbn [LogParser.tryPatterns]. unfold LogParser.tryParsePattern.
    rewrite Hts.
    change (LogParser.extractLevel Scenarios.pre2000_line) with (Some Core.Info).
    change (LogParser.extractMessage Scenarios.pre2000_line)
      with (Some "started"%string).
    cbv iota beta. cbn [LogParser.entry]. reflexivity.
  - reflexivity.
  - cbn [Core.timestamp]. lia.
  - cbn [Core.timestamp]. unfold LogParser.isReasonableTime.
    apply Z.leb_gt. lia.
Qed.

Lemma pre2000_line_is_parsed_witness :
  -86400 <= 0 <= 86400
  /\ exists e,
      LogParser.entry
        (LogParser.parseLineDetailed 0 LogParser.new Scenarios.pre2000_line)
      = Some e
      /\ Core.timestamp e = 631152000 - 0
      /\ Core.timestamp e < 946684800
      /\ LogParser.isReasonableTime (Core.timestamp e) = false.
Proof.
  split; [lia|]. apply (pre2000_line_is_parsed 0). lia.
Defined.

(** ** [TimeWindowAnalyzer]: buckets are contiguous *)

Section TimeWindowProperties.
Import Core TimeWindowAnalyzer.

Lemma last_map_Some_app {A} (l : list A) (x : A) :
  List.last (List.map Some (l ++ [x])) None = Some x.
Proof.
  induction l as [|y l IH]; [reflexivity|].
  cbn [List.map List.app] in *.
  destruct (List.map Some (l ++ [x])) eqn:E.
  - destruct l; discriminate.
  - cbn [List.last]. cbn [List.last] in IH. exact IH.
Qed.

Lemma last_map_Some_tl {A} (l : list A) (x y : A) :
  List.last (List.map Some (List.tl (l ++ [x]))) None = Some y -> y = x.
Proof.
  destruct l as [|z l]; cbn [List.app List.tl].
  - discriminate.
  - rewrite last_map_Some_app. congruence.
Qed.

Lemma pushHistory_last a b y :
  List.last (List.map Some (pushHistory a b)) None = Some y -> y = b.
Proof.
  unfold pushHistory.
  destruct (Nat.ltb _ _).
  - apply last_map_Some_tl.
  - rewrite last_map_Some_app. congruence.
Qed.

Lemma advanceOnce_contiguous a :
  m_initialized a = true -> contiguous (advanceOnce a).
Proof.
  intros Hi. split.
  - intros e. unfold lastHistoryEnd, advanceOnce, with_windows.
    cbn [m_windowHistory m_currentWindow b_start].
    destruct (List.last _ None) as [y|] eqn:E; [|discriminate].
    apply pushHistory_last in E. subst y. cbn. congruence.
  - unfold advanceOnce, with_windows. cbn [m_initialized]. congruence.
Qed.

Lemma advanceLoop_contiguous fuel ts a a' :
  m_initialized a = true -> contiguous a ->
  advanceLoop fuel ts a = Some a' ->
  contiguous a' /\ m_initialized a' = true
  /\ m_silenceThreshold a' = m_silenceThreshold a.
Proof.
  revert a. induction fuel as [|k IH]; intros a Hi Hc; cbn [advanceLoop].
  - destruct (b_end (m_currentWindow a) <=? ts); [discriminate|].
    intros [= <-]. auto.
  - destruct (b_end (m_currentWindow a) <=? ts).
    + intros H. apply IH in H; [exact H| reflexivity + exact Hi |].
      now apply advanceOnce_contiguous.
    + intros [= <-]. auto.
Qed.

Lemma evictOldEvents_bounds b :
  b_start (evictOldEvents b) = b_start b /\ b_end (evictOldEvents b) = b_end b.
Proof.
  unfold evictOldEvents.
  destruct (evictOldEvents_from _ _ _). split; reflexivity.
Qed.

Lemma addEventUnlocked_contiguous a entry a' :
  contiguous a -> addEventUnlocked a entry = Some a' ->
  contiguous a' /\ m_silenceThreshold a' = m_silenceThreshold a.
Proof.
  intros Hc. unfold addEventUnlocked.
  set (a0 := if m_initialized a then a else _).
  assert (H0 : m_initialized a0 = true /\ contiguous a0
               /\ m_silenceThreshold a0 = m_silenceThreshold a).
  { subst a0. destruct (m_initialized a) eqn:Hi; [auto|].
    destruct Hc as [_ Hh]. specialize (Hh Hi).
    split; [reflexivity|]. split; [|reflexivity].
    split; [|intros; exact Hh].
    unfold lastHistoryEnd, with_windows. cbn [m_windowHistory].
    rewrite Hh. discriminate. }
  destruct H0 as (Hi0 & Hc0 & Hs0).
  destruct (advanceLoop _ _ a0) as [a1|] eqn:Hl; [|discriminate].
  destruct (advanceLoop_contiguous _ _ _ _ Hi0 Hc0 Hl) as (Hc1 & Hi1 & Hs1).
  destruct (_ <? b_start (m_currentWindow a1)).
  - intros [= <-]. split; [exact Hc1|congruence].
  - intros [= <-]. split; [|cbn; congruence].
    destruct Hc1 as [Hl1 Hh1]. split.
    + intros e. unfold lastHistoryEnd, with_windows.
      cbn [m_windowHistory m_currentWindow].
      intros He.
      rewrite (proj1 (evictOldEvents_bounds _)). cbn [b_start].
      apply Hl1. exact He.
    + unfold with_windows. cbn [m_initialized m_windowHistory]. exact Hh1.
Qed.

Lemma addEntries_contiguous entries : forall a a',
  contiguous a -> addEntries a entries = Some a' ->
  contiguous a' /\ m_silenceThreshold a' = m_silenceThreshold a.
Proof.
  induction entries as [|e rest IH]; intros a a' Hc; cbn [addEntries].
  - intros [= <-]. auto.
  - unfold addEntry.
    destruct (addEventUnlocked a e) as [a1|] eqn:H1; [|discriminate].
    destruct (addEventUnlocked_contiguous _ _ _ Hc H1) as [Hc1 Hs1].
    intros H. destruct (IH _ _ Hc1 H) as [Hc' Hs']. split; [auto|congruence].
Qed.

Lemma new_contiguous : contiguous new.
Proof. split; [discriminate|reflexivity]. Qed.

(** With contiguous buckets the gap is zero, so [checkSilence] takes the
    branch that builds no anomaly. *)
Lemma checkSilence_contiguous a uninit :
  contiguous a -> 0 <= m_silenceThreshold a ->
  checkSilence a uninit (m_currentWindow a) = defaultAnomaly uninit.
Proof.
  intros [Hl _] Hs. unfold checkSilence.
  unfold lastHistoryEnd in Hl.
  destruct (List.last _ None) as [prev|]; [|reflexivity].
  rewrite <- (Hl (b_end prev) eq_refl).
  unfold TimeUtils.diffSeconds.
  destruct (Z.ltb_spec (m_silenceThreshold a) (b_end prev - b_end prev));
    [lia|reflexivity].
Qed.

(** The loop of [addEventUnlocked] ends when the window size is
    positive. *)
Lemma advanceLoop_terminates fuel : forall ts a,
  0 < m_windowSize a ->
  ts < b_end (m_currentWindow a) + Z.of_nat fuel * m_windowSize a ->
  exists a', advanceLoop fuel ts a = Some a'
             /\ m_windowSize a' = m_windowSize a.
Proof.
  induction fuel as [|k IH]; intros ts a Hw Hf; cbn [advanceLoop].
  - destruct (Z.leb_spec (b_end (m_currentWindow a)) ts); [lia|eauto].
  - destruct (Z.leb_spec (b_end (m_currentWindow a)) ts); [|eauto].
    destruct (IH ts (advanceOnce a)) as (a' & Ha & Hw').
    + exact Hw.
    + unfold advanceOnce, with_windows. cbn. lia.
    + exists a'. split; [exact Ha|]. rewrite Hw'. reflexivity.
Qed.

Lemma addEventUnlocked_terminates a entry :
  0 < m_windowSize a ->
  exists a', addEventUnlocked a entry = Some a'
             /\ m_windowSize a' = m_windowSize a.
Proof.
  intros Hw. unfold addEventUnlocked.
  set (a0 := if m_initialized a then a else _).
  assert (Hw0 : m_windowSize a0 = m_windowSize a)
    by (subst a0; destruct (m_initialized a); reflexivity).
  destruct (advanceLoop_terminates (advanceFuel (timestamp entry) a0)
                                   (timestamp entry) a0)
    as (a1 & H1 & Hw1).
  - lia.
  - unfold advanceFuel. rewrite Hw0.
    destruct (Z.ltb_spec 0 (m_windowSize a)); [|lia].
    set (d := timestamp entry - b_end (m_currentWindow a0)).
    destruct (Z.le_gt_cases 0 d) as [Hd|Hd].
    + rewrite Z2Nat.id by (pose proof (Z.div_pos d (m_windowSize a)); lia).
      pose proof (Z.mul_succ_div_gt d (m_windowSize a) H). lia.
    + assert (0 <= Z.of_nat (Z.to_nat (d / m_windowSize a + 1))) by lia.
      nia.
  - rewrite H1.
    destruct (_ <? _); eexists; (split; [reflexivity|]); cbn; congruence.
Qed.

End TimeWindowProperties.

Section TimeWindowReview.
Import Core TimeWindowAnalyzer.

Lemma quietBucket_checks tz a u b :
  quietBucket a b = true ->
  checkErrorSpike tz a u b = defaultAnomaly u
  /\ checkBurst a u b = defaultAnomaly u.
Proof.
  unfold quietBucket, checkErrorSpike, checkBurst.
  intros [H1 H2]%andb_true_iff.
  apply negb_true_iff in H1, H2. rewrite H1, H2. auto.
Qed.

Lemma Forall_pushIfScored (P : Anomaly -> Prop) x :
  P x -> Forall P (pushIfScored x).
Proof.
  intros H. unfold pushIfScored.
  destruct (Double.gtb _ _); repeat constructor; exact H.
Qed.

Lemma checkHistory_quiet tz a uninit history : forall k,
  forallb (quietBucket a) history = true ->
  Forall (fun x => description x = EmptyString)
         (checkHistory tz a uninit k history).
Proof.
  induction history as [|w rest IH]; intros k; cbn [checkHistory forallb].
  - constructor.
  - intros [Hw Hr]%andb_true_iff.
    destruct (quietBucket_checks tz a (uninit k) w Hw) as [-> _].
    destruct (quietBucket_checks tz a (uninit (S k)) w Hw) as [_ ->].
    repeat (apply Forall_app; split);
      try (apply Forall_pushIfScored; reflexivity).
    apply IH, Hr.
Qed.

(** A review with nothing to report: every object it may still push, on
    the strength of an uninitialised score, is a default one. *)
Lemma detectAnomalies_quiet tz a uninit :
  quietBucket a (m_currentWindow a) = true ->
  forallb (quietBucket a) (m_windowHistory a) = true ->
  contiguous a -> 0 <= m_silenceThreshold a ->
  Forall (fun x => description x = EmptyString)
         (detectAnomalies tz a uninit).
Proof.
  intros Hq Hh Hc Hs. unfold detectAnomalies.
  destruct (quietBucket_checks tz a (uninit 0%nat) _ Hq) as [-> _].
  destruct (quietBucket_checks tz a (uninit 1%nat) _ Hq) as [_ ->].
  repeat (apply Forall_app; split);
    try (apply Forall_pushIfScored; reflexivity).
  - apply checkHistory_quiet, Hh.
  - destruct (m_windowHistory a); [constructor|].
    rewrite (checkSilence_contiguous a _ Hc Hs).
    apply Forall_pushIfScored. reflexivity.
Qed.

End TimeWindowReview.

(** C1, in general.  However the entries are spaced, an analyzer fed
    through [addEntry] keeps its buckets contiguous: the gap that
    [checkSilence] measures is zero and the check builds no anomaly. *)
Lemma fresh_analyzer_never_detects_silence :
  forall entries a,
    TimeWindowAnalyzer.addEntries TimeWindowAnalyzer.new entries = Some a ->
    (forall e, lastHistoryEnd a = Some e ->
               TimeUtils.diffSeconds
                 e (TimeWindowAnalyzer.b_start
                      (TimeWindowAnalyzer.m_currentWindow a)) = 0)
    /\ forall uninit,
        TimeWindowAnalyzer.checkSilence
          a uninit (TimeWindowAnalyzer.m_currentWindow a)
        = TimeWindowAnalyzer.defaultAnomaly uninit.
Proof.
  intros entries a H.
  destruct (addEntries_contiguous _ _ _ new_contiguous H) as [Hc Hs].
  split.
  - intros e He. destruct Hc as [Hl _]. rewrite (Hl e He).
    unfold TimeUtils.diffSeconds. lia.
  - intros uninit. apply checkSilence_contiguous; [exact Hc|].
    rewrite Hs. cbn. lia.
Qed.

(** C1, the scenario.  Five lines at 2024-01-01 00:00:00..04 and five at
    00:10:00..04, with the default silence threshold of 300 s: the review
    reports no Silence anomaly, whatever the uninitialised scores hold, and
    reports nothing at all when they read as zero. *)
Theorem silence_scenario_emits_no_silence :
  exists a,
    TimeWindowAnalyzer.addEntries
      TimeWindowAnalyzer.new (Scenarios.parsed Scenarios.silence_lines)
    = Some a
    /\ List.map Core.timestamp (Scenarios.parsed Scenarios.silence_lines)
       = [ 1704067200; 1704067201; 1704067202; 1704067203; 1704067204;
           1704067800; 1704067801; 1704067802; 1704067803; 1704067804 ]
    /\ TimeWindowAnalyzer.m_silenceThreshold a = 300
    /\ (forall tz uninit,
           Forall (fun x => Core.a_type (Pipeline.timeWindowToAnomaly x)
                            <> Core.Silence)
                  (TimeWindowAnalyzer.detectAnomalies tz a uninit))
    /\ (forall tz,
           TimeWindowAnalyzer.detectAnomalies tz a (fun _ => 0%Q) = []).
Proof.
  destruct (TimeWindowAnalyzer.addEntries
              TimeWindowAnalyzer.new (Scenarios.parsed Scenarios.silence_lines))
    as [a|] eqn:E; [|vm_compute in E; discriminate].
  exists a. split; [reflexivity|]. split; [vm_compute; reflexivity|].
  destruct (addEntries_contiguous _ _ _ new_contiguous E) as [Hc Hs].
  vm_compute in E. injection E as E. split; [subst a; reflexivity|].
  assert (Hq : quietBucket a (TimeWindowAnalyzer.m_currentWindow a) = true)
    by (subst a; vm_compute; reflexivity).
  assert (Hh : forallb (quietBucket a) (TimeWindowAnalyzer.m_windowHistory a)
               = true)
    by (subst a; vm_compute; reflexivity).
  assert (H0 : 0 <= TimeWindowAnalyzer.m_silenceThreshold a)
    by (rewrite Hs; cbn; lia).
  split.
  - intros tz uninit.
    eapply Forall_impl; [apply (detectAnomalies_quiet tz a uninit Hq Hh Hc H0)|].
    intros x Hx. unfold Pipeline.timeWindowToAnomaly. cbn [Core.a_type].
    rewrite Hx. cbn. discriminate.
  - intros tz. subst a. vm_compute. reflexivity.
Qed.

(** ** [BurstPatternDetector]: the first emission does not truncate *)

(** When the deque holds exactly [m_minRepeats] events the detector emits,
    but the guard [events.size() > m_minRepeats] of the truncation is
    false: the deque is stored whole. *)
Lemma burst_at_threshold_keeps_deque :
  forall d entry,
    let key := BurstPatternDetector.signature entry in
    let events :=
      BurstPatternDetector.evictOld
        (BurstPatternDetector.m_window d)
        (default [] (BurstPatternDetector.m_states d !! key)
         ++ [(Core.timestamp entry, entry)])
        (Core.timestamp entry) in
    List.length events = BurstPatternDetector.m_minRepeats d ->
    exists b,
      BurstPatternDetector.processEntry d entry
      = (BurstPatternDetector.mkDetector
           (<[key := events]> (BurstPatternDetector.m_states d))
           (BurstPatternDetector.m_window d)
           (BurstPatternDetector.m_minRepeats d)
           (BurstPatternDetector.m_maxSamples d),
         [b])
      /\ BurstPatternDetector.score b
         = Double.of_nat (BurstPatternDetector.m_minRepeats d).
Proof.
  intros d entry key events Hlen.
  unfold BurstPatternDetector.processEntry.
  fold key. fold events. rewrite Hlen.
  rewrite Nat.leb_refl, Nat.ltb_irrefl.
  eexists. split; reflexivity.
Qed.

Lemma burst_at_threshold_keeps_deque_witness :
  let d :=
    fst (BurstPatternDetector.processEntries
           BurstPatternDetector.new (List.repeat burst_entry 19)) in
  let key := BurstPatternDetector.signature burst_entry in
  let events :=
    BurstPatternDetector.evictOld
      (BurstPatternDetector.m_window d)
      (default [] (BurstPatternDetector.m_states d !! key)
       ++ [(Core.timestamp burst_entry, burst_entry)])
      (Core.timestamp burst_entry) in
  List.length events = BurstPatternDetector.m_minRepeats d
  /\ exists b,
      BurstPatternDetector.processEntry d burst_entry
      = (BurstPatternDetector.mkDetector
           (<[key := events]> (BurstPatternDetector.m_states d))
           (BurstPatternDetector.m_window d)
           (BurstPatternDetector.m_minRepeats d)
           (BurstPatternDetector.m_maxSamples d),
         [b])
      /\ BurstPatternDetector.score b
         = Double.of_nat (BurstPatternDetector.m_minRepeats d).
Proof.
  intros d key events.
  assert (H : List.length events = BurstPatternDetector.m_minRepeats d)
    by (vm_compute; reflexivity).
  split; [exact H|].
  exact (burst_at_threshold_keeps_deque d burst_entry H).
Defined.

(** C2, the scenario.  Of 25 consecutive identical lines the 20th and the
    21st both emit, with scores 20 and 21; the deque is cut to ten entries
    only after the second emission, and entries 22 to 25 are silent. *)
Theorem burst_scenario_emits_twice :
  Scenarios.parsed Scenarios.burst_lines = List.repeat burst_entry 25
  /\ List.map (List.map BurstPatternDetector.score)
              (snd (BurstPatternDetector.processEntries
                      BurstPatternDetector.new
                      (Scenarios.parsed Scenarios.burst_lines)))
     = List.repeat [] 19 ++ [[20 # 1]; [21 # 1]] ++ List.repeat [] 4
  /\ List.map
       (fun d => option_map (@List.length _)
                   (BurstPatternDetector.m_states d
                    !! BurstPatternDetector.signature burst_entry))
       [ fst (BurstPatternDetector.processEntries
                BurstPatternDetector.new (List.repeat burst_entry 20));
         fst (BurstPatternDetector.processEntries
                BurstPatternDetector.new (List.repeat burst_entry 21)) ]
     = [Some 20%nat; Some 10%nat].
Proof. vm_compute. repeat split. Qed.

(** ** [IpFrequencyDetector]: every address is rare at first *)

Section RareIp.
Import Core IpFrequencyDetector.

Lemma processEntry_max d e :
  m_maxCountForRare (fst (processEntry d e)) = m_maxCountForRare d.
Proof.
  unfold processEntry. destruct (extractIp (message e)); [|reflexivity].
  destruct (N.leb _ _); reflexivity.
Qed.

(** One entry: the counter of its address goes up by one, the other
    counters stay, and a hit is emitted exactly when the new count is at
    most the cutoff. *)
Lemma processEntry_spec d e :
  match extractIp (message e) with
  | None => processEntry d e = (d, [])
  | Some addr =>
      let newCount := incr_size_t (countOf d addr) in
      countOf (fst (processEntry d e)) addr = newCount
      /\ (forall other, other <> addr ->
            countOf (fst (processEntry d e)) other = countOf d other)
      /\ snd (processEntry d e)
         = if N.leb newCount (m_maxCountForRare d)
           then [mkIpHit addr newCount e] else []
  end.
Proof.
  unfold processEntry, countOf.
  destruct (extractIp (message e)) as [addr|]; [|reflexivity].
  cbv zeta.
  destruct (N.leb _ _); cbn [fst snd m_counts];
    (split; [rewrite lookup_insert_eq; reflexivity|]);
    (split; [intros other Hne; rewrite lookup_insert_ne; congruence|]);
    reflexivity.
Qed.

Lemma hitsFor_app addr l1 l2 :
  hitsFor addr (l1 ++ l2) = (hitsFor addr l1 + hitsFor addr l2)%nat.
Proof.
  unfold hitsFor. rewrite List.filter_app, List.length_app. reflexivity.
Qed.

Lemma processEntries_cons d e rest :
  processEntries d (e :: rest)
  = (fst (processEntries (fst (processEntry d e)) rest),
     snd (processEntry d e)
     ++ snd (processEntries (fst (processEntry d e)) rest)).
Proof.
  cbn [processEntries].
  destruct (processEntry d e) as [d1 out]. cbn [fst snd].
  destruct (processEntries d1 rest) as [d2 outs]. reflexivity.
Qed.

Lemma occurrences_cons addr e rest :
  occurrences addr (e :: rest)
  = ((if hasIp addr e then 1 else 0) + occurrences addr rest)%nat.
Proof.
  unfold occurrences. cbn [List.filter].
  destruct (hasIp addr e); reflexivity.
Qed.

Lemma hitsFor_single addr i c e :
  hitsFor addr [mkIpHit i c e] = if String.eqb i addr then 1%nat else 0%nat.
Proof.
  unfold hitsFor. cbn [List.filter ip].
  destruct (String.eqb i addr); reflexivity.
Qed.

(** Hits for one address over a stream, from any state: the occurrences
    that keep the count within the cutoff. *)
Lemma hitsFor_processEntries addr stream : forall d,
  (countOf d addr + N.of_nat (occurrences addr stream) < 2 ^ 64)%N ->
  N.of_nat (hitsFor addr (snd (processEntries d stream)))
  = N.min (N.of_nat (occurrences addr stream))
          (m_maxCountForRare d - countOf d addr)%N.
Proof.
  induction stream as [|e rest IH]; intros d Hb.
  - cbn. lia.
  - rewrite processEntries_cons. cbn [snd]. rewrite hitsFor_app.
    pose proof (processEntry_spec d e) as Hs.
    pose proof (processEntry_max d e) as Hm.
    rewrite occurrences_cons in Hb |- *.
    assert (Hh : hasIp addr e
                 = match extractIp (message e) with
                   | Some i => String.eqb i addr
                   | None => false
                   end) by reflexivity.
    rewrite Hh in Hb |- *. clear Hh.
    destruct (extractIp (message e)) as [i|] eqn:Hi.
    + cbv zeta in Hs. destruct Hs as (Hc & Ho & Hout).
      destruct (String.eqb_spec i addr) as [->|Hne].
      * assert (Hincr : incr_size_t (countOf d addr) = (countOf d addr + 1)%N).
        { unfold incr_size_t. apply N.mod_small. lia. }
        rewrite Hincr in Hc, Hout.
        rewrite Nat2N.inj_add, IH by (rewrite Hc; lia).
        rewrite Hm, Hc, Hout.
        destruct (N.leb_spec (countOf d addr + 1) (m_maxCountForRare d));
          [rewrite hitsFor_single, String.eqb_refl|change (hitsFor addr []) with 0%nat];
          lia.
      * rewrite Nat2N.inj_add, IH by (rewrite Ho by congruence; lia).
        rewrite Hm, Ho by congruence. rewrite Hout.
        assert (Hz : hitsFor addr
                       (if N.leb (incr_size_t (countOf d i)) (m_maxCountForRare d)
                        then [mkIpHit i (incr_size_t (countOf d i)) e] else [])
                     = 0%nat).
        { destruct (N.leb _ _); [|reflexivity].
          rewrite hitsFor_single.
          destruct (String.eqb_spec i addr); [contradiction|reflexivity]. }
        rewrite Hz. lia.
    + rewrite Hs. cbn [fst snd].
      change (hitsFor addr []) with 0%nat. cbn [Nat.add].
      rewrite IH by lia. lia.
Qed.

Lemma occurrences_le addr stream :
  (occurrences addr stream <= List.length stream)%nat.
Proof. apply List.filter_length_le. Qed.

(** Every hit names the address of an entry of the stream. *)
Lemma hits_from_stream stream : forall d,
  Forall (fun h => exists e, In e stream /\ hasIp (ip h) e = true)
         (snd (processEntries d stream)).
Proof.
  induction stream as [|e rest IH]; intros d.
  - constructor.
  - rewrite processEntries_cons. cbn [snd]. apply Forall_app. split.
    + pose proof (processEntry_spec d e) as Hs.
      destruct (extractIp (message e)) as [i|] eqn:Hi.
      * destruct Hs as (_ & _ & ->).
        destruct (N.leb _ _); constructor; [|constructor].
        exists e. split; [left; reflexivity|].
        unfold hasIp. cbn [ip]. rewrite Hi. apply String.eqb_refl.
      * rewrite Hs. constructor.
    + eapply Forall_impl; [apply IH|].
      intros h (e' & He' & Hh). exists e'. split; [right; exact He'|exact Hh].
Qed.

Lemma hasIp_exclusive a1 a2 x :
  a1 <> a2 -> hasIp a1 x = true -> hasIp a2 x = true -> False.
Proof.
  unfold hasIp. destruct (extractIp (message x)); [|discriminate].
  intros Hne H1%String.eqb_eq H2%String.eqb_eq. congruence.
Qed.

Lemma two_addresses_le a1 a2 stream :
  a1 <> a2 ->
  (occurrences a1 stream + occurrences a2 stream <= List.length stream)%nat.
Proof.
  intros Hne. induction stream as [|x rest IH]; [cbn; lia|].
  rewrite !occurrences_cons. cbn [List.length].
  pose proof (hasIp_exclusive a1 a2 x Hne).
  destruct (hasIp a1 x), (hasIp a2 x); cbv iota; lia.
Qed.

(** Two addresses that account for the whole stream. *)
Lemma two_addresses_cover a1 a2 stream :
  a1 <> a2 ->
  (occurrences a1 stream + occurrences a2 stream = List.length stream)%nat ->
  forall e, In e stream -> hasIp a1 e = true \/ hasIp a2 e = true.
Proof.
  intros Hne.
  induction stream as [|x rest IH]; intros Hsum e; [intros []|].
  rewrite !occurrences_cons in Hsum. cbn [List.length] in Hsum.
  pose proof (two_addresses_le a1 a2 rest Hne).
  destruct (hasIp a1 x) eqn:H1, (hasIp a2 x) eqn:H2;
    cbv iota in Hsum; try lia.
  - exfalso. exact (hasIp_exclusive a1 a2 x Hne H1 H2).
  - intros [<-|Hin]; [auto|]. apply IH; [lia|exact Hin].
  - intros [<-|Hin]; [auto|]. apply IH; [lia|exact Hin].
Qed.

Lemma hits_split a1 a2 (hits : list IpHit) :
  a1 <> a2 ->
  Forall (fun h => ip h = a1 \/ ip h = a2) hits ->
  List.length hits = (hitsFor a1 hits + hitsFor a2 hits)%nat.
Proof.
  intros Hne. unfold hitsFor.
  induction 1 as [|h l Hh _ IH]; [reflexivity|].
  cbn [List.filter List.length].
  destruct Hh as [Hh|Hh]; rewrite Hh, String.eqb_refl.
  - destruct (String.eqb_spec a1 a2); [contradiction|].
    cbn [List.length]. lia.
  - destruct (String.eqb_spec a2 a1); [congruence|].
    cbn [List.length]. lia.
Qed.

End RareIp.

(** C3, the rule for one entry.  A hit is emitted exactly when the message
    holds an address whose count, once incremented, is at most the
    cutoff. *)
Lemma rare_ip_emitted_iff :
  forall d entry,
    snd (IpFrequencyDetector.processEntry d entry) <> []
    <-> exists addr,
        IpFrequencyDetector.extractIp (Core.message entry) = Some addr
        /\ (IpFrequencyDetector.incr_size_t (countOf d addr)
            <= IpFrequencyDetector.m_maxCountForRare d)%N.
Proof.
  intros d entry. pose proof (processEntry_spec d entry) as Hs.
  destruct (IpFrequencyDetector.extractIp (Core.message entry)) as [addr|].
  - destruct Hs as (_ & _ & ->).
    destruct (N.leb_spec
                (IpFrequencyDetector.incr_size_t (countOf d addr))
                (IpFrequencyDetector.m_maxCountForRare d)).
    + split; [eauto|discriminate].
    + split; [congruence|]. intros (a & [= <-] & Hle). lia.
  - rewrite Hs. cbn [snd]. split; [congruence|]. intros (a & Ha & _).
    discriminate.
Qed.

(** C3, the rule for one address.  Over a stream given to a fresh
    detector, an address is reported for its first five occurrences and
    for no later one. *)
Lemma rare_ip_hits_per_address :
  forall stream addr,
    (N.of_nat (List.length stream) < 2 ^ 64)%N ->
    hitsFor addr (snd (IpFrequencyDetector.processEntries
                         IpFrequencyDetector.new stream))
    = Nat.min (occurrences addr stream) 5.
Proof.
  intros stream addr Hlen.
  pose proof (occurrences_le addr stream) as Hle.
  pose proof (hitsFor_processEntries addr stream IpFrequencyDetector.new) as H.
  unfold countOf in H. cbn [IpFrequencyDetector.m_counts IpFrequencyDetector.new] in H.
  rewrite lookup_empty in H. cbn [default] in H.
  change (IpFrequencyDetector.m_maxCountForRare IpFrequencyDetector.new)
    with 5%N in H.
  specialize (H ltac:(lia)). lia.
Qed.

Lemma rare_ip_hits_per_address_witness :
  (N.of_nat (List.length Scenarios.rare_ip_stream) < 2 ^ 64)%N
  /\ hitsFor "10.0.0.1"
             (snd (IpFrequencyDetector.processEntries
                     IpFrequencyDetector.new Scenarios.rare_ip_stream))
     = Nat.min (occurrences "10.0.0.1" Scenarios.rare_ip_stream) 5.
Proof.
  assert (H : (N.of_nat (List.length Scenarios.rare_ip_stream) < 2 ^ 64)%N)
    by (vm_compute; reflexivity).
  split; [exact H|].
  exact (rare_ip_hits_per_address Scenarios.rare_ip_stream "10.0.0.1" H).
Defined.

(** On any stream of 1000 entries, five of them from 10.0.0.7 and all
    others from 10.0.0.1, the detector emits ten anomalies. *)
Lemma rare_ip_scenario_ten :
  forall stream,
    rare_ip_scenario stream ->
    let hits :=
      snd (IpFrequencyDetector.processEntries IpFrequencyDetector.new stream) in
    List.length hits = 10%nat
    /\ hitsFor "10.0.0.7" hits = 5%nat
    /\ hitsFor "10.0.0.1" hits = 5%nat.
Proof.
  intros stream (Hlen & H7 & H1) hits.
  assert (Hb : (N.of_nat (List.length stream) < 2 ^ 64)%N)
    by (rewrite Hlen; vm_compute; reflexivity).
  assert (Hh7 : hitsFor "10.0.0.7" hits = 5%nat)
    by (subst hits; rewrite rare_ip_hits_per_address, H7 by exact Hb; reflexivity).
  assert (Hh1 : hitsFor "10.0.0.1" hits = 5%nat)
    by (subst hits; rewrite rare_ip_hits_per_address, H1 by exact Hb; reflexivity).
  split; [|split; assumption].
  assert (Hne : "10.0.0.7"%string <> "10.0.0.1"%string) by discriminate.
  rewrite (hits_split "10.0.0.7" "10.0.0.1" hits Hne); [lia|].
  eapply Forall_impl; [apply hits_from_stream|].
  intros h (e & Hin & Hh). cbv beta.
  assert (Hcover : hasIp "10.0.0.7" e = true \/ hasIp "10.0.0.1" e = true)
    by (apply (two_addresses_cover _ _ stream Hne); [lia|exact Hin]).
  unfold hasIp in Hh, Hcover.
  destruct (IpFrequencyDetector.extractIp (Core.message e)) as [i|];
    [|discriminate].
  apply String.eqb_eq in Hh. subst i.
  destruct Hcover as [H|H]; apply String.eqb_eq in H; auto.
Qed.

(** C3, as amended.  For every entry the detector extracts the first IPv4
    address of the message, increments the counter of that address and
    emits a RarePattern hit exactly when the incremented count is at most
    [max_count_for_rare]; consequently, on a stream of 1000 entries, five
    from 10.0.0.7 and all others from 10.0.0.1, it emits ten hits: one for
    each occurrence of 10.0.0.7 and one for each of the first five
    occurrences of 10.0.0.1. *)
Theorem rare_ip_emissions :
  forall stream,
    rare_ip_scenario stream ->
    (forall d entry,
        match IpFrequencyDetector.extractIp (Core.message entry) with
        | None => IpFrequencyDetector.processEntry d entry = (d, [])
        | Some addr =>
            let newCount := IpFrequencyDetector.incr_size_t (countOf d addr) in
            countOf (fst (IpFrequencyDetector.processEntry d entry)) addr
            = newCount
            /\ snd (IpFrequencyDetector.processEntry d entry)
               = if (newCount <=? IpFrequencyDetector.m_maxCountForRare d)%N
                 then [IpFrequencyDetector.mkIpHit addr newCount entry]
                 else []
        end)
    /\ (let hits :=
          snd (IpFrequencyDetector.processEntries
                 IpFrequencyDetector.new stream) in
        List.length hits = 10%nat
        /\ hitsFor "10.0.0.7" hits = 5%nat
        /\ hitsFor "10.0.0.1" hits = 5%nat).
Proof.
  intros stream H. split.
  - intros d entry.
    pose proof (processEntry_spec d entry) as Hspec.
    destruct (IpFrequencyDetector.extractIp (Core.message entry));
      [|exact Hspec].
    cbv zeta in Hspec |- *. tauto.
  - exact (rare_ip_scenario_ten stream H).
Qed.

Lemma rare_ip_emissions_witness :
  rare_ip_scenario Scenarios.rare_ip_stream
  /\ ((forall d entry,
          match IpFrequencyDetector.extractIp (Core.message entry) with
          | None => IpFrequencyDetector.processEntry d entry = (d, [])
          | Some addr =>
              let newCount :=
                IpFrequencyDetector.incr_size_t (countOf d addr) in
              countOf (fst (IpFrequencyDetector.processEntry d entry)) addr
              = newCount
              /\ snd (IpFrequencyDetector.processEntry d entry)
                 = if (newCount <=? IpFrequencyDetector.m_maxCountForRare d)%N
                   then [IpFrequencyDetector.mkIpHit addr newCount entry]
                   else []
          end)
      /\ (let hits :=
            snd (IpFrequencyDetector.processEntries
                   IpFrequencyDetector.new Scenarios.rare_ip_stream) in
          List.length hits = 10%nat
          /\ hitsFor "10.0.0.7" hits = 5%nat
          /\ hitsFor "10.0.0.1" hits = 5%nat)).
Proof.
  assert (H : rare_ip_scenario Scenarios.rare_ip_stream)
    by (vm_compute; repeat split).
  split; [exact H|].
  exact (rare_ip_emissions Scenarios.rare_ip_stream H).
Defined.

(** C3, the scenario as stated fails: the stream of five blocks of 199
    entries from 10.0.0.1 followed by one from 10.0.0.7 is an instance of
    the scenario, and the detector emits ten anomalies for it, five of
    them for 10.0.0.1. *)
Lemma rare_ip_expectation_fails :
  rare_ip_scenario Scenarios.rare_ip_stream
  /\ ~ rare_ip_expectation Scenarios.rare_ip_stream.
Proof.
  split; [vm_compute; repeat split|].
  intros (H & _). vm_compute in H. discriminate.
Qed.

(** ** [SpikeDetector] *)

(** ** [double] arithmetic: one rounding *)

Section Rounding.
Import Double.
Local Open Scope Q_scope.

Lemma two_pow_pos z : 0 < 2 ^ z.
Proof. apply Qpower_0_lt. reflexivity. Qed.

Lemma two_neq0 : ~ (2 == 0).
Proof. discriminate. Qed.

Lemma two_pow_succ z : 2 ^ (z + 1) == 2 ^ z * 2.
Proof. rewrite Qpower_plus by exact two_neq0. reflexivity. Qed.

Lemma two_pow_Z (a : Z) : (0 <= a)%Z -> inject_Z (2 ^ a) == 2 ^ a.
Proof. intros H. apply (Zpower_Qpower 2 a H). Qed.

Lemma two_pow_le a b : (a <= b)%Z -> 2 ^ a <= 2 ^ b.
Proof. intros H. apply Qpower_le_compat_l; [exact H|discriminate]. Qed.

Lemma two_pow_lt a b : (a < b)%Z -> 2 ^ a < 2 ^ b.
Proof. intros H. apply Qpower_lt_compat_l; [exact H|reflexivity]. Qed.

Lemma Qpos_num (q : Q) : 0 < q -> exists p, Qnum q = Zpos p.
Proof.
destruct q as [[|p|p] d]; unfold Qlt; cbn; intros H; try lia. eauto.
Qed.

Lemma ilog2_spec q : 0 < q -> 2 ^ ilog2 q <= q /\ q < 2 ^ (ilog2 q + 1).
Proof.
intros Hq. destruct (Qpos_num q Hq) as [n Hn].
destruct q as [qn d]. cbn in Hn. subst qn.
unfold ilog2. cbn [Qnum Qden].
set (a := Z.log2 (Zpos n)). set (b := Z.log2 (Zpos d)). set (l := (a - b)%Z).
assert (Ha : (0 <= a)%Z) by apply Z.log2_nonneg.
assert (Hb : (0 <= b)%Z) by apply Z.log2_nonneg.
destruct (Z.log2_spec (Zpos n) ltac:(lia)) as [Ha1 Ha2]. fold a in Ha1, Ha2.
destruct (Z.log2_spec (Zpos d) ltac:(lia)) as [Hb1 Hb2]. fold b in Hb1, Hb2.
assert (Hq' : Zpos n # d == inject_Z (Zpos n) / inject_Z (Zpos d)) by apply Qmake_Qdiv.
assert (Hd0 : 0 < inject_Z (Zpos d)) by reflexivity.
assert (Hup : Zpos n # d < 2 ^ (l + 1)).
{ rewrite Hq'. apply Qlt_shift_div_r; [exact Hd0|].
  apply Qlt_le_trans with (2 ^ (l + 1) * 2 ^ b).
  - rewrite <- Qpower_plus by exact two_neq0.
    replace (l + 1 + b)%Z with (Z.succ a) by (unfold l; lia).
    rewrite <- two_pow_Z by lia. rewrite <- Zlt_Qlt. exact Ha2.
  - apply Qmult_le_l; [apply two_pow_pos|].
    rewrite <- two_pow_Z by lia. rewrite <- Zle_Qle. exact Hb1. }
assert (Hlo : 2 ^ (l - 1) <= Zpos n # d).
{ rewrite Hq'. apply Qle_shift_div_l; [exact Hd0|].
  apply Qle_trans with (2 ^ (l - 1) * 2 ^ (b + 1)).
  - apply Qmult_le_l; [apply two_pow_pos|].
    rewrite <- two_pow_Z by lia. rewrite <- Zle_Qle.
    replace (b + 1)%Z with (Z.succ b) by lia. lia.
  - rewrite <- Qpower_plus by exact two_neq0.
    replace (l - 1 + (b + 1))%Z with a by (unfold l; lia).
    rewrite <- two_pow_Z by lia. rewrite <- Zle_Qle. exact Ha1. }
destruct (Qle_bool (2 ^ l) (Zpos n # d)) eqn:E.
- apply Qle_bool_iff in E. split; assumption.
- replace (l - 1 + 1)%Z with l by lia. split; [exact Hlo|].
  apply Qnot_le_lt. intros H. apply Qle_bool_iff in H. congruence.
Qed.

(** The integer nearest to a rational. *)
Lemma round_half_even_spec (x : Q) :
x - (1 # 2) <= inject_Z (round_half_even x)
/\ inject_Z (round_half_even x) <= x + (1 # 2).
Proof.
destruct x as [n d]. unfold round_half_even. cbn [Qnum Qden].
pose proof (Z.div_mod n (Zpos d) ltac:(lia)) as Hdm.
pose proof (Z.mod_pos_bound n (Zpos d) ltac:(lia)) as Hm.
set (fl := (n / Zpos d)%Z) in *. set (rm := (n mod Zpos d)%Z) in *.
replace (n - fl * Zpos d)%Z with rm by lia.
unfold Qle, Qminus, Qplus, Qopp, inject_Z. cbn [Qnum Qden].
destruct (Z.ltb_spec (2 * rm) (Zpos d));
  [|destruct (Z.ltb_spec (Zpos d) (2 * rm)); [|destruct (Z.even fl)]];
  rewrite ?Pos2Z.inj_mul; split; nia.
Qed.

Lemma round_half_even_mono (x y : Q) :
x <= y -> (round_half_even x <= round_half_even y)%Z.
Proof.
destruct x as [n1 d1], y as [n2 d2]. unfold Qle, round_half_even.
cbn [Qnum Qden]. intros Hxy.
pose proof (Z.div_mod n1 (Zpos d1) ltac:(lia)) as H1.
pose proof (Z.mod_pos_bound n1 (Zpos d1) ltac:(lia)) as M1.
pose proof (Z.div_mod n2 (Zpos d2) ltac:(lia)) as H2.
pose proof (Z.mod_pos_bound n2 (Zpos d2) ltac:(lia)) as M2.
set (f1 := (n1 / Zpos d1)%Z) in *. set (r1 := (n1 mod Zpos d1)%Z) in *.
set (f2 := (n2 / Zpos d2)%Z) in *. set (r2 := (n2 mod Zpos d2)%Z) in *.
replace (n1 - f1 * Zpos d1)%Z with r1 by lia.
replace (n2 - f2 * Zpos d2)%Z with r2 by lia.
set (D1 := Zpos d1) in *. set (D2 := Zpos d2) in *.
assert (HD1 : (0 < D1)%Z) by (unfold D1; lia).
assert (HD2 : (0 < D2)%Z) by (unfold D2; lia).
assert (Hf : (f1 <= f2)%Z).
{ destruct (Z_le_gt_dec f1 f2) as [|Hgt]; [assumption|exfalso].
  assert ((f2 + 1) * D1 * D2 <= f1 * D1 * D2)%Z by nia.
  assert (n2 * D1 < (f2 + 1) * D2 * D1)%Z by nia.
  assert (f1 * D1 * D2 <= n1 * D2)%Z by nia.
  nia. }
destruct (Z.eq_dec f1 f2) as [Heq|Hne].
- assert (Hr : (r1 * D2 <= r2 * D1)%Z) by (subst f2; nia).
  rewrite <- Heq.
  destruct (Z.ltb_spec (2 * r1) D1) as [A1|A1].
  + destruct (Z.ltb_spec (2 * r2) D2); [lia|].
    destruct (Z.ltb_spec D2 (2 * r2)); [lia|]. destruct (Z.even f1); lia.
  + destruct (Z.ltb_spec D1 (2 * r1)) as [B1|B1].
    * assert (D2 < 2 * r2)%Z by nia.
      destruct (Z.ltb_spec (2 * r2) D2); [lia|].
      destruct (Z.ltb_spec D2 (2 * r2)); lia.
    * assert (D2 <= 2 * r2)%Z by nia.
      destruct (Z.ltb_spec (2 * r2) D2); [lia|].
      destruct (Z.ltb_spec D2 (2 * r2)); [destruct (Z.even f1); lia|].
      destruct (Z.even f1); lia.
- assert (f1 + 1 <= f2)%Z by lia.
  assert (A : (match (2 * r1 <? D1)%Z with
               | true => f1
               | false => if (D1 <? 2 * r1)%Z then (f1 + 1)%Z
                          else if Z.even f1 then f1 else (f1 + 1)%Z
               end <= f1 + 1)%Z).
  { destruct (2 * r1 <? D1)%Z; [lia|].
    destruct (D1 <? 2 * r1)%Z; [lia|]. destruct (Z.even f1); lia. }
  assert (B : (f2 <= match (2 * r2 <? D2)%Z with
                     | true => f2
                     | false => if (D2 <? 2 * r2)%Z then (f2 + 1)%Z
                                else if Z.even f2 then f2 else (f2 + 1)%Z
                     end)%Z).
  { destruct (2 * r2 <? D2)%Z; [lia|].
    destruct (D2 <? 2 * r2)%Z; [lia|]. destruct (Z.even f2); lia. }
  lia.
Qed.

Lemma round_half_even_Z (z : Z) : round_half_even (inject_Z z) = z.
Proof.
unfold round_half_even, inject_Z. cbn [Qnum Qden].
rewrite Z.div_1_r. replace (2 * (z - z * 1))%Z with 0%Z by lia. reflexivity.
Qed.


Lemma scaled_bounds q :
0 < q ->
2 ^ 52 <= q / 2 ^ (ilog2 q - 52) /\ q / 2 ^ (ilog2 q - 52) < 2 ^ 53.
Proof.
intros Hq. destruct (ilog2_spec q Hq) as [Hlo Hhi].
set (l := ilog2 q) in *. split.
- apply Qle_shift_div_l; [apply two_pow_pos|].
  rewrite <- Qpower_plus by exact two_neq0.
  replace (52 + (l - 52))%Z with l by lia. exact Hlo.
- apply Qlt_shift_div_r; [apply two_pow_pos|].
  rewrite <- Qpower_plus by exact two_neq0.
  replace (53 + (l - 52))%Z with (l + 1)%Z by lia. exact Hhi.
Qed.

Lemma round_pos_eq q :
round_pos q
== inject_Z (round_half_even (q / 2 ^ (ilog2 q - 52))) * 2 ^ (ilog2 q - 52).
Proof. unfold round_pos. cbv zeta. apply Qred_correct. Qed.

Lemma significand_bounds q :
0 < q ->
(2 ^ 52 <= round_half_even (q / 2 ^ (ilog2 q - 52)) <= 2 ^ 53)%Z.
Proof.
intros Hq. destruct (scaled_bounds q Hq) as [Hlo Hhi].
split.
- rewrite <- (round_half_even_Z (2 ^ 52)).
  apply round_half_even_mono. rewrite two_pow_Z by lia. exact Hlo.
- rewrite <- (round_half_even_Z (2 ^ 53)).
  apply round_half_even_mono. rewrite two_pow_Z by lia.
  apply Qlt_le_weak, Hhi.
Qed.

Lemma round_pos_positive q : 0 < q -> 0 < round_pos q.
Proof.
intros Hq. rewrite round_pos_eq.
apply Qmult_lt_0_compat; [|apply two_pow_pos].
destruct (significand_bounds q Hq) as [H _].
change 0 with (inject_Z 0). rewrite <- Zlt_Qlt. lia.
Qed.

Lemma ilog2_mono q1 q2 : 0 < q1 -> q1 <= q2 -> (ilog2 q1 <= ilog2 q2)%Z.
Proof.
intros H1 H12.
assert (H2 : 0 < q2) by (eapply Qlt_le_trans; eassumption).
destruct (ilog2_spec q1 H1) as [L1 _]. destruct (ilog2_spec q2 H2) as [_ U2].
destruct (Z_le_gt_dec (ilog2 q1) (ilog2 q2)) as [|Hgt]; [assumption|exfalso].
assert (2 ^ (ilog2 q2 + 1) <= 2 ^ ilog2 q1) by (apply two_pow_le; lia).
apply (Qlt_irrefl q2). eapply Qlt_le_trans; [exact U2|].
eapply Qle_trans; [eassumption|]. eapply Qle_trans; eassumption.
Qed.

Lemma round_pos_mono q1 q2 : 0 < q1 -> q1 <= q2 -> round_pos q1 <= round_pos q2.
Proof.
intros H1 H12.
assert (H2 : 0 < q2) by (eapply Qlt_le_trans; eassumption).
rewrite !round_pos_eq.
pose proof (ilog2_mono q1 q2 H1 H12) as Hl.
destruct (significand_bounds q1 H1) as [_ S1].
destruct (significand_bounds q2 H2) as [S2 _].
set (e1 := (ilog2 q1 - 52)%Z) in *. set (e2 := (ilog2 q2 - 52)%Z) in *.
destruct (Z.eq_dec e1 e2) as [Heq|Hne].
- rewrite <- Heq. apply Qmult_le_compat_r; [|apply Qlt_le_weak, two_pow_pos].
  rewrite <- Zle_Qle. apply round_half_even_mono.
  apply Qmult_le_compat_r; [exact H12|].
  apply Qlt_le_weak, Qinv_lt_0_compat, two_pow_pos.
- assert (He : (e1 + 1 <= e2)%Z) by (unfold e1, e2 in *; lia).
  apply Qle_trans with (inject_Z (2 ^ 53) * 2 ^ e1).
  { apply Qmult_le_compat_r; [|apply Qlt_le_weak, two_pow_pos].
    rewrite <- Zle_Qle. exact S1. }
  apply Qle_trans with (inject_Z (2 ^ 52) * 2 ^ e2).
  { rewrite !two_pow_Z by lia. rewrite <- !Qpower_plus by exact two_neq0.
    apply two_pow_le. lia. }
  apply Qmult_le_compat_r; [|apply Qlt_le_weak, two_pow_pos].
  rewrite <- Zle_Qle. exact S2.
Qed.

(** The relative error of one rounding is at most [2 ^ -53]. *)
Lemma round_pos_error q :
0 < q ->
q * (1 - 2 ^ (-53)) <= round_pos q /\ round_pos q <= q * (1 + 2 ^ (-53)).
Proof.
intros Hq. rewrite round_pos_eq.
destruct (scaled_bounds q Hq) as [Hlo _].
set (e := (ilog2 q - 52)%Z) in *.
set (x := q / 2 ^ e) in *.
destruct (round_half_even_spec x) as [R1 R2].
assert (Hx : q == x * 2 ^ e).
{ unfold x. field. apply Qpower_not_0. exact two_neq0. }
assert (Hhalf : (1 # 2) <= x * 2 ^ (-53)).
{ apply Qle_trans with (2 ^ 52 * 2 ^ (-53)); [vm_compute; discriminate|].
  apply Qmult_le_compat_r; [exact Hlo|apply Qlt_le_weak, two_pow_pos]. }
assert (Hp := two_pow_pos e).
split.
- rewrite Hx.
  apply Qle_trans with ((x - (1 # 2)) * 2 ^ e).
  + assert (E : x * 2 ^ e * (1 - 2 ^ (-53)) == (x - x * 2 ^ (-53)) * 2 ^ e)
      by ring.
    rewrite E.
    apply Qmult_le_compat_r; [|apply Qlt_le_weak, Hp].
    apply Qplus_le_compat; [apply Qle_refl|].
    apply Qopp_le_compat. exact Hhalf.
  + apply Qmult_le_compat_r; [exact R1|apply Qlt_le_weak, Hp].
- rewrite Hx.
  apply Qle_trans with ((x + (1 # 2)) * 2 ^ e).
  + apply Qmult_le_compat_r; [exact R2|apply Qlt_le_weak, Hp].
  + assert (E : x * 2 ^ e * (1 + 2 ^ (-53)) == (x + x * 2 ^ (-53)) * 2 ^ e)
      by ring.
    rewrite E.
    apply Qmult_le_compat_r; [|apply Qlt_le_weak, Hp].
    apply Qplus_le_compat; [apply Qle_refl|exact Hhalf].
Qed.

(** [round] on the three signs. *)
Lemma round_pos_case q : 0 < q -> round q = round_pos q.
Proof.
intros Hq. destruct (Qpos_num q Hq) as [p Hp]. unfold round. rewrite Hp.
reflexivity.
Qed.

Lemma round_zero q : q == 0 -> round q = 0.
Proof.
destruct q as [[|p|p] d]; unfold Qeq; cbn; intros H; try lia. reflexivity.
Qed.

Lemma round_positive q : 0 < q -> 0 < round q.
Proof. intros H. rewrite (round_pos_case q H). apply round_pos_positive, H. Qed.

Lemma round_nonneg q : 0 <= q -> 0 <= round q.
Proof.
intros H. destruct (Qlt_le_dec 0 q) as [Hp|Hz].
- apply Qlt_le_weak, round_positive, Hp.
- rewrite (round_zero q); [apply Qle_refl|]. apply Qle_antisym; assumption.
Qed.

Lemma round_mono q1 q2 : 0 <= q1 -> q1 <= q2 -> round q1 <= round q2.
Proof.
intros H1 H12. destruct (Qlt_le_dec 0 q1) as [Hp|Hz].
- assert (H2 : 0 < q2) by (eapply Qlt_le_trans; eassumption).
  rewrite (round_pos_case q1 Hp), (round_pos_case q2 H2).
  apply round_pos_mono; assumption.
- rewrite (round_zero q1) by (apply Qle_antisym; assumption).
  apply round_nonneg. eapply Qle_trans; eassumption.
Qed.

Lemma round_error q :
0 < q ->
q * (1 - 2 ^ (-53)) <= round q /\ round q <= q * (1 + 2 ^ (-53)).
Proof. intros H. rewrite (round_pos_case q H). apply round_pos_error, H. Qed.


Lemma round_one : round 1 == 1.
Proof. vm_compute. reflexivity. Qed.

Lemma round_ge_one q : 1 <= q -> 1 <= round q.
Proof.
intros H. rewrite <- round_one at 1. apply round_mono; [discriminate|exact H].
Qed.

End Rounding.

(** ** [SpikeDetector] *)

Section SpikeProperties.
Import Core SpikeDetector.

Lemma evict_consistent window now events : forall count,
  count = List.length events ->
  snd (evict window now events count)
  = List.length (fst (evict window now events count)).
Proof.
  induction events as [|t0 rest IH]; intros count Hc; cbn [evict].
  - exact Hc.
  - destruct (window <? TimeUtils.diffSeconds t0 now).
    + apply IH. subst count. reflexivity.
    + exact Hc.
Qed.

Lemma recordEntry_consistent d st entry :
  counts_consistent st -> counts_consistent (recordEntry d st entry).
Proof.
  intros [Hc Hb]. unfold recordEntry, advanceWindows.
  pose proof (evict_consistent (m_shortWindow d) (timestamp entry)
                (recentEvents st ++ [timestamp entry]) (S (st_currentCount st))) as H1.
  pose proof (evict_consistent (m_baselineWindow d) (timestamp entry)
                (baselineEvents st ++ [timestamp entry]) (S (st_baselineCount st))) as H2.
  destruct (evict (m_shortWindow d) _ _ _) as [recent cur].
  destruct (evict (m_baselineWindow d) _ _ _) as [baseline base].
  cbn [fst snd] in H1, H2. split; cbn.
  - apply H1. rewrite List.length_app, Hc. cbn. lia.
  - apply H2. rewrite List.length_app, Hb. cbn. lia.
Qed.

Lemma stateOf_consistent d src :
  all_consistent d -> counts_consistent (stateOf d src).
Proof.
  intros H. unfold stateOf.
  destruct (m_sourceStates d !! src) as [st|] eqn:E; cbn [default].
  - eapply H; eauto.
  - split; reflexivity.
Qed.

Lemma processEntry_state d entry src :
  source entry = Some src -> src <> EmptyString ->
  processEntry d entry
  = (with_states d (<[src := recordEntry d (stateOf d src) entry]>
                      (m_sourceStates d)),
     if isSpike d (calculateStats d (recordEntry d (stateOf d src) entry)
                                  src (timestamp entry))
     then [createAnomaly d
             (calculateStats d (recordEntry d (stateOf d src) entry)
                             src (timestamp entry))
             (samples (recordEntry d (stateOf d src) entry))]
     else []).
Proof.
  intros Hs Hne. unfold processEntry. rewrite Hs.
  destruct src; [contradiction|]. reflexivity.
Qed.

Lemma processEntry_skips d entry :
  source entry = None \/ source entry = Some EmptyString ->
  processEntry d entry = (d, []).
Proof.
  unfold processEntry. intros [->| ->]; reflexivity.
Qed.

Lemma processEntry_consistent d entry :
  all_consistent d -> all_consistent (fst (processEntry d entry)).
Proof.
  intros H.
  destruct (source entry) as [src|] eqn:Hs.
  - destruct (string_dec src EmptyString) as [->|Hne].
    + rewrite processEntry_skips by auto. exact H.
    + rewrite (processEntry_state d entry src Hs Hne). cbn [fst].
      intros s st. unfold with_states. cbn [m_sourceStates].
      rewrite lookup_insert. destruct (decide (src = s)) as [->|].
      * intros [= <-]. apply recordEntry_consistent, stateOf_consistent, H.
      * apply H.
  - rewrite processEntry_skips by auto. exact H.
Qed.

(** What every reachable detector satisfies. *)
Lemma reachable_invariant d :
  reachable d ->
  all_consistent d
  /\ (11 # 10 <= m_spikeThreshold d)%Q
  /\ (1 <= m_maxSampleEvents d)%nat.
Proof.
  induction 1 as [|d _ (Hc & Ht & Hm)|d ratio _ (Hc & Ht & Hm)
                  |d w _ (Hc & Ht & Hm)|d w _ (Hc & Ht & Hm)
                  |d n _ (Hc & Ht & Hm)|d e _ (Hc & Ht & Hm)].
  - split; [|split].
    + intros src st. cbn. rewrite lookup_empty. discriminate.
    + cbn. discriminate.
    + cbn. lia.
  - split; [|auto]. intros src st. cbn. rewrite lookup_empty. discriminate.
  - split; [exact Hc|]. split; [|exact Hm].
    cbn [setSpikeThreshold m_spikeThreshold]. unfold Double.max, Double.ltb.
    destruct (Qle_bool ratio (11 # 10)) eqn:E; cbn [negb].
    + apply Qle_refl.
    + apply Qlt_le_weak, Qnot_le_lt. intros Hle.
      apply Qle_bool_iff in Hle. congruence.
  - auto.
  - auto.
  - split; [exact Hc|]. split; [exact Ht|]. cbn. lia.
  - split; [apply processEntry_consistent, Hc|].
    destruct (source e) as [src|] eqn:Hs.
    + destruct (string_dec src EmptyString) as [->|Hne].
      * rewrite processEntry_skips by auto. auto.
      * rewrite (processEntry_state d e src Hs Hne). auto.
    + rewrite processEntry_skips by auto. auto.
Qed.







End SpikeProperties.



(** Rounding is visible at the threshold.  With 33 events in the short
    window and 110 in the baseline window, at the default settings, the
    exact quotient (33/60) / (110/600) is 3, which is not above the
    threshold 3.0; the three [double] divisions give 3.0000000000000004,
    and the detector emits. *)
Lemma spike_at_exact_threshold :
  let d := fst (spikeRun SpikeDetector.new
                         (List.repeat spike_entry 77
                          ++ List.repeat spike_entry_later 32)) in
  let d' := fst (SpikeDetector.processEntry d spike_entry_later) in
  shortSize d' "svc1" = 33%nat
  /\ longSize d' "svc1" = 110%nat
  /\ SpikeDetector.m_spikeThreshold d = 3%Q
  /\ (exact_spike_ratio d (shortSize d' "svc1") (longSize d' "svc1") == 3)%Q
  /\ (spike_ratio d (shortSize d' "svc1") (longSize d' "svc1")
      == 6755399441055745 # 2251799813685248)%Q
  /\ snd (SpikeDetector.processEntry d spike_entry_later) <> [].
Proof.
  cbv zeta.
  assert (H33 : shortSize
                  (fst (SpikeDetector.processEntry
                          (fst (spikeRun SpikeDetector.new
                                         (List.repeat spike_entry 77
                                          ++ List.repeat spike_entry_later 32)))
                          spike_entry_later)) "svc1" = 33%nat)
    by (vm_compute; reflexivity).
  assert (H110 : longSize
                   (fst (SpikeDetector.processEntry
                           (fst (spikeRun SpikeDetector.new
                                          (List.repeat spike_entry 77
                                           ++ List.repeat spike_entry_later 32)))
                           spike_entry_later)) "svc1" = 110%nat)
    by (vm_compute; reflexivity).
  rewrite H33, H110.
  split; [reflexivity|]. split; [reflexivity|].
  split; [vm_compute; reflexivity|].
  split; [vm_compute; reflexivity|].
  split; [vm_compute; reflexivity|].
  vm_compute. discriminate.
Qed.

(** ** The spike ratio and its exact value *)

Section RatioError.
Import Double SpikeDetector.
Local Open Scope Q_scope.

Local Ltac hyp := match goal with H : _ |- _ => exact H end.

Lemma Qdiv_le_mono a a' b b' :
0 <= a -> a <= a' -> 0 < b' -> b' <= b -> a / b <= a' / b'.
Proof.
intros Ha Haa Hb' Hbb.
assert (Hb : 0 < b) by exact (Qlt_le_trans _ _ _ Hb' Hbb).
apply Qle_shift_div_l; [exact Hb'|].
apply Qle_trans with (a / b * b).
- rewrite !(Qmult_comm (a / b)). apply Qmult_le_compat_r; [exact Hbb|].
  apply Qle_shift_div_l; [exact Hb|]. rewrite Qmult_0_l. exact Ha.
- assert (E : a / b * b == a) by (field; intros E; rewrite E in Hb; discriminate).
  rewrite E. exact Haa.
Qed.

(** A quotient of two approximations. *)
Lemma approx_div x x' y y' l1 h1 l2 h2 :
0 < x -> 0 < y -> 0 < l1 -> 0 < l2 -> 0 < h2 ->
x * l1 <= x' -> x' <= x * h1 -> y * l2 <= y' -> y' <= y * h2 ->
0 < x' / y'
/\ x / y * (l1 / h2) <= x' / y' /\ x' / y' <= x / y * (h1 / l2).
Proof.
intros Hx Hy Hl1 Hl2 Hh2 Lx Ux Ly Uy.
assert (Hxl : 0 < x * l1) by (apply Qmult_lt_0_compat; hyp).
assert (Hyl : 0 < y * l2) by (apply Qmult_lt_0_compat; hyp).
assert (Hyh : 0 < y * h2) by (apply Qmult_lt_0_compat; hyp).
assert (Hx' : 0 < x') by exact (Qlt_le_trans _ _ _ Hxl Lx).
assert (Hy' : 0 < y') by exact (Qlt_le_trans _ _ _ Hyl Ly).
assert (Ny : ~ y == 0) by (intros E; rewrite E in Hy; discriminate).
assert (Nl : ~ l2 == 0) by (intros E; rewrite E in Hl2; discriminate).
assert (Nh : ~ h2 == 0) by (intros E; rewrite E in Hh2; discriminate).
split; [|split].
- apply Qlt_shift_div_l; [exact Hy'|]. rewrite Qmult_0_l. exact Hx'.
- assert (E : x / y * (l1 / h2) == x * l1 / (y * h2)) by (field; split; [exact Nh|exact Ny]).
  rewrite E. apply Qdiv_le_mono; [apply Qlt_le_weak, Hxl|exact Lx|exact Hy'|exact Uy].
- assert (E : x / y * (h1 / l2) == x * h1 / (y * l2)) by (field; split; [exact Nl|exact Ny]).
  rewrite E. apply Qdiv_le_mono; [apply Qlt_le_weak, Hx'|exact Ux|exact Hyl|exact Ly].
Qed.

Lemma round_approx q l h :
0 < q -> 0 < l ->
forall x, 0 < x -> x * l <= q -> q <= x * h ->
0 < round q
/\ x * (l * (1 - 2 ^ (-53))) <= round q /\ round q <= x * (h * (1 + 2 ^ (-53))).
Proof.
intros Hq Hl x Hx L U. destruct (round_error q Hq) as [RL RU].
split; [apply round_positive, Hq|]. split.
- eapply Qle_trans; [|exact RL]. rewrite Qmult_assoc.
  apply Qmult_le_compat_r; [exact L|vm_compute; discriminate].
- eapply Qle_trans; [exact RU|]. rewrite Qmult_assoc.
  apply Qmult_le_compat_r; [exact U|vm_compute; discriminate].
Qed.


Lemma Qeq_bool_pos q : 0 < q -> Qeq_bool q 0 = false.
Proof.
intros H. destruct (Qeq_bool q 0) eqn:E; [|reflexivity].
apply Qeq_bool_iff in E. rewrite E in H. discriminate.
Qed.

Lemma inject_pos z : (0 < z)%Z -> 0 < inject_Z z.
Proof. intros H. change 0 with (inject_Z 0). rewrite <- Zlt_Qlt. exact H. Qed.

(** An integer converted to [double]. *)
Lemma cast_approx z :
(0 < z)%Z ->
0 < round (inject_Z z)
/\ inject_Z z * (1 * (1 - 2 ^ (-53))) <= round (inject_Z z)
/\ round (inject_Z z) <= inject_Z z * (1 * (1 + 2 ^ (-53))).
Proof.
intros H. pose proof (inject_pos z H) as Hz.
apply round_approx; [exact Hz|reflexivity|exact Hz| |];
  rewrite Qmult_1_r; apply Qle_refl.
Qed.

(** A rate: a count over a window length, both converted, the quotient
  rounded. *)
Lemma rate_approx n w :
(0 < n)%Z -> (0 < w)%Z ->
let q := inject_Z n / inject_Z w in
let r := Double.div (round (inject_Z n)) (round (inject_Z w)) in
0 < q /\ 0 < r
/\ q * (1 * (1 - 2 ^ (-53)) / (1 * (1 + 2 ^ (-53))) * (1 - 2 ^ (-53))) <= r
/\ r <= q * (1 * (1 + 2 ^ (-53)) / (1 * (1 - 2 ^ (-53))) * (1 + 2 ^ (-53))).
Proof.
intros Hn Hw q r.
destruct (cast_approx n Hn) as (Pn & Ln & Un).
destruct (cast_approx w Hw) as (Pw & Lw & Uw).
destruct (approx_div (inject_Z n) (round (inject_Z n))
                     (inject_Z w) (round (inject_Z w))
                     (1 * (1 - 2 ^ (-53))) (1 * (1 + 2 ^ (-53)))
                     (1 * (1 - 2 ^ (-53))) (1 * (1 + 2 ^ (-53))) (inject_pos n Hn) (inject_pos w Hw)
                     ltac:(reflexivity) ltac:(reflexivity) ltac:(reflexivity)
                     Ln Un Lw Uw) as (Pq & Lq & Uq).
assert (Hq : 0 < q).
{ apply Qlt_shift_div_l; [apply inject_pos, Hw|].
  rewrite Qmult_0_l. apply inject_pos, Hn. }
split; [exact Hq|].
apply (round_approx _ (1 * (1 - 2 ^ (-53)) / (1 * (1 + 2 ^ (-53))))
                    (1 * (1 + 2 ^ (-53)) / (1 * (1 - 2 ^ (-53))))
                    Pq ltac:(reflexivity) q Hq Lq Uq).
Qed.

Lemma div_zero b : Double.div (round (inject_Z 0)) b = 0.
Proof. reflexivity. Qed.

Lemma div_zero_l b : Double.div 0 b = 0.
Proof. reflexivity. Qed.

Lemma spike_ratio_bounds d (short long : nat) :
(0 < m_shortWindow d)%Z -> (0 < m_baselineWindow d)%Z ->
exact_spike_ratio d short long * (1 - 2 ^ (-50)) <= spike_ratio d short long
/\ spike_ratio d short long <= exact_spike_ratio d short long * (1 + 2 ^ (-50)).
Proof.
intros Hs Hb. unfold exact_spike_ratio, spike_ratio, of_nat, of_Z, cast_nat, cast_Z.
destruct long as [|long'].
{ change (Z.of_nat 0) with 0%Z. rewrite !div_zero.
  assert (E : Qeq_bool (inject_Z 0 / inject_Z (m_baselineWindow d)) 0 = true)
    by (apply Qeq_bool_iff; reflexivity).
  rewrite E. change (Qeq_bool 0 0) with true. cbv iota.
  split; vm_compute; discriminate. }
set (l := Z.of_nat (S long')). assert (Hl : (0 < l)%Z) by (subst l; lia).
destruct (rate_approx l _ Hl Hb) as (Pqb & Prb & Lb & Ub).
rewrite (Qeq_bool_pos _ Pqb), (Qeq_bool_pos _ Prb).
destruct short as [|short'].
{ change (Z.of_nat 0) with 0%Z. rewrite div_zero; try rewrite div_zero_l.
  split.
  - assert (E : inject_Z 0 / inject_Z (m_shortWindow d)
                / (inject_Z l / inject_Z (m_baselineWindow d)) * (1 - 2 ^ (-50))
                == 0) by reflexivity.
    rewrite E. apply Qle_refl.
  - assert (E : inject_Z 0 / inject_Z (m_shortWindow d)
                / (inject_Z l / inject_Z (m_baselineWindow d)) * (1 + 2 ^ (-50))
                == 0) by reflexivity.
    rewrite E. apply Qle_refl. }
set (s := Z.of_nat (S short')). assert (Hs' : (0 < s)%Z) by (subst s; lia).
destruct (rate_approx s _ Hs' Hs) as (Pqc & Prc & Lc & Uc).
cbv zeta in *.
set (qc := inject_Z s / inject_Z (m_shortWindow d)) in *.
set (qb := inject_Z l / inject_Z (m_baselineWindow d)) in *.
set (rc := Double.div (round (inject_Z s)) (round (inject_Z (m_shortWindow d)))) in *.
set (rb := Double.div (round (inject_Z l)) (round (inject_Z (m_baselineWindow d)))) in *.
destruct (approx_div qc rc qb rb
                     (1 * (1 - 2 ^ (-53)) / (1 * (1 + 2 ^ (-53))) * (1 - 2 ^ (-53)))
                     (1 * (1 + 2 ^ (-53)) / (1 * (1 - 2 ^ (-53))) * (1 + 2 ^ (-53)))
                     (1 * (1 - 2 ^ (-53)) / (1 * (1 + 2 ^ (-53))) * (1 - 2 ^ (-53)))
                     (1 * (1 + 2 ^ (-53)) / (1 * (1 - 2 ^ (-53))) * (1 + 2 ^ (-53)))
                     Pqc Pqb
                     ltac:(reflexivity) ltac:(reflexivity) ltac:(reflexivity)
                     Lc Uc Lb Ub) as (Pq & Lq & Uq).
assert (He : 0 < qc / qb).
{ apply Qlt_shift_div_l; [exact Pqb|]. rewrite Qmult_0_l. exact Pqc. }
destruct (round_approx
            _ ((1 * (1 - 2 ^ (-53)) / (1 * (1 + 2 ^ (-53))) * (1 - 2 ^ (-53)))
               / (1 * (1 + 2 ^ (-53)) / (1 * (1 - 2 ^ (-53))) * (1 + 2 ^ (-53))))
            ((1 * (1 + 2 ^ (-53)) / (1 * (1 - 2 ^ (-53))) * (1 + 2 ^ (-53)))
             / (1 * (1 - 2 ^ (-53)) / (1 * (1 + 2 ^ (-53))) * (1 - 2 ^ (-53))))
            Pq ltac:(reflexivity) (qc / qb) He Lq Uq)
  as (_ & L & U).
fold (Double.div rc rb) in L, U.
split.
- eapply Qle_trans; [|exact L]. rewrite !(Qmult_comm (qc / qb)).
  apply Qmult_le_compat_r; [vm_compute; discriminate|apply Qlt_le_weak, He].
- eapply Qle_trans; [exact U|]. rewrite !(Qmult_comm (qc / qb)).
  apply Qmult_le_compat_r; [vm_compute; discriminate|apply Qlt_le_weak, He].
Qed.

End RatioError.

(** X30 ([SpikeDetector::calculateStats]).  The ratio the code computes
    is the exact quotient (|short| / short window) / (|long| / baseline
    window) up to rounding: the four conversions and three divisions move
    it by less than one part in 2^50, whatever the counts and the window
    lengths are.  So the spike test is the exact comparison unless the
    exact ratio is that close to the threshold. *)
Theorem spike_ratio_close :
  forall d short long,
    0 < SpikeDetector.m_shortWindow d ->
    0 < SpikeDetector.m_baselineWindow d ->
    let e := exact_spike_ratio d short long in
    let r := spike_ratio d short long in
    (e * (1 - 2 ^ (-50)) <= r)%Q /\ (r <= e * (1 + 2 ^ (-50)))%Q
    /\ ((SpikeDetector.m_spikeThreshold d < e * (1 - 2 ^ (-50)))%Q ->
        (SpikeDetector.m_spikeThreshold d < r)%Q)
    /\ ((e * (1 + 2 ^ (-50)) <= SpikeDetector.m_spikeThreshold d)%Q ->
        ~ (SpikeDetector.m_spikeThreshold d < r)%Q).
Proof.
  intros d short long Hs Hb e r.
  destruct (spike_ratio_bounds d short long Hs Hb) as [L U].
  fold e r in L, U.
  split; [exact L|]. split; [exact U|]. split.
  - intros H. eapply Qlt_le_trans; [exact H|exact L].
  - intros H Hr. apply (Qlt_irrefl r).
    eapply Qle_lt_trans; [exact U|]. eapply Qle_lt_trans; [exact H|exact Hr].
Qed.

Lemma spike_ratio_close_witness :
  0 < SpikeDetector.m_shortWindow SpikeDetector.new
  /\ 0 < SpikeDetector.m_baselineWindow SpikeDetector.new
  /\ (exact_spike_ratio SpikeDetector.new 33 110 * (1 - 2 ^ (-50))
      <= spike_ratio SpikeDetector.new 33 110)%Q.
Proof.
  assert (Hs : 0 < SpikeDetector.m_shortWindow SpikeDetector.new) by reflexivity.
  assert (Hb : 0 < SpikeDetector.m_baselineWindow SpikeDetector.new) by reflexivity.
  split; [exact Hs|]. split; [exact Hb|].
  exact (proj1 (spike_ratio_close SpikeDetector.new 33 110 Hs Hb)).
Defined.



(** ** [ReportGenerator]: the ranked view *)

Section Comparisons.

Lemma good_lex {A} (c1 c2 : A -> A -> comparison) :
  good_compare c1 -> good_compare c2 -> good_compare (lex c1 c2).
Proof.
  intros [r1 a1 t1 e1] [r2 a2 t2 e2].
  assert (e1' : forall a b d, c1 a b = Eq -> c1 d a = c1 d b).
  { intros a b d H. rewrite (a1 a d), (a1 b d). f_equal. apply e1, H. }
  split; unfold lex.
  - intros a. rewrite r1. apply r2.
  - intros a b. rewrite (a1 a b). destruct (c1 a b); cbn; auto.
  - intros a b d.
    destruct (c1 a b) eqn:Hab; try discriminate;
      destruct (c1 b d) eqn:Hbd; try discriminate; intros H1 H2.
    + rewrite (e1 a b d Hab), Hbd. eapply t2; eauto.
    + rewrite (e1 a b d Hab), Hbd. reflexivity.
    + rewrite (e1' b d a Hbd) in Hab. rewrite Hab. reflexivity.
    + rewrite (t1 a b d Hab Hbd). reflexivity.
  - intros a b d.
    destruct (c1 a b) eqn:Hab; try discriminate. intros H.
    rewrite (e1 a b d Hab). destruct (c1 b d); auto.
Qed.

Lemma good_Z_desc {A} (f : A -> Z) :
  good_compare (fun a b => Z.compare (f b) (f a)).
Proof.
  split.
  - intros a. apply Z.compare_refl.
  - intros a b. apply Z.compare_antisym.
  - intros a b d. rewrite !Z.compare_lt_iff. lia.
  - intros a b d H. apply Z.compare_eq in H. rewrite H. reflexivity.
Qed.

Lemma good_Q_desc {A} (f : A -> Q) :
  good_compare (fun a b => Qcompare (f b) (f a)).
Proof.
  split.
  - intros a. apply Qeq_alt. reflexivity.
  - intros a b. symmetry. apply Qcompare_antisym.
  - intros a b d. rewrite <- !Qlt_alt. intros H1 H2.
    eapply Qlt_trans; eauto.
  - intros a b d H. apply Qeq_alt in H. rewrite H. reflexivity.
Qed.

Lemma ascii_compare_lt_trans (a b c : ascii) :
  Ascii.compare a b = Lt -> Ascii.compare b c = Lt -> Ascii.compare a c = Lt.
Proof.
  unfold Ascii.compare. rewrite !N.compare_lt_iff. lia.
Qed.

Lemma string_compare_refl (s : string) : String.compare s s = Eq.
Proof.
  induction s as [|c r IH]; [reflexivity|]. cbn [String.compare].
  unfold Ascii.compare. rewrite N.compare_refl. exact IH.
Qed.

Lemma string_compare_lt_trans : forall s1 s2 s3 : string,
  String.compare s1 s2 = Lt -> String.compare s2 s3 = Lt ->
  String.compare s1 s3 = Lt.
Proof.
  induction s1 as [|c1 r1 IH]; intros [|c2 r2] [|c3 r3];
    cbn [String.compare]; try discriminate; try reflexivity.
  destruct (Ascii.compare c1 c2) eqn:H12; try discriminate;
    destruct (Ascii.compare c2 c3) eqn:H23; try discriminate; intros Ha Hb.
  - apply Ascii.compare_eq_iff in H12, H23. subst c2 c3.
    assert (H : Ascii.compare c1 c1 = Eq)
      by (unfold Ascii.compare; apply N.compare_refl).
    rewrite H. eapply IH; eauto.
  - apply Ascii.compare_eq_iff in H12. subst c2. rewrite H23. reflexivity.
  - apply Ascii.compare_eq_iff in H23. subst c3. rewrite H12. reflexivity.
  - rewrite (ascii_compare_lt_trans _ _ _ H12 H23). reflexivity.
Qed.

Lemma good_string_asc {A} (f : A -> string) :
  good_compare (fun a b => String.compare (f a) (f b)).
Proof.
  split.
  - intros a. apply string_compare_refl.
  - intros a b. apply String.compare_antisym.
  - intros a b d. apply string_compare_lt_trans.
  - intros a b d H. apply String.compare_eq_iff in H. rewrite H. reflexivity.
Qed.

Lemma good_rank_compare : good_compare rank_compare.
Proof.
  unfold rank_compare.
  apply good_lex; [apply good_Z_desc|].
  apply good_lex; [apply good_Q_desc|].
  apply good_lex; [apply good_Z_desc|apply good_string_asc].
Qed.

(** The strict part of a good comparison is a strict weak order. *)
Lemma good_compare_swo {A} (c : A -> A -> comparison) (cmp : A -> A -> bool) :
  good_compare c ->
  (forall a b, cmp a b = match c a b with Lt => true | _ => false end) ->
  StdSort.strict_weak_order cmp.
Proof.
  intros [r a t e] Hc.
  assert (e' : forall x y z, c x y = Eq -> c z x = c z y).
  { intros x y z H. rewrite (a x z), (a y z). f_equal. apply e, H. }
  split.
  - intros x. rewrite Hc, r. reflexivity.
  - intros x y z. rewrite !Hc.
    destruct (c x y) eqn:Hxy; try discriminate.
    destruct (c y z) eqn:Hyz; try discriminate.
    rewrite (t x y z Hxy Hyz). reflexivity.
  - intros x y z. rewrite !Hc. rewrite (a x y), (a y z), (a x z).
    destruct (c x y) eqn:Hxy; cbn; try discriminate.
    destruct (c y z) eqn:Hyz; cbn; try discriminate.
    rewrite (e x y z Hxy), Hyz. cbn. auto.
Qed.

End Comparisons.

Section Ranking.
Import Core ReportGenerator.

Lemma comparator_rank a b :
  anomalySeverityComparator a b
  = match rank_compare a b with Lt => true | _ => false end.
Proof.
  unfold anomalySeverityComparator, rank_compare, lex.
  destruct (Z.compare_spec (AnomalySeverity_ordinal (a_severity b))
                           (AnomalySeverity_ordinal (a_severity a)))
    as [Hs|Hs|Hs].
  - rewrite Hs, Z.eqb_refl. cbn [negb].
    unfold Double.neqb, Double.gtb, Double.ltb.
    destruct (Qcompare_spec (a_score b) (a_score a)) as [Hq|Hq|Hq].
    + assert (E : Qeq_bool (a_score a) (a_score b) = true)
        by (apply Qeq_bool_iff; symmetry; exact Hq).
      rewrite E. cbn [negb].
      destruct (Z.compare_spec (a_windowEnd b) (a_windowEnd a)) as [Hw|Hw|Hw].
      * rewrite Hw, Z.eqb_refl. cbn [negb]. unfold String.ltb.
        destruct (String.compare _ _); reflexivity.
      * destruct (Z.eqb_spec (a_windowEnd a) (a_windowEnd b)); [lia|].
        cbn [negb]. apply Z.ltb_lt. exact Hw.
      * destruct (Z.eqb_spec (a_windowEnd a) (a_windowEnd b)); [lia|].
        cbn [negb]. apply Z.ltb_ge. lia.
    + assert (E : Qeq_bool (a_score a) (a_score b) = false).
      { destruct (Qeq_bool _ _) eqn:E; [|reflexivity].
        apply Qeq_bool_iff in E. rewrite E in Hq.
        exfalso. exact (Qlt_irrefl _ Hq). }
      rewrite E. cbn [negb]. apply negb_true_iff.
      destruct (Qle_bool _ _) eqn:L; [|reflexivity].
      apply Qle_bool_iff in L. exfalso. exact (Qlt_not_le _ _ Hq L).
    + assert (E : Qeq_bool (a_score a) (a_score b) = false).
      { destruct (Qeq_bool _ _) eqn:E; [|reflexivity].
        apply Qeq_bool_iff in E. rewrite E in Hq.
        exfalso. exact (Qlt_irrefl _ Hq). }
      rewrite E. cbn [negb]. apply negb_false_iff.
      apply Qle_bool_iff, Qlt_le_weak, Hq.
  - destruct (Z.eqb_spec (AnomalySeverity_ordinal (a_severity a))
                         (AnomalySeverity_ordinal (a_severity b))); [lia|].
    cbn [negb]. apply Z.ltb_lt. exact Hs.
  - destruct (Z.eqb_spec (AnomalySeverity_ordinal (a_severity a))
                         (AnomalySeverity_ordinal (a_severity b))); [lia|].
    cbn [negb]. apply Z.ltb_ge. lia.
Qed.

Lemma severity_ordinal_inj s1 s2 :
  AnomalySeverity_ordinal s1 = AnomalySeverity_ordinal s2 -> s1 = s2.
Proof. destruct s1, s2; cbn; intros H; try reflexivity; discriminate. Qed.

(** The comparison agrees with the ranking spelled out in words. *)
Lemma ranks_before_rank a b : ranks_before a b <-> rank_compare a b <> Gt.
Proof.
  unfold ranks_before, rank_compare, lex.
  destruct (Z.compare_spec (AnomalySeverity_ordinal (a_severity b))
                           (AnomalySeverity_ordinal (a_severity a)))
    as [Hs|Hs|Hs].
  - apply eq_sym, severity_ordinal_inj in Hs.
    destruct (Qcompare_spec (a_score b) (a_score a)) as [Hq|Hq|Hq].
    + destruct (Z.compare_spec (a_windowEnd b) (a_windowEnd a)) as [Hw|Hw|Hw].
      * unfold String.leb.
        destruct (String.compare (a_description a) (a_description b)) eqn:Hd.
        -- split; [discriminate|]. intros _. right. split; [exact Hs|].
           right. split; [symmetry; exact Hq|]. right. auto.
        -- split; [discriminate|]. intros _. right. split; [exact Hs|].
           right. split; [symmetry; exact Hq|]. right. auto.
        -- split; [|congruence].
           intros [H|[_ [H|[_ [H|[_ H]]]]]]; try discriminate; try lia.
           ++ rewrite Hs in H. lia.
           ++ rewrite Hq in H. exfalso. exact (Qlt_irrefl _ H).
      * split; [discriminate|]. intros _. right. split; [exact Hs|].
        right. split; [symmetry; exact Hq|]. left. exact Hw.
      * split; [|congruence].
        intros [H|[_ [H|[_ [H|[H _]]]]]]; try lia.
        -- rewrite Hs in H. lia.
        -- rewrite Hq in H. exfalso. exact (Qlt_irrefl _ H).
    + split; [discriminate|]. intros _. right. split; [exact Hs|].
      left. exact Hq.
    + split; [|congruence].
      intros [H|[_ [H|[H _]]]].
      * rewrite Hs in H. lia.
      * exfalso. exact (Qlt_irrefl _ (Qlt_trans _ _ _ H Hq)).
      * rewrite H in Hq. exfalso. exact (Qlt_irrefl _ Hq).
  - split; [discriminate|]. intros _. left. exact Hs.
  - split; [|congruence].
    intros [H|[H _]]; [lia|]. rewrite H in Hs. lia.
Qed.

Lemma comparator_swo : StdSort.strict_weak_order anomalySeverityComparator.
Proof.
  apply (good_compare_swo rank_compare);
    [apply good_rank_compare|apply comparator_rank].
Qed.

(** Sorted for [std::sort] with this comparator is ranked in the words
    of the specification. *)
Lemma sorted_by_ranked (l : list Anomaly) :
  StdSort.sorted_by anomalySeverityComparator l ->
  StronglySorted ranks_before l.
Proof.
  unfold StdSort.sorted_by. induction 1 as [|x l _ IH Hx]; constructor.
  - exact IH.
  - eapply Forall_impl; [exact Hx|]. intros y Hy. cbv beta in Hy.
    apply ranks_before_rank. rewrite comparator_rank in Hy.
    rewrite (gc_antisym _ good_rank_compare x y) in Hy.
    destruct (rank_compare x y); cbn in Hy; congruence.
Qed.

End Ranking.

(** ** Insertion sort keeps the promise of [std::sort] *)

Section InsertionSort.
Import StdSort.
Context {A : Type} (cmp : A -> A -> bool) (Hswo : strict_weak_order cmp).

Lemma insert_perm x l : Permutation (insert cmp x l) (x :: l).
Proof.
  induction l as [|y r IH]; cbn [insert]; [reflexivity|].
  destruct (cmp x y); [reflexivity|].
  rewrite IH. apply perm_swap.
Qed.

Lemma insert_sorted x l : sorted_by cmp l -> sorted_by cmp (insert cmp x l).
Proof.
  unfold sorted_by. induction 1 as [|y r Hr IH Hy]; cbn [insert].
  - repeat constructor.
  - destruct (cmp x y) eqn:Hxy.
    + constructor; [constructor; assumption|].
      assert (Hyx : cmp y x = false).
      { destruct (cmp y x) eqn:E; [|reflexivity].
        pose proof (swo_trans cmp Hswo x y x Hxy E) as H.
        rewrite (swo_irrefl cmp Hswo) in H. discriminate. }
      constructor; [exact Hyx|].
      eapply Forall_impl; [exact Hy|]. intros z Hz. cbv beta in Hz.
      destruct (cmp z x) eqn:E; [|reflexivity].
      rewrite (swo_trans cmp Hswo z x y E Hxy) in Hz. discriminate.
    + constructor; [exact IH|].
      rewrite (insert_perm x r). constructor; [exact Hxy|exact Hy].
Qed.

Lemma isort_perm l : Permutation (isort A cmp l) l.
Proof.
  induction l as [|x r IH]; cbn; [reflexivity|].
  change (Permutation (insert cmp x (isort A cmp r)) (x :: r)).
  rewrite insert_perm, IH. reflexivity.
Qed.

Lemma isort_sorted l : sorted_by cmp (isort A cmp l).
Proof.
  induction l as [|x r IH]; cbn.
  - constructor.
  - apply insert_sorted, IH.
Qed.

End InsertionSort.

Lemma isort_contract : StdSort.contract StdSort.isort.
Proof.
  intros A cmp Hswo l. split; [apply isort_perm|apply isort_sorted, Hswo].
Qed.

(** C8.  The view [generateReport] keeps for rendering is the anomaly list
    of the report ranked by severity descending, score descending, window
    end descending and description ascending, cut to [max_anomalies]
    entries when that cap is positive; the report stored next to it is the
    report given, its anomaly list still in emission order. *)
Theorem ranked_view :
  forall std_sort,
    StdSort.contract std_sort ->
    forall g report,
      let g' := ReportGenerator.generateReport std_sort g report in
      (exists ranked,
          Permutation ranked (Report.anomalies report)
          /\ StronglySorted ranks_before ranked
          /\ ReportGenerator.m_sortedAnomalies g'
             = capped (ReportGenerator.m_maxAnomalies g) ranked)
      /\ ((0 < ReportGenerator.m_maxAnomalies g)%nat ->
          (List.length (ReportGenerator.m_sortedAnomalies g')
           <= ReportGenerator.m_maxAnomalies g)%nat)
      /\ ReportGenerator.m_reportData g' = report
      /\ Report.anomalies (ReportGenerator.m_reportData g')
         = Report.anomalies report.
Proof.
  intros std_sort Hsort g report g'.
  destruct (Hsort _ _ comparator_swo (Report.anomalies report)) as [Hp Hs].
  set (ranked := std_sort Core.Anomaly ReportGenerator.anomalySeverityComparator
                          (Report.anomalies report)) in *.
  assert (Hview : ReportGenerator.m_sortedAnomalies g'
                  = capped (ReportGenerator.m_maxAnomalies g) ranked).
  { subst g'. unfold ReportGenerator.generateReport, capped.
    cbn [ReportGenerator.m_sortedAnomalies]. fold ranked.
    destruct (Nat.ltb_spec 0 (ReportGenerator.m_maxAnomalies g));
      [|reflexivity].
    destruct (Nat.ltb_spec (ReportGenerator.m_maxAnomalies g)
                           (List.length ranked)); cbn [andb]; [reflexivity|].
    symmetry. apply List.firstn_all2. assumption. }
  split; [|split; [|split]].
  - exists ranked. split; [exact Hp|]. split; [|exact Hview].
    apply sorted_by_ranked, Hs.
  - intros Hmax. rewrite Hview. unfold capped.
    destruct (Nat.ltb_spec 0 (ReportGenerator.m_maxAnomalies g)); [|lia].
    apply List.firstn_le_length.
  - reflexivity.
  - reflexivity.
Qed.

Lemma ranked_view_witness :
  StdSort.contract StdSort.isort
  /\ (let g := ReportGenerator.setMaxAnomalies
                 (ReportGenerator.new ReportGenerator.JSON) 2 in
      let g' := ReportGenerator.generateReport StdSort.isort g sample_report in
      List.map Core.a_score (ReportGenerator.m_sortedAnomalies g')
      = [21 # 1; 20 # 1]
      /\ (exists ranked,
             Permutation ranked (Report.anomalies sample_report)
             /\ StronglySorted ranks_before ranked
             /\ ReportGenerator.m_sortedAnomalies g'
                = capped (ReportGenerator.m_maxAnomalies g) ranked)
      /\ ((0 < ReportGenerator.m_maxAnomalies g)%nat ->
          (List.length (ReportGenerator.m_sortedAnomalies g')
           <= ReportGenerator.m_maxAnomalies g)%nat)
      /\ ReportGenerator.m_reportData g' = sample_report
      /\ Report.anomalies (ReportGenerator.m_reportData g')
         = Report.anomalies sample_report).
Proof.
  split; [exact isort_contract|].
  intros g g'. split; [vm_compute; reflexivity|].
  exact (ranked_view StdSort.isort isort_contract g sample_report).
Defined.

(** ** The driver: what the wall clock can change *)

Section DriverProperties.
Import Core Pipeline.
Variable A : Analyzers.

Lemma emitAll_eq r n l :
  emitAll (r, n) l
  = (withAnomalies r (Report.m_anomalies r ++ l), emittedAfter n l).
Proof.
  revert r n. unfold emitAll, emittedAfter.
  induction l as [|a l IH]; intros r n; cbn [List.fold_left].
  - rewrite List.app_nil_r. destruct r; reflexivity.
  - unfold emit at 2. cbn [fst snd]. rewrite IH.
    unfold Report.addAnomaly, withAnomalies. cbn.
    rewrite <- List.app_assoc. reflexivity.
Qed.

Lemma same_but_window_refl a : same_but_window a a.
Proof. repeat split. Qed.

Lemma Forall2_same_refl (l : list Anomaly) :
  Forall2 same_but_malformed_window l l.
Proof. induction l; constructor; [left; reflexivity|assumption]. Qed.

Lemma same_but_malformed_weaken l1 l2 :
  Forall2 same_but_malformed_window l1 l2 -> Forall2 same_but_window l1 l2.
Proof.
  induction 1 as [|a b l1 l2 Hab _ IH]; constructor; [|exact IH].
  destruct Hab as [->|[_ H]]; [apply same_but_window_refl|exact H].
Qed.

(** One iteration of the loop, in two runs that read different clocks. *)
Lemma processLine_twin z u c1 c2 (s1 s2 : State A) line :
  twin_states s1 s2 ->
  match processLine A (mkEnv z c1 u) s1 line,
        processLine A (mkEnv z c2 u) s2 line with
  | Some s1', Some s2' => twin_states s1' s2'
  | None, None => True
  | _, _ => False
  end.
Proof.
  intros [Hcore Hanoms].
  destruct s1 as [r1 pc1 mc1 ec1 h1 lo1 hi1 f1 tw1 p1 sp1 st1 b1 i1 k1].
  destruct s2 as [r2 pc2 mc2 ec2 h2 lo2 hi2 f2 tw2 p2 sp2 st2 b2 i2 k2].
  destruct r1 as [as1 ae1 te1 pf1 an1 ls1 ss1].
  destruct r2 as [as2 ae2 te2 pf2 an2 ls2 ss2].
  unfold withReport, withAnomalies in Hcore. cbn in Hcore, Hanoms.
  injection Hcore as -> -> -> -> -> -> -> -> -> -> -> -> -> -> -> -> -> -> -> ->.
  unfold processLine. cbn [tz clock report emittedCount clockReads
                           parsedCount malformedCount haveTimeRange minTs maxTs
                           freq timeWindow pattern spikeDetector statDetector
                           burstDetector ipDetector].
  destruct (StringUtils.empty line).
  { split; [reflexivity|exact Hanoms]. }
  destruct (LogParser.entry (LogParser.parseLineDetailed z LogParser.new line))
    as [entry|].
  - destruct (TimeWindowAnalyzer.addEntry tw2 entry) as [tw|]; [|exact I].
    destruct (SpikeDetector.processEntry sp2 entry) as [spike spikes].
    destruct (stat_processEntry A st2 entry) as [stat stats].
    destruct (BurstPatternDetector.processEntry b2 entry) as [burst bursts].
    destruct (IpFrequencyDetector.processEntry i2 entry) as [ip hits].
    rewrite !emitAll_eq. split.
    + reflexivity.
    + cbn. apply Forall2_app; [exact Hanoms|apply Forall2_same_refl].
  - unfold emit. cbn [fst snd]. split.
    + reflexivity.
    + cbn. apply Forall2_app; [exact Hanoms|].
      constructor; [|constructor].
      right. split; [reflexivity|]. repeat split.
Qed.

End DriverProperties.

Section DriverRuns.
Import Core Pipeline.
Variable A : Analyzers.

Lemma twin_states_refl (s : State A) : twin_states s s.
Proof. split; [reflexivity|apply Forall2_same_refl]. Qed.

Lemma processLines_twin z u c1 c2 lines : forall s1 s2 : State A,
  twin_states s1 s2 ->
  match processLines A (mkEnv z c1 u) s1 lines,
        processLines A (mkEnv z c2 u) s2 lines with
  | Some s1', Some s2' => twin_states s1' s2'
  | None, None => True
  | _, _ => False
  end.
Proof.
  induction lines as [|line rest IH]; intros s1 s2 Ht; cbn [processLines].
  - exact Ht.
  - pose proof (processLine_twin A z u c1 c2 s1 s2 line Ht) as H.
    destruct (processLine A (mkEnv z c1 u) s1 line) as [s1'|],
             (processLine A (mkEnv z c2 u) s2 line) as [s2'|];
      try contradiction; [|exact I].
    apply IH, H.
Qed.

(** An iteration ends: the analyzer of the driver keeps its window size
    of 60 s.  It also records whether a line has parsed. *)
Lemma processLine_total env (s : State A) line :
  0 < TimeWindowAnalyzer.m_windowSize (timeWindow A s) ->
  exists s',
    processLine A env s line = Some s'
    /\ TimeWindowAnalyzer.m_windowSize (timeWindow A s')
       = TimeWindowAnalyzer.m_windowSize (timeWindow A s)
    /\ haveTimeRange A s'
       = (haveTimeRange A s || lineParses (tz env) line)%bool.
Proof.
  intros Hw. unfold processLine, lineParses.
  destruct (StringUtils.empty line).
  { exists s. cbn. rewrite orb_false_r. auto. }
  destruct (LogParser.entry _) as [entry|]; cbn [negb andb has_value].
  - destruct (addEventUnlocked_terminates (timeWindow A s) entry Hw)
      as (tw & Htw & Hws).
    unfold TimeWindowAnalyzer.addEntry. rewrite Htw.
    destruct (SpikeDetector.processEntry _ _), (stat_processEntry A _ _),
      (BurstPatternDetector.processEntry _ _),
      (IpFrequencyDetector.processEntry _ _), (emitAll _ _).
    eexists. split; [reflexivity|]. cbn. rewrite orb_true_r. auto.
  - destruct (emit _ _). eexists. split; [reflexivity|].
    cbn. rewrite orb_false_r. auto.
Qed.

Lemma processLines_total env lines : forall s : State A,
  0 < TimeWindowAnalyzer.m_windowSize (timeWindow A s) ->
  exists s',
    processLines A env s lines = Some s'
    /\ haveTimeRange A s'
       = (haveTimeRange A s || existsb (lineParses (tz env)) lines)%bool.
Proof.
  induction lines as [|line rest IH]; intros s Hw; cbn [processLines existsb].
  - exists s. rewrite orb_false_r. auto.
  - destruct (processLine_total env s line Hw) as (s1 & -> & Hw1 & Hh1).
    destruct (IH s1 ltac:(lia)) as (s' & -> & Hh').
    exists s'. split; [reflexivity|].
    rewrite Hh', Hh1, orb_assoc. reflexivity.
Qed.

(** A line that is not malformed is processed without reading the
    clock. *)
Lemma processLine_no_clock z u c1 c2 (s : State A) line :
  lineMalformed z line = false ->
  processLine A (mkEnv z c1 u) s line = processLine A (mkEnv z c2 u) s line.
Proof.
  unfold lineMalformed, processLine. cbn [tz].
  destruct (StringUtils.empty line); [reflexivity|].
  destruct (LogParser.entry _); [reflexivity|discriminate].
Qed.

Lemma processLines_no_clock z u c1 c2 lines : forall s : State A,
  existsb (lineMalformed z) lines = false ->
  processLines A (mkEnv z c1 u) s lines = processLines A (mkEnv z c2 u) s lines.
Proof.
  induction lines as [|line rest IH]; intros s; cbn [processLines existsb];
    [reflexivity|].
  intros [Hl Hr]%orb_false_iff.
  rewrite (processLine_no_clock z u c1 c2 s line Hl).
  destruct (processLine _ _ s line); [apply IH, Hr|reflexivity].
Qed.

(** With a time range the end-of-stream anomalies take their window
    from the entries. *)
Lemma offlineAnomalies_have env ty lo hi ds : forall k,
  offlineAnomalies env ty true lo hi k ds
  = (List.map (fun d => mkAnomaly ty Medium lo hi 1 d None []) ds, k).
Proof.
  induction ds as [|d rest IH]; intros k; cbn [offlineAnomalies List.map];
    [reflexivity|].
  rewrite IH. reflexivity.
Qed.

Lemma offlineAnomalies_twin z u c1 c2 ty have lo hi ds : forall k,
  Forall2 same_but_window
          (fst (offlineAnomalies (mkEnv z c1 u) ty have lo hi k ds))
          (fst (offlineAnomalies (mkEnv z c2 u) ty have lo hi k ds))
  /\ snd (offlineAnomalies (mkEnv z c1 u) ty have lo hi k ds)
     = snd (offlineAnomalies (mkEnv z c2 u) ty have lo hi k ds).
Proof.
  induction ds as [|d rest IH]; intros k; cbn [offlineAnomalies].
  - split; [constructor|reflexivity].
  - destruct have.
    + destruct (IH k) as [H1 H2].
      destruct (offlineAnomalies (mkEnv z c1 u) ty true lo hi k rest),
               (offlineAnomalies (mkEnv z c2 u) ty true lo hi k rest).
      cbn [fst snd] in *. split; [|exact H2].
      constructor; [apply same_but_window_refl|exact H1].
    + destruct (IH (S (S k))) as [H1 H2].
      destruct (offlineAnomalies (mkEnv z c1 u) ty false lo hi (S (S k)) rest),
               (offlineAnomalies (mkEnv z c2 u) ty false lo hi (S (S k)) rest).
      cbn [fst snd] in *. split; [|exact H2].
      constructor; [repeat split|exact H1].
Qed.

Lemma finish_no_clock z u c1 c2 (s : State A) :
  haveTimeRange A s = true ->
  finish A (mkEnv z c1 u) s = finish A (mkEnv z c2 u) s.
Proof.
  intros Hh. unfold finish. rewrite Hh, !offlineAnomalies_have. reflexivity.
Qed.

Lemma finish_twin z u c1 c2 (s1 s2 : State A) :
  twin_states s1 s2 ->
  Forall2 same_but_window
          (Report.anomalies (finish A (mkEnv z c1 u) s1))
          (Report.anomalies (finish A (mkEnv z c2 u) s2))
  /\ (haveTimeRange A s1 = true ->
      Forall2 same_but_malformed_window
              (Report.anomalies (finish A (mkEnv z c1 u) s1))
              (Report.anomalies (finish A (mkEnv z c2 u) s2))).
Proof.
  intros [Hcore Hanoms].
  destruct s1 as [r1 pc1 mc1 ec1 h1 lo1 hi1 f1 tw1 p1 sp1 st1 b1 i1 k1].
  destruct s2 as [r2 pc2 mc2 ec2 h2 lo2 hi2 f2 tw2 p2 sp2 st2 b2 i2 k2].
  destruct r1 as [as1 ae1 te1 pf1 an1 ls1 ss1].
  destruct r2 as [as2 ae2 te2 pf2 an2 ls2 ss2].
  unfold withReport, withAnomalies in Hcore. cbn in Hcore, Hanoms.
  injection Hcore as -> -> -> -> -> -> -> -> -> -> -> -> -> -> -> -> -> -> -> ->.
  cbn [haveTimeRange]. split.
  - unfold finish.
    cbn [tz uninit report emittedCount clockReads parsedCount haveTimeRange
            minTs maxTs freq timeWindow pattern].
    destruct (offlineAnomalies_twin z u c1 c2 FrequencySpike h2 lo2 hi2
                (freq_detectAnomalies A f2) k2) as [Hf Hk].
    destruct (offlineAnomalies (mkEnv z c1 u) FrequencySpike h2 lo2 hi2 k2 _)
      as [fa1 ka1].
    destruct (offlineAnomalies (mkEnv z c2 u) FrequencySpike h2 lo2 hi2 k2 _)
      as [fa2 ka2].
    cbn [fst snd] in Hf, Hk. subst ka2.
    destruct (offlineAnomalies_twin z u c1 c2 SequenceViolation h2 lo2 hi2
                (pattern_detectAnomalies A p2) ka1) as [Hp Hk].
    destruct (offlineAnomalies (mkEnv z c1 u) SequenceViolation h2 lo2 hi2 ka1 _)
      as [pa1 kb1].
    destruct (offlineAnomalies (mkEnv z c2 u) SequenceViolation h2 lo2 hi2 ka1 _)
      as [pa2 kb2].
    cbn [fst snd] in Hp, Hk. subst kb2.
    rewrite !emitAll_eq.
    assert (Hall : Forall2 same_but_window
                     (an1 ++ fa1 ++ pa1
                      ++ List.map timeWindowToAnomaly
                           (TimeWindowAnalyzer.detectAnomalies z tw2 u))
                     (an2 ++ fa2 ++ pa2
                      ++ List.map timeWindowToAnomaly
                           (TimeWindowAnalyzer.detectAnomalies z tw2 u))).
    { apply Forall2_app; [apply same_but_malformed_weaken, Hanoms|].
      apply Forall2_app; [exact Hf|].
      apply Forall2_app; [exact Hp|].
      apply same_but_malformed_weaken, Forall2_same_refl. }
    destruct h2; exact Hall.
  - intros ->. unfold finish.
    cbn [tz uninit report emittedCount clockReads parsedCount haveTimeRange
            minTs maxTs freq timeWindow pattern].
    rewrite !offlineAnomalies_have, !emitAll_eq. cbn.
    apply Forall2_app; [exact Hanoms|apply Forall2_same_refl].
Qed.

End DriverRuns.

(** X31 ([main]).  What the wall clock alone can change.  Two runs on
    the same input, in the same zone, that read the same values from the
    scores [TimeWindowAnalyzer] leaves unset both end, and their anomaly lists have the same length and agree
    position by position on type, severity, score, description, source and
    related entries.  When a line has parsed, the windows agree as well,
    except for malformed-line anomalies, which carry the wall clock.  When
    a line has parsed and no line is malformed the two reports are equal,
    and so is their JSON apart from [generated]. *)
Theorem runs_agree_up_to_wall_clock :
  forall (A : Pipeline.Analyzers) tz uninit clock1 clock2 file lines,
  exists r1 r2,
    Pipeline.run A (Pipeline.mkEnv tz clock1 uninit) file lines = Some r1
    /\ Pipeline.run A (Pipeline.mkEnv tz clock2 uninit) file lines = Some r2
    /\ Forall2 same_but_window (Report.anomalies r1) (Report.anomalies r2)
    /\ (existsb (lineParses tz) lines = true ->
        Forall2 same_but_malformed_window
                (Report.anomalies r1) (Report.anomalies r2))
    /\ (existsb (lineParses tz) lines = true ->
        existsb (lineMalformed tz) lines = false ->
        r1 = r2
        /\ forall std_sort g generated,
            ReportGenerator.renderJson
              std_sort tz generated
              (ReportGenerator.generateReport std_sort g r1)
            = ReportGenerator.renderJson
                std_sort tz generated
                (ReportGenerator.generateReport std_sort g r2)).
Proof.
  intros A tz uninit clock1 clock2 file lines.
  set (env1 := Pipeline.mkEnv tz clock1 uninit).
  set (env2 := Pipeline.mkEnv tz clock2 uninit).
  assert (Hw : 0 < TimeWindowAnalyzer.m_windowSize
                     (Pipeline.timeWindow A (Pipeline.start A file)))
    by (cbn; lia).
  destruct (processLines_total A env1 lines _ Hw) as (s1 & H1 & Hh1).
  destruct (processLines_total A env2 lines _ Hw) as (s2 & H2 & Hh2).
  pose proof (processLines_twin A tz uninit clock1 clock2 lines _ _
                (twin_states_refl A (Pipeline.start A file))) as Ht.
  fold env1 env2 in Ht. rewrite H1, H2 in Ht.
  destruct (finish_twin A tz uninit clock1 clock2 s1 s2 Ht) as [Ha Hb].
  fold env1 env2 in Ha, Hb.
  exists (Pipeline.finish A env1 s1), (Pipeline.finish A env2 s2).
  unfold Pipeline.run. rewrite H1, H2.
  split; [reflexivity|]. split; [reflexivity|]. split; [exact Ha|].
  cbn [Pipeline.tz env1 env2 Pipeline.haveTimeRange Pipeline.start orb] in Hh1, Hh2.
  split.
  - intros Hp. apply Hb. rewrite Hh1. exact Hp.
  - intros Hp Hm.
    assert (Heq : Pipeline.finish A env1 s1 = Pipeline.finish A env2 s2).
    { pose proof (processLines_no_clock A tz uninit clock1 clock2 lines
                    (Pipeline.start A file) Hm) as Hs.
      fold env1 env2 in Hs. rewrite H1, H2 in Hs. injection Hs as <-.
      apply finish_no_clock. rewrite Hh1. exact Hp. }
    split; [exact Heq|]. intros std_sort g generated. rewrite Heq. reflexivity.
Qed.

(** X32 ([main], the malformed-line branch).  The wall clock does change
    the window of a malformed-line anomaly.  The one-line input [this is not a log], read in two runs that start a
    minute apart, gives two malformed-line anomalies with different
    windows; their serialized [windowStart] and [windowEnd] differ, also
    within one and the same [generated] instant. *)
Lemma malformed_line_window_differs :
  exists r1 r2,
    Pipeline.run Pipeline.silentAnalyzers
                 (Pipeline.mkEnv 0 (fun _ => 1704067200) (fun _ => 0%Q))
                 "app.log" [Scenarios.malformed_line] = Some r1
    /\ Pipeline.run Pipeline.silentAnalyzers
                    (Pipeline.mkEnv 0 (fun _ => 1704067260) (fun _ => 0%Q))
                    "app.log" [Scenarios.malformed_line] = Some r2
    /\ List.map Core.a_windowStart (Report.anomalies r1) = [1704067200]
    /\ List.map Core.a_windowStart (Report.anomalies r2) = [1704067260]
    /\ Report.anomalies r1 <> Report.anomalies r2
    /\ ReportGenerator.renderJsonAnomalies 0 (Report.anomalies r1)
       <> ReportGenerator.renderJsonAnomalies 0 (Report.anomalies r2)
    /\ ~ runs_identical Pipeline.silentAnalyzers
           (Pipeline.mkEnv 0 (fun _ => 1704067200) (fun _ => 0%Q))
           (Pipeline.mkEnv 0 (fun _ => 1704067260) (fun _ => 0%Q))
           "app.log" [Scenarios.malformed_line].
Proof.
  eexists. eexists.
  split; [vm_compute; reflexivity|]. split; [vm_compute; reflexivity|].
  split; [reflexivity|]. split; [reflexivity|].
  split; [discriminate|]. split; [vm_compute; discriminate|].
  intros H. vm_compute in H. destruct H as [H _]. discriminate.
Qed.

(** ** The driver: an unset score decides what is reported *)

Section UninitialisedScore.
Import Core Pipeline.
Variable A : Analyzers.

(** The loop never reads a score of [TimeWindowAnalyzer]. *)
Lemma processLines_no_uninit z c u1 u2 lines : forall s : State A,
  processLines A (mkEnv z c u1) s lines = processLines A (mkEnv z c u2) s lines.
Proof.
  induction lines as [|line rest IH]; intros s; cbn [processLines];
    [reflexivity|].
  change (processLine A (mkEnv z c u2) s line)
    with (processLine A (mkEnv z c u1) s line).
  destruct (processLine _ _ s line); [apply IH|reflexivity].
Qed.

(** The time-window analyzer sees the parsed entries, one by one. *)
Lemma processLines_timeWindow env lines : forall s s' : State A,
  processLines A env s lines = Some s' ->
  TimeWindowAnalyzer.addEntries (timeWindow A s) (entriesOf (tz env) lines)
  = Some (timeWindow A s').
Proof.
  induction lines as [|line rest IH]; intros s s'; cbn [processLines].
  - intros [= ->]. reflexivity.
  - destruct (processLine A env s line) as [s1|] eqn:E; [|discriminate].
    intros H. specialize (IH _ _ H).
    unfold entriesOf in *. cbn [omap list_omap]. fold (@omap list _ _ _ (lineEntry (tz env))).
    unfold processLine in E. unfold lineEntry at 1.
    destruct (StringUtils.empty line).
    + injection E as <-. exact IH.
    + destruct (LogParser.entry _) as [entry|].
      * destruct (TimeWindowAnalyzer.addEntry _ entry) as [tw|] eqn:Et;
          [|discriminate].
        destruct (SpikeDetector.processEntry _ _), (stat_processEntry A _ _),
          (BurstPatternDetector.processEntry _ _),
          (IpFrequencyDetector.processEntry _ _), (emitAll _ _).
        injection E as <-. cbn [TimeWindowAnalyzer.addEntries].
        rewrite Et. exact IH.
      * destruct (emit _ _). injection E as <-. exact IH.
Qed.

(** The anomaly list of the finished report when a line has parsed. *)
Lemma finish_anomalies env (s : State A) :
  haveTimeRange A s = true ->
  Report.anomalies (finish A env s)
  = Report.anomalies (report A s)
    ++ List.map (fun d => mkAnomaly FrequencySpike Medium (minTs A s) (maxTs A s) 1 d None [])
                (freq_detectAnomalies A (freq A s))
    ++ List.map (fun d => mkAnomaly SequenceViolation Medium (minTs A s) (maxTs A s) 1 d None [])
                (pattern_detectAnomalies A (pattern A s))
    ++ List.map (timeWindowToAnomaly)
                (TimeWindowAnalyzer.detectAnomalies
                   (tz env) (timeWindow A s) (uninit env)).
Proof.
  intros Hh. unfold finish. rewrite Hh, !offlineAnomalies_have, emitAll_eq.
  reflexivity.
Qed.

End UninitialisedScore.

(** The silence input, seen by the time-window analyzer: when every unset
    score reads as [0.0] nothing is reported; when every one reads as
    [1.0], each of the 23 checks that found nothing reports an anomaly
    with an empty description. *)
Lemma silence_window_anomalies :
  exists tw,
    TimeWindowAnalyzer.addEntries TimeWindowAnalyzer.new
                                  (entriesOf 0 Scenarios.silence_lines) = Some tw
    /\ TimeWindowAnalyzer.detectAnomalies 0 tw (fun _ => 0%Q) = []
    /\ List.map Pipeline.timeWindowToAnomaly
                (TimeWindowAnalyzer.detectAnomalies 0 tw (fun _ => 1%Q))
       = List.repeat (Core.mkAnomaly Core.FrequencySpike Core.High 0 0 1
                                     EmptyString None []) 23.
Proof.
  eexists. split; [vm_compute; reflexivity|].
  split; vm_compute; reflexivity.
Qed.

(** C6.  The anomaly list is not a function of the input.
    [TimeWindowAnalyzer::detectAnomalies] pushes the result of a check when
    its [score] is positive, and a check that finds nothing returns an
    [Anomaly] whose [score] was never set.  On the silence input of the
    end-to-end scenarios, where every line parses and the wall clock is
    never read, a run in which these reads give [0.0] and a run in which
    they give [1.0] differ by 23 anomalies, whatever the other analyzers,
    the clock and the file name are. *)
Theorem report_depends_on_uninitialised_score :
  forall (A : Pipeline.Analyzers) clock file,
  exists r0 r1,
    Pipeline.run A (Pipeline.mkEnv 0 clock (fun _ => 0%Q)) file
                 Scenarios.silence_lines = Some r0
    /\ Pipeline.run A (Pipeline.mkEnv 0 clock (fun _ => 1%Q)) file
                    Scenarios.silence_lines = Some r1
    /\ existsb (lineMalformed 0) Scenarios.silence_lines = false
    /\ Report.anomalies r1
       = Report.anomalies r0
         ++ List.repeat (Core.mkAnomaly Core.FrequencySpike Core.High 0 0 1
                                        EmptyString None []) 23
    /\ Report.anomalies r0 <> Report.anomalies r1
    /\ ~ runs_identical A (Pipeline.mkEnv 0 clock (fun _ => 0%Q))
                        (Pipeline.mkEnv 0 clock (fun _ => 1%Q))
                        file Scenarios.silence_lines.
Proof.
  intros A clock file.
  set (env0 := Pipeline.mkEnv 0 clock (fun _ => 0%Q)).
  set (env1 := Pipeline.mkEnv 0 clock (fun _ => 1%Q)).
  assert (Hw : 0 < TimeWindowAnalyzer.m_windowSize
                     (Pipeline.timeWindow A (Pipeline.start A file)))
    by (cbn; lia).
  destruct (processLines_total A env0 Scenarios.silence_lines _ Hw)
    as (s & H0 & Hh).
  assert (H1 : Pipeline.processLines A env1 (Pipeline.start A file)
                                     Scenarios.silence_lines = Some s).
  { rewrite <- H0. symmetry. apply processLines_no_uninit. }
  assert (Hp : existsb (lineParses 0) Scenarios.silence_lines = true)
    by (vm_compute; reflexivity).
  cbn [Pipeline.tz env0 Pipeline.haveTimeRange Pipeline.start orb] in Hh.
  rewrite Hp in Hh.
  pose proof (processLines_timeWindow A env0 _ _ _ H0) as Htw.
  destruct silence_window_anomalies as (tw & Ha & Hz & Ho).
  change (Pipeline.timeWindow A (Pipeline.start A file))
    with TimeWindowAnalyzer.new in Htw.
  cbn [Pipeline.tz env0] in Htw. rewrite Ha in Htw. injection Htw as Htw.
  assert (Hall : Report.anomalies (Pipeline.finish A env1 s)
                 = Report.anomalies (Pipeline.finish A env0 s)
                   ++ List.repeat (Core.mkAnomaly Core.FrequencySpike Core.High
                                                  0 0 1 EmptyString None []) 23).
  { rewrite !finish_anomalies by exact Hh.
    cbn [Pipeline.tz Pipeline.uninit env0 env1]. rewrite <- Htw, Hz, Ho.
    cbn [List.map]. rewrite List.app_nil_r, <- !List.app_assoc. reflexivity. }
  exists (Pipeline.finish A env0 s), (Pipeline.finish A env1 s).
  unfold runs_identical, Pipeline.run. fold env0 env1. rewrite H0, H1.
  split; [reflexivity|]. split; [reflexivity|].
  split; [vm_compute; reflexivity|]. split; [exact Hall|].
  assert (Hne : Report.anomalies (Pipeline.finish A env0 s)
                <> Report.anomalies (Pipeline.finish A env1 s)).
  { intros E. apply (f_equal (@List.length _)) in Hall.
    rewrite <- E, List.length_app, List.repeat_length in Hall. lia. }
  split; [exact Hne|]. intros [E _]. exact (Hne E).
Qed.

(** * Further properties of the code *)

(** ** Strings: trimming, splitting and escaping *)

Section StringProperties.
Import CType StringUtils.

Lemma append_cons c a b : (String c a ++ b)%string = String c (a ++ b)%string.
Proof. reflexivity. Qed.
Lemma append_nil_l b : (EmptyString ++ b)%string = b.
Proof. reflexivity. Qed.
Lemma append_nil_r a : (a ++ EmptyString)%string = a.
Proof. induction a as [|c a IH]; [reflexivity|]. rewrite append_cons, IH. reflexivity. Qed.
Lemma append_assoc a b c : ((a ++ b) ++ c)%string = (a ++ (b ++ c))%string.
Proof. induction a as [|x a IH]; [reflexivity|]. rewrite !append_cons, IH. reflexivity. Qed.

Lemma ltrim_split s :
exists pre, s = (pre ++ ltrim s)%string /\ all_chars isspace pre = true.
Proof.
induction s as [|c r IH]; cbn.
- exists EmptyString. auto.
- destruct (isspace c) eqn:E.
  + destruct IH as (pre & H1 & H2). exists (String c pre).
    rewrite append_cons. cbn. rewrite E, H2. split; [f_equal; exact H1|reflexivity].
  + exists EmptyString. auto.
Qed.

Lemma ltrim_front s c r : ltrim s = String c r -> isspace c = false.
Proof.
induction s as [|d s IH]; cbn; [discriminate|].
destruct (isspace d) eqn:E; [exact IH|].
intros [= <- <-]. exact E.
Qed.

Lemma ltrim_fixed s :
(forall c r, s = String c r -> isspace c = false) -> ltrim s = s.
Proof.
destruct s as [|c r]; [reflexivity|]. intros H. cbn.
rewrite (H c r eq_refl). reflexivity.
Qed.

Lemma rtrim_split s :
exists post, s = (rtrim s ++ post)%string /\ all_chars isspace post = true.
Proof.
induction s as [|c r IH]; cbn.
- exists EmptyString. auto.
- destruct IH as (post & H1 & H2).
  destruct (isspace c && empty (rtrim r))%bool eqn:E.
  + apply andb_true_iff in E as [E1 E2].
    destruct (rtrim r); [|discriminate]. rewrite append_nil_l in H1.
    exists (String c post). rewrite append_nil_l. cbn. rewrite E1, H2.
    split; [congruence|reflexivity].
  + exists post. rewrite append_cons. split; [f_equal; exact H1|exact H2].
Qed.

Lemma rtrim_back s r c : rtrim s = (r ++ String c EmptyString)%string -> isspace c = false.
Proof.
revert r. induction s as [|d s IH]; intros r; cbn.
- destruct r; discriminate.
- destruct (isspace d && empty (rtrim s))%bool eqn:E.
  + destruct r; discriminate.
  + destruct r as [|x r].
    * rewrite append_nil_l. intros [= -> H]. rewrite H in E. cbn in E.
      rewrite andb_true_r in E. exact E.
    * rewrite append_cons. intros [= -> H]. exact (IH _ H).
Qed.

Lemma rtrim_front s c r :
rtrim s = String c r -> exists r', s = String c r'.
Proof.
destruct s as [|d s]; cbn; [discriminate|].
destruct (isspace d && empty (rtrim s))%bool; [discriminate|].
intros [= -> _]. eauto.
Qed.

Lemma rtrim_idem s : rtrim (rtrim s) = rtrim s.
Proof.
induction s as [|c r IH]; cbn; [reflexivity|].
destruct (isspace c && empty (rtrim r))%bool eqn:E; [reflexivity|].
cbn. rewrite IH, E. reflexivity.
Qed.

Lemma trim_idem s : trim (trim s) = trim s.
Proof.
unfold trim.
rewrite (ltrim_fixed (rtrim (ltrim s))).
- apply rtrim_idem.
- intros c r H. destruct (rtrim_front _ _ _ H) as [r' H'].
  exact (ltrim_front _ _ _ H').
Qed.

Lemma all_chars_rtrim_empty s : all_chars isspace s = true -> rtrim s = EmptyString.
Proof.
induction s as [|c r IH]; cbn; [reflexivity|].
intros H. apply andb_true_iff in H as [H1 H2]. rewrite (IH H2), H1. reflexivity.
Qed.

Lemma all_chars_ltrim_empty s : all_chars isspace s = true -> ltrim s = EmptyString.
Proof.
induction s as [|c r IH]; cbn; [reflexivity|].
intros H. apply andb_true_iff in H as [H1 H2]. rewrite H1. exact (IH H2).
Qed.

(** X1 ([ltrim], [rtrim], [trim]).  [trim] removes a run of white space
  at each end and nothing else: what is left neither starts nor ends
  with white space, trimming again changes nothing, and the result is
  empty exactly for a string of white space. *)
Theorem trim_spec :
forall s,
  (exists pre post,
      s = (pre ++ trim s ++ post)%string
      /\ all_chars isspace pre = true /\ all_chars isspace post = true)
  /\ (forall c r, trim s = String c r -> isspace c = false)
  /\ (forall r c, trim s = (r ++ String c EmptyString)%string -> isspace c = false)
  /\ trim (trim s) = trim s
  /\ (trim s = EmptyString <-> all_chars isspace s = true).
Proof.
intros s. split; [|split; [|split; [|split]]].
- destruct (ltrim_split s) as (pre & H1 & H2).
  destruct (rtrim_split (ltrim s)) as (post & H3 & H4).
  exists pre, post. unfold trim. rewrite <- H3. auto.
- intros c r H. unfold trim in H.
  destruct (rtrim_front _ _ _ H) as [r' H']. exact (ltrim_front _ _ _ H').
- intros r c H. exact (rtrim_back _ _ _ H).
- apply trim_idem.
- split.
  + intros H. destruct (ltrim_split s) as (pre & H1 & H2).
    destruct (rtrim_split (ltrim s)) as (post & H3 & H4).
    unfold trim in H. rewrite H in H3. rewrite append_nil_l in H3.
    rewrite H3 in H1. rewrite H1. clear -H2 H4.
    induction pre as [|c pre IH]; [exact H4|].
    rewrite append_cons. cbn in *. apply andb_true_iff in H2 as [-> H2]. exact (IH H2).
  + intros H. unfold trim. rewrite (all_chars_ltrim_empty _ H). reflexivity.
Qed.

(** split / join *)
Lemma split_from_true_cons d cur s :
exists x l, split_from d true cur s = x :: l.
Proof.
revert cur. induction s as [|c r IH]; intros cur; cbn.
- rewrite orb_true_r. eauto.
- destruct (Ascii.eqb c d); [rewrite orb_true_r; cbn; eauto|apply IH].
Qed.

Lemma join_cons2 sep p x l :
join sep (p :: x :: l) = (p ++ sep ++ join sep (x :: l))%string.
Proof. reflexivity. Qed.

Lemma split_from_join d cur s :
join (String d EmptyString) (split_from d true cur s) = (cur ++ s)%string.
Proof.
revert cur. induction s as [|c r IH]; intros cur; cbn.
- rewrite orb_true_r, append_nil_r. reflexivity.
- destruct (Ascii.eqb_spec c d) as [->|Hne].
  + rewrite orb_true_r. cbn [app].
    specialize (IH EmptyString). rewrite append_nil_l in IH.
    destruct (split_from_true_cons d EmptyString r) as (x & l & E).
    rewrite E in *. rewrite join_cons2, IH.
    rewrite append_cons, append_nil_l. reflexivity.
  + rewrite IH, append_assoc. reflexivity.
Qed.

Lemma option_map_S_None (o : option nat) : option_map S o = None <-> o = None.
Proof. destruct o; cbn; split; congruence. Qed.

Lemma find_char_app c a b :
find_char c (a ++ b)%string = None <-> find_char c a = None /\ find_char c b = None.
Proof.
induction a as [|x a IH]; [rewrite append_nil_l; cbn; tauto|].
rewrite append_cons. cbn.
destruct (Ascii.eqb x c); [split; [discriminate|intros [? _]; discriminate]|].
rewrite !option_map_S_None. exact IH.
Qed.

Lemma split_from_tokens d k cur s :
find_char d cur = None ->
Forall (fun tok => find_char d tok = None) (split_from d k cur s).
Proof.
revert cur. induction s as [|c r IH]; intros cur Hc; cbn.
- destruct (negb (empty cur) || k)%bool; auto.
- destruct (Ascii.eqb_spec c d) as [->|Hne].
  + apply Forall_app. split.
    * destruct (negb (empty cur) || k)%bool; auto.
    * apply IH. reflexivity.
  + apply IH. apply find_char_app. split; [exact Hc|].
    cbn. destruct (Ascii.eqb_spec c d); [contradiction|reflexivity].
Qed.

Lemma split_from_filter d cur s :
split_from d false cur s
= List.filter (fun tok => negb (empty tok)) (split_from d true cur s).
Proof.
revert cur. induction s as [|c r IH]; intros cur; cbn.
- rewrite orb_true_r, orb_false_r. cbn. destruct (negb (empty cur)); reflexivity.
- destruct (Ascii.eqb c d).
  + rewrite orb_true_r, orb_false_r, List.filter_app. cbn.
    rewrite IH. destruct (negb (empty cur)); reflexivity.
  + apply IH.
Qed.

Lemma split_from_length d cur s :
List.length (split_from d true cur s) = S (count_char d s).
Proof.
revert cur. induction s as [|c r IH]; intros cur; cbn.
- rewrite orb_true_r. reflexivity.
- destruct (Ascii.eqb c d).
  + rewrite orb_true_r. cbn. rewrite IH. reflexivity.
  + apply IH.
Qed.

(** X2 ([split]).  Joining the tokens of [split(sv, d, true)] with the
  delimiter gives [sv] back; there is one token more than delimiters; no
  token holds the delimiter; and without [keepEmpty] the tokens are the
  non-empty ones of the same list. *)
Theorem split_join_round_trip :
forall sv delimiter,
  join (String delimiter EmptyString) (split sv delimiter true) = sv
  /\ List.length (split sv delimiter true) = S (count_char delimiter sv)
  /\ (forall keepEmpty,
        Forall (fun tok => find_char delimiter tok = None)
               (split sv delimiter keepEmpty))
  /\ split sv delimiter false
     = List.filter (fun tok => negb (empty tok)) (split sv delimiter true).
Proof.
intros sv d. unfold split. split; [|split; [|split]].
- rewrite split_from_join. apply append_nil_l.
- apply split_from_length.
- intros k. apply split_from_tokens. reflexivity.
- apply split_from_filter.
Qed.

(** escapeJson *)

Lemma code_inj c n : N.eqb (code c) n = true -> c = ascii_of_N n.
Proof.
intros H. apply N.eqb_eq in H. unfold code in H. rewrite <- H.
symmetry. apply ascii_N_embedding.
Qed.

Lemma escapeJson_cons c r :
escapeJson (String c r)
= ((if Ascii.eqb c "\" then "\\"
    else if Ascii.eqb c dquote then String "\" (String dquote EmptyString)
    else if N.eqb (code c) 10 then "\n"
    else if N.eqb (code c) 13 then "\r"
    else if N.eqb (code c) 9 then "\t"
    else String c EmptyString) ++ escapeJson r)%string.
Proof. reflexivity. Qed.

Ltac char_cases c :=
destruct (Ascii.eqb c "\") eqn:?Eb;
[|destruct (Ascii.eqb c dquote) eqn:?Eq;
  [|destruct (N.eqb (code c) 10) eqn:?E10;
    [|destruct (N.eqb (code c) 13) eqn:?E13;
      [|destruct (N.eqb (code c) 9) eqn:?E9]]]].

Lemma unescape_escapeJson s : unescapeJson (escapeJson s) = s.
Proof.
induction s as [|c r IH]; [reflexivity|].
rewrite escapeJson_cons.
char_cases c.
- apply Ascii.eqb_eq in Eb. subst c. rewrite !append_cons, append_nil_l. cbn. rewrite IH. reflexivity.
- apply Ascii.eqb_eq in Eq. subst c. rewrite !append_cons, append_nil_l. cbn. rewrite IH. reflexivity.
- apply code_inj in E10. subst c. rewrite !append_cons, append_nil_l. cbn. rewrite IH. reflexivity.
- apply code_inj in E13. subst c. rewrite !append_cons, append_nil_l. cbn. rewrite IH. reflexivity.
- apply code_inj in E9. subst c. rewrite !append_cons, append_nil_l. cbn. rewrite IH. reflexivity.
- rewrite append_cons, append_nil_l. cbn. rewrite Eb, IH. reflexivity.
Qed.

Lemma read_escapeJson v rest :
LogParser.read_json_string (escapeJson v ++ String dquote rest)%string
= map_chars deControl v.
Proof.
induction v as [|c r IH].
- rewrite append_nil_l. cbn. reflexivity.
- rewrite escapeJson_cons, append_assoc.
  char_cases c.
  + apply Ascii.eqb_eq in Eb. subst c. rewrite !append_cons, append_nil_l. cbn. apply (f_equal2 String); [reflexivity|exact IH].
  + apply Ascii.eqb_eq in Eq. subst c. rewrite !append_cons, append_nil_l. cbn. apply (f_equal2 String); [reflexivity|exact IH].
  + apply code_inj in E10. subst c. rewrite !append_cons, append_nil_l. cbn. apply (f_equal2 String); [reflexivity|exact IH].
  + apply code_inj in E13. subst c. rewrite !append_cons, append_nil_l. cbn. apply (f_equal2 String); [reflexivity|exact IH].
  + apply code_inj in E9. subst c. rewrite !append_cons, append_nil_l. cbn. apply (f_equal2 String); [reflexivity|exact IH].
  + rewrite !append_cons, append_nil_l. cbn -[dquote]. rewrite Eb, Eq, IH.
    unfold deControl. rewrite E10, E13, E9. reflexivity.
Qed.

Lemma prefix_app a b : String.prefix a (a ++ b)%string = true.
Proof.
induction a as [|c a IH]; [destruct b; reflexivity|].
rewrite append_cons. cbn. destruct (ascii_dec c c); [exact IH|contradiction].
Qed.

Lemma string_length_app a b : String.length (a ++ b)%string = (String.length a + String.length b)%nat.
Proof. induction a as [|c a IH]; [reflexivity|]. rewrite append_cons. cbn. rewrite IH. reflexivity. Qed.

Lemma drop_chars_app a b : drop_chars (String.length a) (a ++ b)%string = b.
Proof. induction a as [|c a IH]; [reflexivity|]. rewrite append_cons. cbn. exact IH. Qed.

Lemma find_prefix needle s : String.prefix needle s = true -> find needle s = Some 0%nat.
Proof. intros H. destruct s; cbn [find]; rewrite H; reflexivity. Qed.

Lemma find_skip needle c s :
String.prefix needle (String c s) = false ->
find needle (String c s) = option_map S (find needle s).
Proof. intros H. cbn [find]. rewrite H. reflexivity. Qed.

Lemma drop_chars_S_app a c b :
drop_chars (S (String.length a)) (a ++ String c b)%string = b.
Proof. induction a as [|x a IH]; [reflexivity|]. rewrite append_cons. cbn. exact IH. Qed.

Lemma extractJsonString_object key v :
LogParser.extractJsonString (jsonObject1 key (escapeJson v)) key
= Some (map_chars deControl v).
Proof.
unfold LogParser.extractJsonString, LogParser.extractJsonRaw, jsonObject1, ReportGenerator.quoted.
set (needle := String dquote (key ++ String dquote EmptyString)%string).
set (value := (String dquote (escapeJson v) ++ String dquote EmptyString)%string).
change (String dquote key ++ String dquote EmptyString)%string with needle.
set (tail := (":" ++ value ++ "}")%string).
assert (Hf : find needle ("{" ++ needle ++ tail)%string = Some 1%nat).
{ rewrite append_cons, append_nil_l.
  rewrite find_skip by reflexivity.
  rewrite find_prefix by apply prefix_app. reflexivity. }
rewrite Hf.
assert (Hd : drop_chars (1 + String.length needle) ("{" ++ needle ++ tail)%string = tail).
{ rewrite append_cons, append_nil_l. cbn [Nat.add drop_chars]. apply drop_chars_app. }
unfold find_char_from.
replace (Nat.ltb (String.length ("{" ++ needle ++ tail)%string) (1 + String.length needle)) with false.
2:{ symmetry. apply Nat.ltb_ge. rewrite append_cons, append_nil_l. cbn [String.length].
    rewrite string_length_app. lia. }
rewrite Hd. unfold tail at 1. rewrite append_cons. cbn [find_char Ascii.eqb Bool.eqb].
cbn [option_map].
replace (drop_chars (S (1 + String.length needle + 0)) ("{" ++ needle ++ tail)%string)
  with (value ++ "}")%string.
2:{ rewrite Nat.add_0_r. rewrite append_cons, append_nil_l.
    cbn [Nat.add drop_chars]. unfold tail. rewrite append_cons, append_nil_l.
    symmetry. exact (drop_chars_S_app needle ":" (value ++ "}")%string). }
unfold value. rewrite !append_cons. cbn [ltrim].
replace (isspace dquote) with false by reflexivity.
replace (Ascii.eqb dquote dquote) with true by reflexivity.
rewrite append_assoc, append_cons, append_nil_l.
rewrite read_escapeJson. reflexivity.
Qed.

(** escapeCsv *)
Lemma needsQuoting_csvSpecial c : CsvReporter.needsQuoting c = csvSpecial c.
Proof.
unfold CsvReporter.needsQuoting, csvSpecial.
destruct (Ascii.eqb c ","), (Ascii.eqb c dquote), (N.eqb (code c) 13), (N.eqb (code c) 10); reflexivity.
Qed.

Lemma any_char_ext p q s : (forall c, p c = q c) -> any_char p s = any_char q s.
Proof. intros H. induction s as [|c r IH]; [reflexivity|]. cbn. rewrite H, IH. reflexivity. Qed.

Lemma doubleQuotes_plain s : any_char csvSpecial s = false -> doubleQuotes s = s.
Proof.
induction s as [|c r IH]; [reflexivity|]. cbn -[dquote csvSpecial]. intros H.
apply orb_false_iff in H as [H1 H2]. unfold csvSpecial in H1.
destruct (Ascii.eqb c dquote); [rewrite orb_true_r in H1; discriminate|].
rewrite (IH H2). reflexivity.
Qed.

Lemma undouble_double s :
undoubleQuotes (doubleQuotes s ++ String dquote EmptyString)%string = s.
Proof.
induction s as [|c r IH]; [reflexivity|].
cbn [doubleQuotes]. destruct (Ascii.eqb c dquote) eqn:E.
- apply Ascii.eqb_eq in E. subst c. rewrite !append_cons. cbn -[dquote].
  replace (Ascii.eqb dquote dquote) with true by reflexivity. rewrite IH. reflexivity.
- rewrite append_cons. cbn -[dquote]. rewrite E, IH. reflexivity.
Qed.

Lemma unescape_escapeCsv s : unescapeCsv (escapeCsv s) = s.
Proof.
unfold escapeCsv. destruct (any_char csvSpecial s) eqn:E.
- unfold unescapeCsv. replace (Ascii.eqb dquote dquote) with true by reflexivity.
  apply undouble_double.
- rewrite (doubleQuotes_plain _ E). destruct s as [|c r]; [reflexivity|].
  cbn -[dquote csvSpecial] in E. apply orb_false_iff in E as [E1 _]. unfold csvSpecial in E1.
  unfold unescapeCsv. destruct (Ascii.eqb c dquote); [rewrite orb_true_r in E1; discriminate|reflexivity].
Qed.

(** X5 ([escapeCsv], [CsvReporter::escapeCsvField]).  The two CSV
  escapers agree on every string; a field without comma, quote, line
  feed or carriage return is written as it is, any other one between
  quotes with its quotes doubled; and a CSV reader gets the field back. *)
Theorem escapeCsv_spec :
forall s,
  CsvReporter.escapeCsvField s = escapeCsv s
  /\ (any_char csvSpecial s = false -> escapeCsv s = s)
  /\ (any_char csvSpecial s = true ->
      exists body, escapeCsv s = String dquote (body ++ String dquote EmptyString)
                   /\ String.length body = (String.length s + count_char dquote s)%nat)
  /\ unescapeCsv (escapeCsv s) = s.
Proof.
intros s. split; [|split; [|split]].
- unfold CsvReporter.escapeCsvField, escapeCsv.
  rewrite (any_char_ext _ _ s needsQuoting_csvSpecial).
  destruct (any_char csvSpecial s) eqn:E; [reflexivity|].
  symmetry. apply doubleQuotes_plain. exact E.
- intros H. unfold escapeCsv. rewrite H. apply doubleQuotes_plain. exact H.
- intros H. unfold escapeCsv. rewrite H. exists (doubleQuotes s). split; [reflexivity|].
  clear H. induction s as [|c r IH]; [reflexivity|].
  cbn -[dquote]. destruct (Ascii.eqb c dquote); cbn -[dquote]; rewrite IH; lia.
- apply unescape_escapeCsv.
Qed.

(** escapeJsonString *)
Lemma all_chars_app p a b : all_chars p (a ++ b)%string = (all_chars p a && all_chars p b)%bool.
Proof. induction a as [|c a IH]; [reflexivity|]. rewrite append_cons. cbn. rewrite IH, andb_assoc. reflexivity. Qed.

Lemma toHex_low_above_c0 n :
(n < 32)%N -> all_chars above_c0 (JsonReporter.toHex n 4) = true.
Proof.
intros H.
assert (Hall : forallb (fun k => all_chars above_c0 (JsonReporter.toHex (N.of_nat k) 4)) (seq 0 32) = true)
  by (vm_compute; reflexivity).
rewrite forallb_forall in Hall.
specialize (Hall (N.to_nat n)). rewrite N2Nat.id in Hall. apply Hall.
apply in_seq. lia.
Qed.

Lemma escapeJsonString_above_c0 s : all_chars above_c0 (JsonReporter.escapeJsonString s) = true.
Proof.
induction s as [|c r IH]; [reflexivity|].
cbn [JsonReporter.escapeJsonString]. rewrite all_chars_app, IH, andb_true_r.
repeat match goal with
       | |- context [if ?b then _ else _] => destruct b eqn:?; [reflexivity|]
       end.
destruct (N.ltb (code c) 32) eqn:E.
- rewrite all_chars_app. cbn. apply toHex_low_above_c0. apply N.ltb_lt. exact E.
- cbn. unfold above_c0. rewrite andb_true_r. apply N.leb_le. apply N.ltb_ge in E. exact E.
Qed.

Lemma escapeJson_no_layout s :
all_chars (fun c => negb (isLayout c)) (escapeJson s) = true.
Proof.
induction s as [|c r IH]; [reflexivity|].
rewrite escapeJson_cons, all_chars_app, IH, andb_true_r.
char_cases c; try reflexivity.
cbn. unfold isLayout. rewrite E10, E13, E9. reflexivity.
Qed.

Lemma deControl_plain v :
all_chars (fun c => negb (isLayout c)) v = true -> map_chars deControl v = v.
Proof.
induction v as [|c r IH]; [reflexivity|]. cbn. intros H.
apply andb_true_iff in H as [H1 H2]. rewrite (IH H2). f_equal.
unfold isLayout in H1. unfold deControl.
destruct (N.eqb (code c) 10), (N.eqb (code c) 13), (N.eqb (code c) 9);
  try discriminate; reflexivity.
Qed.

(** X3 ([escapeJson]).  [escapeJson] loses nothing: reading the escapes
  back gives the string it was given, and its output holds no line
  feed, carriage return or tab. *)
Theorem escapeJson_invertible :
forall s,
  unescapeJson (escapeJson s) = s
  /\ all_chars (fun c => negb (isLayout c)) (escapeJson s) = true.
Proof.
intros s. split; [apply unescape_escapeJson|apply escapeJson_no_layout].
Qed.

(** X4 ([extractJsonRaw] after [escapeJson]).  The parser reads the
  member of a one-member object whatever the key and the value are, but
  what it reads of an escaped value is the value with every line feed,
  carriage return and tab turned into the letter [n], [r] or [t]: the
  reader copies the character after a backslash.  A value without these
  three characters comes back unchanged. *)
Theorem json_reader_after_writer :
forall key v,
  LogParser.extractJsonString (jsonObject1 key (escapeJson v)) key
  = Some (map_chars deControl v)
  /\ (all_chars (fun c => negb (isLayout c)) v = true ->
      LogParser.extractJsonString (jsonObject1 key (escapeJson v)) key
      = Some v).
Proof.
intros key v. split; [apply extractJsonString_object|].
intros H. rewrite extractJsonString_object, (deControl_plain v H). reflexivity.
Qed.

Lemma escapeJsonString_agrees s :
all_chars (fun c => (above_c0 c || isLayout c)%bool) s = true ->
JsonReporter.escapeJsonString s = escapeJson s.
Proof.
induction s as [|c r IH]; [reflexivity|].
cbn [all_chars]. intros H. apply andb_true_iff in H as [H1 H2].
rewrite escapeJson_cons. cbn [JsonReporter.escapeJsonString]. rewrite (IH H2).
f_equal. unfold above_c0, isLayout in H1.
destruct (Ascii.eqb c dquote) eqn:Eq.
- apply Ascii.eqb_eq in Eq. subst c. reflexivity.
- destruct (Ascii.eqb c "\") eqn:Eb; [reflexivity|].
  destruct (N.eqb (code c) 8) eqn:E8.
  { apply N.eqb_eq in E8. rewrite E8 in H1. discriminate. }
  destruct (N.eqb (code c) 12) eqn:E12.
  { apply N.eqb_eq in E12. rewrite E12 in H1. discriminate. }
  destruct (N.eqb (code c) 10); [reflexivity|].
  destruct (N.eqb (code c) 13); [reflexivity|].
  destruct (N.eqb (code c) 9); [reflexivity|].
  cbn in H1. rewrite orb_false_r in H1.
  destruct (N.ltb (code c) 32) eqn:E; [|reflexivity].
  apply N.ltb_lt in E. apply N.leb_le in H1. lia.
Qed.

Lemma escapeJsonString_copies c s :
above_c0 c = true -> c <> dquote -> c <> "\"%char ->
JsonReporter.escapeJsonString (String c s)
= String c (JsonReporter.escapeJsonString s).
Proof.
intros Hc Hq Hb. cbn [JsonReporter.escapeJsonString].
apply Ascii.eqb_neq in Hq, Hb. rewrite Hq, Hb.
unfold above_c0 in Hc. apply N.leb_le in Hc.
destruct (N.eqb_spec (code c) 8); [lia|].
destruct (N.eqb_spec (code c) 12); [lia|].
destruct (N.eqb_spec (code c) 10); [lia|].
destruct (N.eqb_spec (code c) 13); [lia|].
destruct (N.eqb_spec (code c) 9); [lia|].
destruct (N.ltb_spec (code c) 32); [lia|]. reflexivity.
Qed.

(** X6 ([JsonReporter::escapeJsonString]).  The output of
  [escapeJsonString] holds no byte below 0x20, that is none of the
  control characters U+0000 to U+001F that JSON wants escaped.  A byte
  of value 0x20 or more other than the quote and the backslash is
  copied as it is, DEL (0x7F) included.  On a string whose only bytes
  below 0x20 are line feeds, carriage returns and tabs the output is
  that of [Utils::escapeJson]. *)
Theorem escapeJsonString_spec :
forall s,
  all_chars above_c0 (JsonReporter.escapeJsonString s) = true
  /\ (forall c, above_c0 c = true -> c <> dquote -> c <> "\"%char ->
                JsonReporter.escapeJsonString (String c s)
                = String c (JsonReporter.escapeJsonString s))
  /\ JsonReporter.escapeJsonString (String (ascii_of_N 127) s)
     = String (ascii_of_N 127) (JsonReporter.escapeJsonString s)
  /\ (all_chars (fun c => (above_c0 c || isLayout c)%bool) s = true ->
      JsonReporter.escapeJsonString s = escapeJson s).
Proof.
intros s. split; [apply escapeJsonString_above_c0|].
split; [intros c; apply escapeJsonString_copies|].
split; [reflexivity|apply escapeJsonString_agrees].
Qed.

End StringProperties.

(** ** Time: what [parseTimestamp] reads, and the round trip with [toIso8601] *)

Section TimeProperties.
Import CType StringUtils TimeUtils.

Lemma parseIntField_from_digits s : forall acc,
Core.has_value (parseIntField_from acc s) = all_chars isdigit s.
Proof.
induction s as [|c r IH]; intros acc; cbn; [reflexivity|].
destruct (isdigit c); [apply IH|reflexivity].
Qed.

Lemma parseIntField_digits s :
Core.has_value (parseIntField s) = all_chars isdigit s.
Proof. apply parseIntField_from_digits. Qed.

Lemma long_string sv :
(19 <= String.length sv)%nat ->
exists c0 c1 c2 c3 c4 c5 c6 c7 c8 c9 c10 c11 c12 c13 c14 c15 c16 c17 c18 rest,
  sv = String c0 (String c1 (String c2 (String c3 (String c4 (String c5
       (String c6 (String c7 (String c8 (String c9 (String c10 (String c11
       (String c12 (String c13 (String c14 (String c15 (String c16
       (String c17 (String c18 rest)))))))))))))))))).
Proof.
intros H.
do 19 (destruct sv as [|? sv]; [cbn in H; lia|]).
repeat eexists.
Qed.

Lemma parseTimestamp_short tz sv :
(String.length sv < 19)%nat -> parseTimestamp tz sv = None.
Proof.
intros H. unfold parseTimestamp.
destruct (Nat.ltb_spec (String.length sv) 19); [reflexivity|lia].
Qed.

Lemma canonical_fields sv :
(19 <= String.length sv)%nat ->
String.length (canonicalStamp sv) = 19%nat
/\ substr (canonicalStamp sv) 0 4 = substr sv 0 4
/\ substr (canonicalStamp sv) 5 2 = substr sv 5 2
/\ substr (canonicalStamp sv) 8 2 = substr sv 8 2
/\ substr (canonicalStamp sv) 11 2 = substr sv 11 2
/\ substr (canonicalStamp sv) 14 2 = substr sv 14 2
/\ substr (canonicalStamp sv) 17 2 = substr sv 17 2.
Proof.
intros H. destruct (long_string sv H) as
  (c0&c1&c2&c3&c4&c5&c6&c7&c8&c9&c10&c11&c12&c13&c14&c15&c16&c17&c18&rest&->).
repeat split; reflexivity.
Qed.

Lemma parseTimestamp_canonical tz sv :
(19 <= String.length sv)%nat ->
parseTimestamp tz sv = parseTimestamp tz (canonicalStamp sv).
Proof.
intros H. destruct (canonical_fields sv H) as (Hl&H1&H2&H3&H4&H5&H6).
unfold parseTimestamp. rewrite Hl, H1, H2, H3, H4, H5, H6.
destruct (Nat.ltb_spec (String.length sv) 19); [lia|]. reflexivity.
Qed.

Lemma parseTimestamp_cases sv :
(19 <= String.length sv)%nat ->
(all_chars isdigit (stampDigits sv) = false /\ forall tz', parseTimestamp tz' sv = None)
\/ (all_chars isdigit (stampDigits sv) = true
    /\ exists t0, forall tz',
        parseTimestamp tz' sv = if t0 - tz' =? -1 then None else Some (t0 - tz')).
Proof.
intros H. unfold stampDigits. rewrite !all_chars_app.
rewrite <- !parseIntField_digits.
unfold parseTimestamp.
destruct (Nat.ltb_spec (String.length sv) 19); [lia|].
destruct (parseIntField (substr sv 0 4)) as [year|]; [|left; split; reflexivity].
destruct (parseIntField (substr sv 5 2)) as [month|]; [|left; split; reflexivity].
destruct (parseIntField (substr sv 8 2)) as [day|]; [|left; split; reflexivity].
destruct (parseIntField (substr sv 11 2)) as [hour|]; [|left; split; reflexivity].
destruct (parseIntField (substr sv 14 2)) as [min|]; [|left; split; reflexivity].
destruct (parseIntField (substr sv 17 2)) as [sec|]; [|left; split; reflexivity].
right. split; [reflexivity|].
exists (mktime 0 (mk_tm (year - 1900) (month - 1) day hour min sec)).
intros tz'. cbv zeta. rewrite (mktime_tz tz'). reflexivity.
Qed.

(** X7 ([parseTimestamp], [parseIntField]).  [parseTimestamp] fails on
  fewer than 19 characters and reads only the fourteen digit positions:
  the five separators and whatever follows the 19th character do not
  matter.  It succeeds only when the fourteen positions hold digits and
  [mktime] does not return [-1].  When they hold digits there is one
  instant [t0] such that, in a process whose local time is a fixed
  offset [tz'] from UTC, the result is [t0 - tz'] whenever a [TimePoint]
  can hold that instant (1677 to 2262), unless it is [-1]: within that
  range no calendar date is refused. *)
Theorem parseTimestamp_reads_digits :
forall tz sv,
  ((String.length sv < 19)%nat -> parseTimestamp tz sv = None)
  /\ ((19 <= String.length sv)%nat ->
      parseTimestamp tz sv = parseTimestamp tz (canonicalStamp sv))
  /\ (forall t, parseTimestamp tz sv = Some t ->
                (19 <= String.length sv)%nat
                /\ all_chars isdigit (stampDigits sv) = true /\ t <> -1)
  /\ ((19 <= String.length sv)%nat ->
      all_chars isdigit (stampDigits sv) = true ->
      exists t0, forall tz',
        representable (t0 - tz') = true ->
        parseTimestamp tz' sv
        = if t0 - tz' =? -1 then None else Some (t0 - tz')).
Proof.
intros tz sv. split; [apply parseTimestamp_short|].
split; [apply parseTimestamp_canonical|]. split.
- intros t Ht.
  destruct (Nat.ltb_spec (String.length sv) 19) as [Hs|Hl].
  { rewrite (parseTimestamp_short tz sv Hs) in Ht. discriminate. }
  split; [exact Hl|].
  destruct (parseTimestamp_cases sv Hl) as [[_ Hn]|[Hd (t0 & Ht0)]].
  + rewrite Hn in Ht. discriminate.
  + split; [exact Hd|]. rewrite Ht0 in Ht.
    destruct (Z.eqb_spec (t0 - tz) (-1)); [discriminate|]. injection Ht as <-. assumption.
- intros Hl Hd. destruct (parseTimestamp_cases sv Hl) as [[Hn _]|[_ H]].
  + rewrite Hn in Hd. discriminate.
  + destruct H as (t0 & H). exists t0. intros tz' _. apply H.
Qed.

End TimeProperties.

Section Calendar.
Import CType StringUtils TimeUtils.

Lemma yoe_bounds doe :
0 <= doe < 146097 ->
let yoe := (doe - doe / 1460 + doe / 36524 - doe / 146096) / 365 in
let doy := doe - (365 * yoe + yoe / 4 - yoe / 100) in
0 <= yoe <= 399 /\ 0 <= doy <= 365.
Proof.
intros H yoe doy. subst doy yoe.
Z.div_mod_to_equations; lia.
Qed.

Lemma mp_bounds doy :
0 <= doy <= 365 ->
let mp := (5 * doy + 2) / 153 in
let d := doy - (153 * mp + 2) / 5 + 1 in
0 <= mp <= 11 /\ 1 <= d <= 31.
Proof.
intros H mp d. subst d mp.
Z.div_mod_to_equations; lia.
Qed.

Lemma civil_from_days_spec z :
let '(y, m, d) := civil_from_days z in
days_from_civil y m d = z /\ 1 <= m <= 12 /\ 1 <= d <= 31.
Proof.
unfold civil_from_days.
set (z' := z + 719468).
set (era := z' / 146097).
set (doe := z' - era * 146097).
assert (Hdoe : 0 <= doe < 146097).
{ subst doe era. pose proof (Z.div_mod z' 146097 ltac:(lia)).
  pose proof (Z.mod_pos_bound z' 146097 ltac:(lia)). lia. }
pose proof (yoe_bounds doe Hdoe) as Hy. cbv zeta in Hy.
set (yoe := (doe - doe / 1460 + doe / 36524 - doe / 146096) / 365) in *.
set (doy := doe - (365 * yoe + yoe / 4 - yoe / 100)) in *.
destruct Hy as [Hyoe Hdoy].
pose proof (mp_bounds doy Hdoy) as Hm. cbv zeta in Hm.
set (mp := (5 * doy + 2) / 153) in *.
set (d := doy - (153 * mp + 2) / 5 + 1) in *.
destruct Hm as [Hmp Hd].
assert (Hera : (yoe + era * 400) / 400 = era).
{ rewrite Z.div_add by lia. rewrite Z.div_small by lia. lia. }
unfold days_from_civil.
destruct (Z.ltb_spec mp 10) as [Hlt|Hge].
- destruct (Z.leb_spec (mp + 3) 2); [lia|].
  destruct (Z.ltb_spec 2 (mp + 3)); [|lia].
  cbv zeta. rewrite Hera.
  replace (yoe + era * 400 - era * 400) with yoe by lia.
  replace (mp + 3 - 3) with mp by lia.
  subst d doy doe z'. split; [lia|]. split; lia.
- destruct (Z.leb_spec (mp - 9) 2); [|lia].
  destruct (Z.ltb_spec 2 (mp - 9)); [lia|].
  cbv zeta.
  replace (yoe + era * 400 + 1 - 1) with (yoe + era * 400) by lia.
  rewrite Hera.
  replace (yoe + era * 400 - era * 400) with yoe by lia.
  replace (mp - 9 + 9) with mp by lia.
  subst d doy doe z'. split; [lia|]. split; lia.
Qed.

Lemma days_from_civil_day y m d :
days_from_civil y m 1 + (d - 1) = days_from_civil y m d.
Proof. unfold days_from_civil. cbv zeta. lia. Qed.

Lemma all_from_spec ok n : forall z0 z,
all_from ok n z0 = true -> z0 <= z < z0 + Z.of_nat n -> ok z = true.
Proof.
induction n as [|k IH]; intros z0 z H Hz; [lia|].
cbn [all_from] in H. destruct (ok z0) eqn:E; [|discriminate].
destruct (Z.eq_dec z z0) as [->|Hne]; [exact E|].
apply (IH (z0 + 1)); [exact H|lia].
Qed.

Lemma two_digits n : 0 <= n < 100 -> two_digit_ok n = true.
Proof.
intros H. apply (all_from_spec two_digit_ok (Z.to_nat 100) 0); [vm_compute; reflexivity|rewrite Z2Nat.id; lia].
Qed.

Lemma four_digits n : 1000 <= n <= 9999 -> four_digit_ok n = true.
Proof.
intros H. apply (all_from_spec four_digit_ok (Z.to_nat 9000) 1000); [vm_compute; reflexivity|rewrite Z2Nat.id; lia].
Qed.


Lemma two_digit_text n :
0 <= n < 100 ->
exists a b, field 2 n = String a (String b EmptyString)
            /\ parseIntField (String a (String b EmptyString)) = Some n.
Proof.
intros H. pose proof (two_digits n H) as Hok. unfold two_digit_ok in Hok.
destruct (field 2 n) as [|a [|b [|? ?]]]; try discriminate.
exists a, b. split; [reflexivity|].
destruct (parseIntField (String a (String b EmptyString))) as [v|]; [|discriminate].
apply Z.eqb_eq in Hok. congruence.
Qed.

Lemma four_digit_text y :
1000 <= y <= 9999 ->
exists a b c d,
  signed y = String a (String b (String c (String d EmptyString)))
  /\ parseIntField (String a (String b (String c (String d EmptyString)))) = Some y.
Proof.
intros H. pose proof (four_digits y H) as Hok. unfold four_digit_ok in Hok.
destruct (signed y) as [|a [|b [|c [|d [|? ?]]]]]; try discriminate.
exists a, b, c, d. split; [reflexivity|].
destruct (parseIntField (String a (String b (String c (String d EmptyString))))) as [v|];
  [|discriminate].
apply Z.eqb_eq in Hok. congruence.
Qed.

(** X8 ([toIso8601], [parseTimestamp]).  In a process whose local time
  is a fixed offset [tz] from UTC, without daylight-saving rules, take
  an instant that is a whole number of seconds, that a [TimePoint] can
  hold (1677 to 2262) and whose local year has four digits.  Parsing
  its ISO rendering gives the instant back, except for the instant [-1]
  (1969-12-31 23:59:59 UTC), which [parseTimestamp] takes for the
  failure value of [mktime].  An instant with a part of a second, and
  a zone with daylight-saving rules, are outside this statement. *)
Theorem parseTimestamp_toIso8601 tz t :
representable t = true ->
1000 <= localYear tz t <= 9999 ->
parseTimestamp tz (toIso8601 tz t) = if t =? -1 then None else Some t.
Proof.
intros _. unfold localYear, toIso8601.
set (T := t + tz). set (day := T / 86400). set (s := T mod 86400).
pose proof (civil_from_days_spec day) as Hc.
destruct (civil_from_days day) as [[y m] d]. cbn [fst].
destruct Hc as (Hday & Hm & Hd). intros Hy.
assert (Hs : 0 <= s < 86400) by (subst s; apply Z.mod_pos_bound; lia).
destruct (four_digit_text y Hy) as (y1 & y2 & y3 & y4 & -> & Py).
destruct (two_digit_text m ltac:(lia)) as (m1 & m2 & -> & Pm).
destruct (two_digit_text d ltac:(lia)) as (d1 & d2 & -> & Pd).
destruct (two_digit_text (s / 3600)) as (h1 & h2 & -> & Ph).
{ Z.div_mod_to_equations; lia. }
destruct (two_digit_text (s mod 3600 / 60)) as (i1 & i2 & -> & Pi).
{ Z.div_mod_to_equations; lia. }
destruct (two_digit_text (s mod 60)) as (s1 & s2 & -> & Ps).
{ Z.div_mod_to_equations; lia. }
change (parseTimestamp tz _) with
  (match parseIntField (String y1 (String y2 (String y3 (String y4 EmptyString)))),
         parseIntField (String m1 (String m2 EmptyString)),
         parseIntField (String d1 (String d2 EmptyString)),
         parseIntField (String h1 (String h2 EmptyString)),
         parseIntField (String i1 (String i2 EmptyString)),
         parseIntField (String s1 (String s2 EmptyString)) with
   | Some year, Some month, Some day, Some hour, Some min, Some sec =>
       let t := mktime tz (mk_tm (year - 1900) (month - 1) day hour min sec) in
       if t =? -1 then None else Some t
   | _, _, _, _, _, _ => None
   end).
rewrite Py, Pm, Pd, Ph, Pi, Ps. cbv zeta.
replace (mktime tz (mk_tm (y - 1900) (m - 1) d (s / 3600) (s mod 3600 / 60) (s mod 60)))
  with t; [reflexivity|].
unfold mktime. cbn [tm_year tm_mon tm_mday tm_hour tm_min tm_sec].
replace ((m - 1) / 12) with 0 by (symmetry; apply Z.div_small; lia).
replace ((m - 1) mod 12) with (m - 1) by (symmetry; apply Z.mod_small; lia).
replace (y - 1900 + 1900 + 0) with y by lia.
replace (m - 1 + 1) with m by lia.
rewrite days_from_civil_day, Hday.
assert (s / 3600 * 3600 + s mod 3600 / 60 * 60 + s mod 60 = s)
  by (Z.div_mod_to_equations; lia).
assert (T = day * 86400 + s) by (subst day s; Z.div_mod_to_equations; lia).
subst T. lia.
Qed.

Lemma parseTimestamp_toIso8601_witness :
representable 1704067200 = true
/\ 1000 <= localYear 0 1704067200 <= 9999
/\ parseTimestamp 0 (toIso8601 0 1704067200)
   = if 1704067200 =? -1 then None else Some 1704067200.
Proof.
assert (R : representable 1704067200 = true) by reflexivity.
assert (H : 1000 <= localYear 0 1704067200 <= 9999) by (vm_compute; split; discriminate).
split; [exact R|]. split; [exact H|].
exact (parseTimestamp_toIso8601 0 1704067200 R H).
Defined.

End Calendar.

(** ** The parser: padding, results, patterns, levels and messages *)

Section LineProperties.
Import CType StringUtils Core LogParser.

Lemma ltrim_app_space pre s :
all_chars isspace pre = true -> ltrim (pre ++ s)%string = ltrim s.
Proof.
induction pre as [|c r IH]; [reflexivity|]. intros H. cbn in H.
apply andb_true_iff in H as [H1 H2]. rewrite append_cons. cbn. rewrite H1. exact (IH H2).
Qed.

Lemma rtrim_app_space s post :
all_chars isspace post = true -> rtrim (s ++ post)%string = rtrim s.
Proof.
intros H. induction s as [|c r IH].
- rewrite append_nil_l. apply all_chars_rtrim_empty. exact H.
- rewrite append_cons. cbn. rewrite IH. reflexivity.
Qed.

Lemma trim_app_space_r s post :
all_chars isspace post = true -> trim (s ++ post)%string = trim s.
Proof.
intros H. unfold trim. induction s as [|c r IH].
- rewrite append_nil_l. rewrite (all_chars_ltrim_empty _ H). reflexivity.
- rewrite append_cons. cbn [ltrim]. destruct (isspace c); [exact IH|].
  rewrite <- append_cons. apply rtrim_app_space. exact H.
Qed.

Lemma trimSv_padding pre s post :
all_chars isspace pre = true -> all_chars isspace post = true ->
trimSv (pre ++ s ++ post)%string = trimSv s.
Proof.
intros H1 H2. change trimSv with trim. unfold trim at 1.
rewrite (ltrim_app_space pre _ H1). apply (trim_app_space_r s post H2).
Qed.

Lemma parseLineDetailed_trimmed tz p raw :
parseLineDetailed tz p raw = parseLineDetailed tz p (trimSv raw).
Proof.
unfold parseLineDetailed. change (trimSv (trimSv raw)) with (trim (trim raw)).
rewrite trim_idem. reflexivity.
Qed.

(** X9 ([parseLineDetailed], [trimSv]).  The result of parsing a line
  depends on the trimmed line only: white space added at either end, a
  trailing carriage return for one, changes nothing, and a line of white
  space is malformed with the error [Empty line]. *)
Theorem parse_ignores_padding :
forall tz p raw,
  parseLineDetailed tz p raw = parseLineDetailed tz p (trimSv raw)
  /\ (forall pre post,
        all_chars isspace pre = true -> all_chars isspace post = true ->
        parseLineDetailed tz p (pre ++ raw ++ post)%string
        = parseLineDetailed tz p raw)
  /\ (all_chars isspace raw = true ->
      parseLineDetailed tz p raw = mkParseResult None false true "Empty line").
Proof.
intros tz p raw. split; [apply parseLineDetailed_trimmed|]. split.
- intros pre post H1 H2.
  rewrite (parseLineDetailed_trimmed tz p (pre ++ raw ++ post)%string).
  rewrite (trimSv_padding pre raw post H1 H2).
  symmetry. apply parseLineDetailed_trimmed.
- intros H. unfold parseLineDetailed. change (trimSv raw) with (trim raw).
  unfold trim. rewrite (all_chars_ltrim_empty _ H). reflexivity.
Qed.

Lemma tryPatterns_entry tz line patterns e :
tryPatterns tz line patterns = Some e ->
rawLine e = Some line
/\ extractTimestamp tz line = Some (timestamp e)
/\ extractLevel line = Some (level e)
/\ extractMessage line = Some (message e).
Proof.
induction patterns as [|pattern rest IH]; [discriminate|].
cbn [tryPatterns].
destruct (tryParsePattern tz line pattern) as [e'|] eqn:Hp; [|exact IH].
intros [= <-]. unfold tryParsePattern in Hp.
destruct (extractTimestamp tz line) as [ts|]; [|discriminate].
destruct (extractLevel line) as [lv|]; [|discriminate].
destruct (extractMessage line) as [msg|]; [|discriminate].
injection Hp as <-. auto.
Qed.

Lemma tryParseJsonLine_rawLine tz line e err :
tryParseJsonLine tz line = (Some e, err) -> rawLine e = Some line.
Proof.
unfold tryParseJsonLine.
destruct (or_else (or_else (extractJsonString line "timestamp") _) _);
  [|discriminate].
destruct (or_else (extractJsonString line "level") _); [|discriminate].
destruct (or_else (extractJsonString line "message") _); [|discriminate].
destruct (jsonTimestamp tz _); [|discriminate].
intros [= <- _]. reflexivity.
Qed.

Lemma tryParseJsonLine_error tz line err :
tryParseJsonLine tz line = (None, err) -> err <> EmptyString.
Proof.
unfold tryParseJsonLine.
destruct (or_else (or_else (extractJsonString line "timestamp") _) _) as [ts|];
destruct (or_else (extractJsonString line "level") _) as [lv|];
destruct (or_else (extractJsonString line "message") _) as [msg|];
try (intros [= <-]; discriminate).
destruct (jsonTimestamp tz _); [discriminate|].
intros [= <-]. discriminate.
Qed.

(** X10 ([parseLineDetailed]).  A parse result is either an entry or a
  malformed line, never both and never neither; the error text is empty
  exactly when there is an entry; [wasJson] tells that the trimmed line
  starts with a brace; and the entry keeps the trimmed line as its raw
  line and, for a text line, the timestamp, level and message that the
  three extractors find in it. *)
Theorem parse_result_consistent :
forall tz p raw,
  let r := parseLineDetailed tz p raw in
  malformed r = negb (has_value (entry r))
  /\ (error r = EmptyString <-> has_value (entry r) = true)
  /\ (wasJson r = true <-> front (trimSv raw) = Some "{"%char)
  /\ (forall e, entry r = Some e ->
                rawLine e = Some (trimSv raw)
                /\ (wasJson r = false ->
                    extractTimestamp tz (trimSv raw) = Some (timestamp e)
                    /\ extractLevel (trimSv raw) = Some (level e)
                    /\ extractMessage (trimSv raw) = Some (message e))).
Proof.
intros tz p raw. cbv zeta. unfold parseLineDetailed.
set (trimmed := trimSv raw).
destruct trimmed as [|c rest] eqn:Et.
{ cbn. split; [reflexivity|]. split; [split; discriminate|].
  split; [split; discriminate|]. intros e H; discriminate. }
cbn [empty front].
destruct (Ascii.eqb_spec c "{") as [->|Hne].
- destruct (tryParseJsonLine tz (String "{" rest)) as [[e|] err] eqn:Ej;
    cbn [entry malformed error wasJson has_value negb].
  + split; [reflexivity|]. split; [tauto|]. split; [tauto|].
    intros e' [= <-]. split; [|discriminate].
    exact (tryParseJsonLine_rawLine _ _ _ _ Ej).
  + split; [reflexivity|]. split.
    * split; [|discriminate]. intros H. exfalso.
      pose proof (tryParseJsonLine_error _ _ _ Ej) as Hn.
      destruct err; [contradiction|discriminate].
    * split; [tauto|]. intros e H; discriminate.
- assert (Hf : Some c = Some "{"%char -> False) by (intros [= ->]; contradiction).
  destruct (tryPatterns tz (String c rest) (m_patterns p)) as [e|] eqn:Ep;
    cbn [entry malformed error wasJson has_value negb].
  + split; [reflexivity|]. split; [tauto|].
    split; [split; [discriminate|intros H; exfalso; exact (Hf H)]|].
    intros e' [= <-]. destruct (tryPatterns_entry _ _ _ _ Ep) as (H1&H2&H3&H4). auto.
  + split; [reflexivity|]. split; [split; discriminate|].
    split; [split; [discriminate|intros H; exfalso; exact (Hf H)]|].
    intros e H; discriminate.
Qed.

Lemma tryPatterns_any tz line patterns :
patterns <> [] ->
tryPatterns tz line patterns = tryParsePattern tz line EmptyString.
Proof.
induction patterns as [|pat rest IH]; [contradiction|]. intros _.
cbn [tryPatterns]. change (tryParsePattern tz line pat) with (tryParsePattern tz line EmptyString).
destruct (tryParsePattern tz line EmptyString) eqn:E; [reflexivity|].
destruct rest as [|pat' rest']; [reflexivity|].
rewrite IH by discriminate. reflexivity.
Qed.

Lemma parseLineDetailed_patterns tz p q raw :
m_patterns p <> [] -> m_patterns q <> [] ->
parseLineDetailed tz p raw = parseLineDetailed tz q raw.
Proof.
intros Hp Hq. unfold parseLineDetailed.
rewrite (tryPatterns_any tz _ _ Hp), (tryPatterns_any tz _ _ Hq). reflexivity.
Qed.

(** X11 ([addPattern], [clearPatterns], [tryParsePattern]).  The pattern
  list only matters by being empty or not: a parser with an added
  pattern parses every line as the default parser does, JSON lines never
  look at the patterns, and after [clearPatterns] no text line parses. *)
Theorem patterns_are_ignored :
forall tz p pattern raw,
  parseLineDetailed tz (addPattern p pattern) raw
  = parseLineDetailed tz new raw
  /\ (wasJson (parseLineDetailed tz p raw) = true ->
      parseLineDetailed tz p raw = parseLineDetailed tz new raw)
  /\ (wasJson (parseLineDetailed tz (clearPatterns p) raw) = false ->
      entry (parseLineDetailed tz (clearPatterns p) raw) = None).
Proof.
intros tz p pattern raw. split; [|split].
- apply parseLineDetailed_patterns; [|discriminate].
  unfold addPattern. cbn. destruct (m_patterns p); discriminate.
- unfold parseLineDetailed. destruct (empty (trimSv raw)); [reflexivity|].
  destruct (match front (trimSv raw) with
            | Some c => Ascii.eqb c "{" | None => false end); [reflexivity|].
  destruct (tryPatterns tz (trimSv raw) (m_patterns p)); discriminate.
- unfold parseLineDetailed, clearPatterns. cbn [m_patterns tryPatterns].
  destruct (empty (trimSv raw)); [reflexivity|].
  destruct (match front (trimSv raw) with
            | Some c => Ascii.eqb c "{" | None => false end); [|reflexivity].
  destruct (tryParseJsonLine tz (trimSv raw)) as [[e|] err]; cbn; [discriminate|reflexivity].
Qed.

(** Level detection *)
Lemma toupper_tolower c : toupper (tolower c) = toupper c.
Proof. destruct c as [[] [] [] [] [] [] [] []]; reflexivity. Qed.

Lemma toupper_idem c : toupper (toupper c) = toupper c.
Proof. destruct c as [[] [] [] [] [] [] [] []]; reflexivity. Qed.

Lemma toUpper_toLower s : toUpper (toLower s) = toUpper s.
Proof.
unfold toUpper, toLower. induction s as [|c r IH]; [reflexivity|].
cbn. rewrite toupper_tolower, IH. reflexivity.
Qed.

Lemma toUpper_idem s : toUpper (toUpper s) = toUpper s.
Proof.
unfold toUpper. induction s as [|c r IH]; [reflexivity|].
cbn. rewrite toupper_idem, IH. reflexivity.
Qed.

Lemma prefix_app_l a b s :
String.prefix (a ++ b)%string s = true -> String.prefix a s = true.
Proof.
revert s. induction a as [|c a IH]; intros s; [destruct s; reflexivity|].
rewrite append_cons. destruct s as [|d s]; [discriminate|]. cbn.
destruct (ascii_dec c d); [apply IH|discriminate].
Qed.

Lemma find_prefix_app a b s :
find (a ++ b)%string s <> None -> find a s <> None.
Proof.
induction s as [|c r IH].
- cbn [find]. destruct (String.prefix (a ++ b)%string EmptyString) eqn:P; [|contradiction].
  rewrite (prefix_app_l _ _ _ P). discriminate.
- cbn [find]. destruct (String.prefix (a ++ b)%string (String c r)) eqn:P.
  + rewrite (prefix_app_l _ _ _ P). discriminate.
  + destruct (String.prefix a (String c r)); [discriminate|].
    intros H. destruct (find (a ++ b)%string r); [|contradiction].
    specialize (IH ltac:(discriminate)).
    destruct (find a r); [discriminate|contradiction].
Qed.

Lemma contains_prefix a b s :
contains s (a ++ b)%string = true -> contains s a = true.
Proof.
unfold contains. destruct (empty a) eqn:Ea; [reflexivity|].
destruct (empty (a ++ b)%string) eqn:Eab.
{ destruct a; [discriminate|]. rewrite append_cons in Eab. discriminate. }
intros H. pose proof (find_prefix_app a b s) as Hf.
destruct (find (a ++ b)%string s); [|discriminate].
specialize (Hf ltac:(discriminate)). destruct (find a s); [reflexivity|contradiction].
Qed.

(** X12 ([extractLevel]).  Level detection never fails and does not
  depend on the case of the line.  It is [Unknown] exactly when no level
  name occurs anywhere in the line, and the names are tried in a fixed
  order over the whole line: a line that holds [INFO] anywhere is never
  classified above [Info], and [Warn] needs [WARN] without [TRACE],
  [DEBUG] and [INFO]. *)
Theorem extractLevel_spec :
forall line,
  exists l,
    extractLevel line = Some l
    /\ extractLevel (toLower line) = Some l
    /\ extractLevel (toUpper line) = Some l
    /\ (l = Unknown
        <-> forallb (fun k => negb (contains (toUpper line) k)) levelKeywords
            = true)
    /\ (contains (toUpper line) "INFO" = true ->
        l = Trace \/ l = Debug \/ l = Info)
    /\ (l = Warn <->
        contains (toUpper line) "WARN" = true
        /\ contains (toUpper line) "TRACE" = false
        /\ contains (toUpper line) "DEBUG" = false
        /\ contains (toUpper line) "INFO" = false).
Proof.
intros line. exists (scanLevels (toUpper line) levelMap).
unfold extractLevel. rewrite toUpper_toLower, toUpper_idem.
split; [reflexivity|]. split; [reflexivity|]. split; [reflexivity|].
set (U := toUpper line). cbn [scanLevels levelMap levelKeywords forallb].
assert (Hw : contains U "WARNING" = true -> contains U "WARN" = true).
{ apply (contains_prefix "WARN" "ING"). }
destruct (contains U "TRACE"), (contains U "DEBUG"), (contains U "INFO"),
  (contains U "WARN") eqn:EW, (contains U "WARNING") eqn:EG, (contains U "ERROR"),
  (contains U "FATAL"), (contains U "CRITICAL");
  cbn; try (specialize (Hw eq_refl); discriminate);
  (split; [split; (discriminate || reflexivity)|]);
  (split; [intros; first [discriminate | tauto]|]);
  (split; [intros; first [discriminate | tauto] | intros (?&?&?&?); first [discriminate | reflexivity]]).
Qed.

(** The message of a text line *)
Lemma split_from_token d cur w rest :
find_char d w = None ->
split_from d true cur (w ++ String d rest)%string
= (cur ++ w)%string :: split_from d true EmptyString rest.
Proof.
revert cur. induction w as [|c w IH]; intros cur Hw.
- rewrite append_nil_l, append_nil_r. cbn [split_from].
  rewrite Ascii.eqb_refl, orb_true_r. reflexivity.
- cbn in Hw. destruct (Ascii.eqb c d) eqn:E; [discriminate|].
  apply (proj1 (option_map_S_None _)) in Hw.
  rewrite append_cons. cbn [split_from]. rewrite E. rewrite (IH _ Hw).
  rewrite append_assoc. reflexivity.
Qed.

(** X13 ([extractMessage]).  The message of a text line is what follows
  the second space of the text after the 20-character timestamp prefix:
  the two words before it are dropped, and the line has a message
  exactly when something is left after them. *)
Theorem extractMessage_spec :
forall line msg,
  extractMessage line = Some msg
  <-> msg <> EmptyString
      /\ exists w1 w2,
          remainingText line = (w1 ++ " " ++ w2 ++ " " ++ msg)%string
          /\ find_char " " w1 = None /\ find_char " " w2 = None.
Proof.
intros line msg. unfold extractMessage. fold (remainingText line).
set (R := remainingText line).
assert (Hj : join " " (split R " " true) = R)
  by (unfold split; rewrite split_from_join; apply append_nil_l).
assert (Ht : Forall (fun tok => find_char " " tok = None) (split R " " true))
  by (unfold split; apply split_from_tokens; reflexivity).
split.
- destruct (split R " " true) as [|w1 [|w2 [|w3 rest]]] eqn:Es;
    cbn [List.length Nat.ltb Nat.leb empty]; try discriminate.
  cbn [skipn].
  destruct (join " " (w3 :: rest)) as [|c m] eqn:Em; cbn [empty]; [discriminate|].
  intros [= <-]. split; [discriminate|].
  exists w1, w2. rewrite !join_cons2, Em in Hj.
  inversion Ht as [|? ? H1 Ht']. inversion Ht' as [|? ? H2 _]. subst.
  split; [|split; assumption].
  symmetry. exact Hj.
- intros (Hne & w1 & w2 & HR & H1 & H2).
  unfold split. rewrite HR.
  change (w1 ++ " " ++ w2 ++ " " ++ msg)%string
    with (w1 ++ String " " (w2 ++ String " " msg))%string.
  rewrite (split_from_token _ _ _ _ H1), (split_from_token _ _ _ _ H2).
  rewrite !append_nil_l.
  destruct (split_from_true_cons " " EmptyString msg) as (x & l & E).
  pose proof (split_from_join " " EmptyString msg) as Hm.
  rewrite append_nil_l in Hm. rewrite E in *.
  cbn [List.length Nat.ltb Nat.leb skipn]. rewrite Hm.
  destruct msg; [contradiction|reflexivity].
Qed.

End LineProperties.

(** ** [TimeWindowAnalyzer]: what the buckets keep true *)

Section WindowInvariants.
Import Core TimeWindowAnalyzer.

Lemma chained_tl l : chained l -> chained (List.tl l).
Proof. destruct l as [|b1 [|b2 r]]; cbn; tauto. Qed.

Lemma chained_snoc l b c :
chained (l ++ [b]) -> b_end b = b_start c -> chained ((l ++ [b]) ++ [c]).
Proof.
induction l as [|x l IH]; cbn [List.app chained]; [tauto|].
destruct (l ++ [b]) as [|y r] eqn:E; [destruct l; discriminate|].
cbn [List.app]. intros [H1 H2] H3. split; [exact H1|].
exact (IH H2 H3).
Qed.

Lemma chained_replace_last l b c :
chained (l ++ [b]) -> b_start c = b_start b -> chained (l ++ [c]).
Proof.
induction l as [|x l IH]; cbn [List.app chained]; [tauto|].
destruct l as [|y r].
- cbn [List.app] in *. intros [H1 _] H2. split; [congruence|exact I].
- cbn [List.app] in *. intros [H1 H2] H3. split; [exact H1|]. exact (IH H2 H3).
Qed.

Lemma pushHistory_inv a b :
m_maxHistoryWindows a = 12%nat ->
(List.length (m_windowHistory a) <= 12)%nat ->
Forall (bucket_ok 60) (m_windowHistory a) -> bucket_ok 60 b ->
(List.length (pushHistory a b) <= 12)%nat
/\ Forall (bucket_ok 60) (pushHistory a b)
/\ (forall c, chained (m_windowHistory a ++ [b]) -> b_end b = b_start c ->
              chained (pushHistory a b ++ [c])).
Proof.
intros Hm Hl Hf Hb. unfold pushHistory. rewrite Hm.
assert (Hf' : Forall (bucket_ok 60) (m_windowHistory a ++ [b]))
  by (apply Forall_app; split; [exact Hf|constructor; [exact Hb|constructor]]).
assert (Hlen : List.length (m_windowHistory a ++ [b]) = S (List.length (m_windowHistory a)))
  by (rewrite List.length_app; cbn; lia).
destruct (Nat.ltb_spec 12 (List.length (m_windowHistory a ++ [b]))) as [Hgt|Hle].
- destruct (m_windowHistory a ++ [b]) as [|x r] eqn:E; [cbn in Hgt; lia|].
  cbn [List.tl]. split; [cbn in Hlen; lia|]. split; [inversion Hf'; assumption|].
  intros c Hc He.
  assert (H := chained_snoc (m_windowHistory a) b c).
  rewrite E in H. specialize (H Hc He). cbn [List.app] in H.
  exact (chained_tl _ H).
- split; [exact Hle|]. split; [exact Hf'|].
  intros c Hc He. exact (chained_snoc _ _ _ Hc He).
Qed.

Lemma empty_bucket_ok s : bucket_ok 60 (mkTimeBucket s (s + 60) [] ∅).
Proof.
split; [reflexivity|]. split; [constructor|]. intros src. reflexivity.
Qed.

Lemma advanceOnce_inv a :
window_invariant a -> m_initialized a = true -> 
window_invariant (advanceOnce a) /\ m_initialized (advanceOnce a) = true.
Proof.
intros (Hw & Hm & Hl & Hf & Hc & Hi) Hinit. rewrite Hinit in Hi.
destruct (pushHistory_inv a (m_currentWindow a) Hm Hl Hf Hi) as (P1 & P2 & P3).
unfold advanceOnce, with_windows. split; [|exact Hinit].
unfold window_invariant. cbn [m_windowSize m_maxHistoryWindows m_windowHistory m_currentWindow m_initialized].
rewrite Hinit, Hw.
split; [reflexivity|]. split; [exact Hm|]. split; [exact P1|]. split; [exact P2|].
split; [apply P3; [exact Hc|reflexivity]|]. apply empty_bucket_ok.
Qed.

Lemma advanceLoop_inv fuel ts : forall a a',
window_invariant a -> m_initialized a = true ->
advanceLoop fuel ts a = Some a' ->
window_invariant a' /\ m_initialized a' = true
/\ ts < b_end (m_currentWindow a').
Proof.
induction fuel as [|k IH]; intros a a' Hinv Hi; cbn [advanceLoop].
- destruct (Z.leb_spec (b_end (m_currentWindow a)) ts); [discriminate|].
  intros [= <-]. auto.
- destruct (Z.leb_spec (b_end (m_currentWindow a)) ts).
  + destruct (advanceOnce_inv a Hinv Hi) as [H1 H2]. apply IH; assumption.
  + intros [= <-]. auto.
Qed.

Lemma evict_nothing b :
Forall (fun ev => b_start b <= te_timestamp ev < b_end b) (b_events b) ->
evictOldEvents b = b.
Proof.
intros H. unfold evictOldEvents. destruct b as [s e evs cs]. cbn in *.
destruct evs as [|ev rest]; [reflexivity|]. cbn [evictOldEvents_from].
inversion H as [|? ? H1 _]. subst.
destruct (Z.ltb_spec (te_timestamp ev) s); [lia|reflexivity].
Qed.

Lemma eventsOf_snoc src s e evs cs ev cs' :
eventsOf src (mkTimeBucket s e (evs ++ [ev]) cs')
= (eventsOf src (mkTimeBucket s e evs cs)
   + if String.eqb (te_source ev) src then 1 else 0)%N.
Proof.
unfold eventsOf. cbn [b_events]. rewrite List.filter_app, List.length_app. cbn [List.filter].
destruct (String.eqb (te_source ev) src); cbn [List.length]; lia.
Qed.

Lemma addEventUnlocked_inv a entry a' :
window_invariant a -> addEventUnlocked a entry = Some a' ->
window_invariant a' /\ m_initialized a' = true.
Proof.
intros Hinv. unfold addEventUnlocked.
set (ts := timestamp entry).
set (a0 := if m_initialized a then a else _).
assert (H0 : window_invariant a0 /\ m_initialized a0 = true).
{ subst a0. destruct (m_initialized a) eqn:Hi; [auto|].
  destruct Hinv as (Hw & Hm & Hl & Hf & Hc & Hi'). rewrite Hi in Hi'.
  destruct Hi' as (Hh & He & Hs).
  split; [|reflexivity]. unfold window_invariant, with_windows.
  cbn [m_windowSize m_maxHistoryWindows m_windowHistory m_currentWindow m_initialized].
  rewrite Hh, He, Hs, Hw. cbn [List.length List.app chained].
  repeat split; try lia; try constructor; try assumption. }
destruct H0 as [Hinv0 Hi0].
destruct (advanceLoop _ ts a0) as [a1|] eqn:Hl; [|discriminate].
destruct (advanceLoop_inv _ _ _ _ Hinv0 Hi0 Hl) as (Hinv1 & Hi1 & Hlt).
destruct (Z.ltb_spec ts (b_start (m_currentWindow a1))) as [Hlate|Hin].
- intros [= <-]. auto.
- intros [= <-]. split; [|exact Hi1].
  destruct Hinv1 as (Hw & Hm & Hl1 & Hf & Hc & Hb). rewrite Hi1 in Hb.
  destruct Hb as (Hb1 & Hb2 & Hb3).
  set (src := value_or (source entry) EmptyString).
  set (cur := m_currentWindow a1) in *.
  set (cur' := mkTimeBucket (b_start cur) (b_end cur)
                 (b_events cur ++ [mkTimedEvent ts (level entry) src])
                 (<[src := (default 0 (b_sourceCounts cur !! src) + 1)%N]>
                    (b_sourceCounts cur))).
  assert (Hok : bucket_ok 60 cur').
  { split; [exact Hb1|]. split.
    - cbn [b_events cur' b_start b_end]. apply Forall_app. split; [exact Hb2|].
      constructor; [cbn; lia|constructor].
    - intros s. unfold cur'. 
      rewrite (eventsOf_snoc s _ _ (b_events cur) (b_sourceCounts cur)).
      cbn [b_sourceCounts te_source].
      replace (eventsOf s (mkTimeBucket (b_start cur) (b_end cur) (b_events cur) (b_sourceCounts cur)))
        with (eventsOf s cur) by reflexivity.
      rewrite <- Hb3.
      destruct (String.eqb_spec src s) as [->|Hne].
      + rewrite lookup_insert_eq. cbn. reflexivity.
      + rewrite lookup_insert_ne by exact Hne. lia. }
  rewrite (evict_nothing cur') by (destruct Hok as (_ & H & _); exact H).
  unfold window_invariant, with_windows.
  cbn [m_windowSize m_maxHistoryWindows m_windowHistory m_currentWindow m_initialized].
  rewrite Hi1. repeat split; try assumption.
  + apply (chained_replace_last _ cur cur' Hc). reflexivity.
  + destruct Hok as (_ & H & _); exact H.
  + destruct Hok as (_ & _ & H); exact H.
Qed.

Lemma new_invariant : window_invariant new.
Proof.
unfold window_invariant. cbn. repeat split; try lia; constructor.
Qed.

Lemma addEntries_inv entries : forall a a',
window_invariant a -> addEntries a entries = Some a' -> window_invariant a'.
Proof.
induction entries as [|e rest IH]; intros a a' Hinv; cbn [addEntries].
- intros [= <-]. exact Hinv.
- unfold addEntry. destruct (addEventUnlocked a e) as [a1|] eqn:H1; [|discriminate].
  destruct (addEventUnlocked_inv _ _ _ Hinv H1) as [H2 _]. apply IH. exact H2.
Qed.

Lemma addEntries_total entries : forall a,
window_invariant a -> exists a', addEntries a entries = Some a'.
Proof.
induction entries as [|e rest IH]; intros a Hinv; cbn [addEntries]; [eauto|].
unfold addEntry.
destruct (addEventUnlocked_terminates a e) as (a1 & H1 & _).
{ destruct Hinv as (Hw & _). rewrite Hw. lia. }
rewrite H1. apply IH. exact (proj1 (addEventUnlocked_inv _ _ _ Hinv H1)).
Qed.

Lemma addEntries_initialized entries : forall a a',
window_invariant a -> entries <> [] -> addEntries a entries = Some a' ->
m_initialized a' = true.
Proof.
induction entries as [|e rest IH]; intros a a' Hinv Hne; [contradiction|].
cbn [addEntries]. unfold addEntry.
destruct (addEventUnlocked a e) as [a1|] eqn:H1; [|discriminate].
destruct (addEventUnlocked_inv _ _ _ Hinv H1) as [H2 H3].
destruct rest as [|e2 rest2].
- cbn. intros [= <-]. exact H3.
- apply IH; [exact H2|discriminate].
Qed.


End WindowInvariants.

(** ** [TimeWindowAnalyzer]: scores *)

Section WindowReview.
Import Core TimeWindowAnalyzer.


Lemma min_one_saturates x : (1 <= x)%Q -> Double.min 1 x = 1%Q.
Proof.
intros H. unfold Double.min, Double.ltb.
apply Qle_bool_iff in H. rewrite H. reflexivity.
Qed.

Lemma calculateStats_bounds b :
totalEvents (calculateStats b) = List.length (b_events b)
/\ (errorEvents (calculateStats b) <= totalEvents (calculateStats b))%nat
/\ (0 <= errorRate (calculateStats b) <= 1)%Q.
Proof.
unfold calculateStats. cbn [totalEvents errorEvents errorRate].
set (n := List.length (b_events b)).
set (k := List.length (List.filter isErrorEvent (b_events b))).
assert (Hk : (k <= n)%nat) by apply List.filter_length_le.
split; [reflexivity|]. split; [exact Hk|].
destruct (Nat.ltb_spec 0 n) as [Hn|Hn]; [|split; discriminate].
unfold Double.of_nat.
assert (H0 : (0 < inject_Z (Z.of_nat n))%Q).
{ change 0%Q with (inject_Z 0). rewrite <- Zlt_Qlt. lia. }
split.
- apply Qle_shift_div_l; [exact H0|]. rewrite Qmult_0_l.
  change 0%Q with (inject_Z 0). rewrite <- Zle_Qle. lia.
- apply Qle_shift_div_r; [exact H0|]. rewrite Qmult_1_l.
  rewrite <- Zle_Qle. lia.
Qed.

(** X15 ([checkBurst], [checkSilence], [checkErrorSpike]).  Whenever the
  burst check builds an anomaly its score is exactly 1, and so for the
  silence check (threshold not negative) and for the error-rate check
  (threshold at least one half, as by default): each condition that
  fires puts the quotient above 1, where [min] cuts it.  The driver maps
  such a score to the severity [High]. *)
Theorem window_scores_saturate :
forall tz a uninit b,
  (checkBurst a uninit b = defaultAnomaly uninit
   \/ score (checkBurst a uninit b) = 1%Q)
  /\ (0 <= m_silenceThreshold a ->
      checkSilence a uninit b = defaultAnomaly uninit
      \/ score (checkSilence a uninit b) = 1%Q)
  /\ ((1 # 2 <= m_errorRateThreshold a)%Q ->
      checkErrorSpike tz a uninit b = defaultAnomaly uninit
      \/ score (checkErrorSpike tz a uninit b) = 1%Q)
  /\ (forall x, score x = 1%Q ->
                a_severity (Pipeline.timeWindowToAnomaly x) = High).
Proof.
intros tz a uninit b. split; [|split; [|split]].
- unfold checkBurst.
  destruct (Nat.ltb_spec (m_burstThreshold a) (totalEvents (calculateStats b))) as [H|H];
    [right|left; reflexivity].
  cbn [score]. destruct (m_burstThreshold a) as [|k] eqn:E; [reflexivity|].
  apply min_one_saturates. unfold Double.of_nat.
  apply Qle_shift_div_l.
  + change 0%Q with (inject_Z 0). rewrite <- Zlt_Qlt. lia.
  + rewrite Qmult_1_l. rewrite <- Zle_Qle. lia.
- intros Hs. unfold checkSilence.
  destruct (List.last _ None) as [prev|]; [|left; reflexivity].
  destruct (Z.ltb_spec (m_silenceThreshold a) (TimeUtils.diffSeconds (b_end prev) (b_start b)))
    as [H|H]; [right|left; reflexivity].
  cbn [score]. destruct (Z.eqb_spec (m_silenceThreshold a) 0) as [E|E]; [reflexivity|].
  apply min_one_saturates. unfold Double.of_Z.
  apply Qle_shift_div_l.
  + change 0%Q with (inject_Z 0). rewrite <- Zlt_Qlt. lia.
  + rewrite Qmult_1_l. rewrite <- Zle_Qle. lia.
- intros Ht. unfold checkErrorSpike.
  destruct (Double.gtb (errorRate (calculateStats b)) (m_errorRateThreshold a)) eqn:G;
    [right|left; reflexivity].
  cbn [score]. apply min_one_saturates.
  unfold Double.gtb, Double.ltb in G. apply negb_true_iff in G.
  assert (Hlt : (m_errorRateThreshold a < errorRate (calculateStats b))%Q).
  { apply Qnot_le_lt. intros Hle. apply Qle_bool_iff in Hle. congruence. }
  assert (Hh : (1 # 2 < errorRate (calculateStats b))%Q)
    by (eapply Qle_lt_trans; eassumption).
  apply Qle_trans with ((1 # 2) * 2)%Q; [unfold Qle; cbn; lia|].
  apply Qmult_le_compat_r; [apply Qlt_le_weak; exact Hh|discriminate].
- intros x Hx. unfold Pipeline.timeWindowToAnomaly. cbn [a_severity].
  rewrite Hx. reflexivity.
Qed.

End WindowReview.

(** ** Numbers in text *)

Section DigitStrings.
Import CType StringUtils TimeUtils.

Lemma all_chars_impl (p q : ascii -> bool) s :
(forall c, p c = true -> q c = true) ->
all_chars p s = true -> all_chars q s = true.
Proof.
intros H. induction s as [|c r IH]; [reflexivity|]. cbn.
intros [H1 H2]%andb_true_iff. rewrite (H c H1), (IH H2). reflexivity.
Qed.

Lemma digit_char n : isdigit (ascii_of_N (Z.to_N (n mod 10) + 48)) = true.
Proof.
pose proof (Z.mod_pos_bound n 10 ltac:(lia)) as H.
assert (Hc : n mod 10 = 0 \/ n mod 10 = 1 \/ n mod 10 = 2 \/ n mod 10 = 3
             \/ n mod 10 = 4 \/ n mod 10 = 5 \/ n mod 10 = 6 \/ n mod 10 = 7
             \/ n mod 10 = 8 \/ n mod 10 = 9) by lia.
repeat (destruct Hc as [-> | Hc]; [reflexivity|]). rewrite Hc. reflexivity.
Qed.

Lemma digits_from_digits fuel : forall n acc,
all_chars isdigit acc = true -> all_chars isdigit (digits_from fuel n acc) = true.
Proof.
induction fuel as [|k IH]; intros n acc H; cbn [digits_from]; [exact H|].
assert (H' : all_chars isdigit (String (ascii_of_N (Z.to_N (n mod 10) + 48)) acc) = true)
  by (cbn [all_chars]; rewrite digit_char, H; reflexivity).
destruct (n / 10 =? 0); [exact H'|apply IH; exact H'].
Qed.

Lemma decimal_digits n : all_chars isdigit (decimal n) = true.
Proof. apply digits_from_digits. reflexivity. Qed.

Lemma pad_left_digits w : forall s,
all_chars isdigit s = true -> all_chars isdigit (pad_left w s) = true.
Proof.
induction w as [|k IH]; intros s H; cbn [pad_left].
- destruct (Nat.ltb _ _); exact H.
- destruct (Nat.ltb _ _); [|exact H]. cbn [all_chars]. rewrite (IH s H). reflexivity.
Qed.

Lemma field_digits w n : all_chars isdigit (field w n) = true.
Proof. apply pad_left_digits, decimal_digits. Qed.

Lemma digits_numeric s : all_chars isdigit s = true -> all_chars numeric s = true.
Proof. apply all_chars_impl. intros c H. unfold numeric. rewrite H. reflexivity. Qed.

Lemma signed_numeric z : all_chars numeric (signed z) = true.
Proof.
unfold signed. destruct (z <? 0).
- rewrite append_cons, append_nil_l. cbn [all_chars].
  rewrite (digits_numeric _ (decimal_digits _)). reflexivity.
- apply digits_numeric, decimal_digits.
Qed.

Lemma show_nat_numeric n : all_chars numeric (show_nat n) = true.
Proof. apply digits_numeric, decimal_digits. Qed.

Lemma format_fixed_numeric prec q : all_chars numeric (Double.format_fixed prec q) = true.
Proof.
unfold Double.format_fixed. cbv zeta.
rewrite !all_chars_app.
rewrite (digits_numeric _ (decimal_digits _)).
assert (Hs : all_chars numeric (if Double.ltb q 0 then "-" else "") = true)
  by (destruct (Double.ltb q 0); reflexivity).
rewrite Hs. destruct prec as [|k]; [reflexivity|].
rewrite append_cons, append_nil_l. cbn [all_chars andb].
rewrite (digits_numeric _ (field_digits _ _)). reflexivity.
Qed.

End DigitStrings.

(** ** [TimeWindowAnalyzer]: silence is never reported; late entries *)

Section NoSilence.
Import CType StringUtils TimeUtils Core TimeWindowAnalyzer.

Lemma no_S_not_found s :
all_chars notCapitalS s = true -> LogParser.found s "Silence" = false.
Proof.
unfold LogParser.found. intros H.
assert (Hf : find "Silence" s = None).
{ induction s as [|c r IH]; [reflexivity|].
  cbn [all_chars] in H. apply andb_true_iff in H as [H1 H2].
  cbn [find String.prefix].
  destruct (ascii_dec "S" c) as [<-|Hne]; [discriminate|].
  rewrite (IH H2). reflexivity. }
rewrite Hf. reflexivity.
Qed.

Lemma numeric_notS s : all_chars numeric s = true -> all_chars notCapitalS s = true.
Proof.
apply all_chars_impl. intros c. unfold numeric, notCapitalS, isdigit.
destruct (Ascii.eqb_spec c "S") as [->|]; [discriminate|reflexivity].
Qed.

Lemma formatHMS_notS tz tp : all_chars notCapitalS (formatHMS tz tp) = true.
Proof.
unfold formatHMS. cbv zeta. rewrite !all_chars_app.
rewrite !(numeric_notS _ (digits_numeric _ (field_digits _ _))). reflexivity.
Qed.

Lemma checkErrorSpike_notS tz a u b :
all_chars notCapitalS (description (checkErrorSpike tz a u b)) = true.
Proof.
unfold checkErrorSpike. destruct (Double.gtb _ _); [|reflexivity].
cbn [description]. rewrite !all_chars_app, !formatHMS_notS.
rewrite (numeric_notS _ (format_fixed_numeric _ _)). reflexivity.
Qed.

Lemma checkBurst_notS a u b :
all_chars notCapitalS (description (checkBurst a u b)) = true.
Proof.
unfold checkBurst. destruct (Nat.ltb _ _); [|reflexivity].
cbn [description]. rewrite !all_chars_app.
rewrite (numeric_notS _ (show_nat_numeric _)).
unfold show_Z. rewrite (numeric_notS _ (signed_numeric _)). reflexivity.
Qed.

Lemma checkHistory_notS tz a uninit history : forall k,
Forall (fun x => all_chars notCapitalS (description x) = true)
       (checkHistory tz a uninit k history).
Proof.
induction history as [|w rest IH]; intros k; cbn [checkHistory]; [constructor|].
repeat (apply Forall_app; split).
- apply Forall_pushIfScored, checkErrorSpike_notS.
- apply Forall_pushIfScored, checkBurst_notS.
- apply IH.
Qed.

Lemma detectAnomalies_notS tz a uninit :
contiguous a -> 0 <= m_silenceThreshold a ->
Forall (fun x => all_chars notCapitalS (description x) = true)
       (detectAnomalies tz a uninit).
Proof.
intros Hc Hs. unfold detectAnomalies.
repeat (apply Forall_app; split).
- apply Forall_pushIfScored, checkErrorSpike_notS.
- apply Forall_pushIfScored, checkBurst_notS.
- apply checkHistory_notS.
- destruct (m_windowHistory a); [constructor|].
  rewrite (checkSilence_contiguous a _ Hc Hs).
  apply Forall_pushIfScored. reflexivity.
Qed.

(** X16 ([checkSilence], [detectAnomalies]).  Whatever stream a fresh
  analyzer is fed, [checkSilence] builds no anomaly on its current
  window, and no anomaly of the review is one the driver classifies as
  [Silence]: the other descriptions do not hold that word. *)
Theorem analyzer_never_reports_silence :
forall entries,
  exists a,
    addEntries new entries = Some a
    /\ (forall uninit,
           checkSilence a uninit (m_currentWindow a) = defaultAnomaly uninit)
    /\ (forall tz uninit,
           Forall (fun x => a_type (Pipeline.timeWindowToAnomaly x) <> Silence)
                  (detectAnomalies tz a uninit)).
Proof.
intros entries.
destruct (addEntries_total entries new new_invariant) as [a Ha].
exists a. split; [exact Ha|].
destruct (addEntries_contiguous _ _ _ new_contiguous Ha) as [Hc Hs].
assert (H0 : 0 <= m_silenceThreshold a) by (rewrite Hs; cbn; lia).
split.
- intros uninit. apply checkSilence_contiguous; assumption.
- intros tz uninit.
  eapply List.Forall_impl; [|apply (detectAnomalies_notS tz a uninit Hc H0)].
  intros x Hx. unfold Pipeline.timeWindowToAnomaly. cbn [a_type].
  rewrite (no_S_not_found _ Hx). discriminate.
Qed.

(** X17 ([addEventUnlocked]).  An entry stamped before the start of the
  current window is dropped: the analyzer is left exactly as it was, so
  a log that is not in time order loses events. *)
Theorem late_entry_is_dropped :
forall entries a e,
  addEntries new entries = Some a ->
  entries <> [] ->
  timestamp e < b_start (m_currentWindow a) ->
  addEntry a e = Some a.
Proof.
intros entries a e Ha Hne Hlate.
pose proof (addEntries_inv _ _ _ new_invariant Ha) as Hinv.
pose proof (addEntries_initialized _ _ _ new_invariant Hne Ha) as Hi.
destruct Hinv as (Hw & _ & _ & _ & _ & Hb). rewrite Hi in Hb.
destruct Hb as (He & _).
unfold addEntry, addEventUnlocked. rewrite Hi.
assert (Hl : forall fuel, advanceLoop fuel (timestamp e) a = Some a).
{ intros fuel. destruct fuel; cbn [advanceLoop];
    (destruct (Z.leb_spec (b_end (m_currentWindow a)) (timestamp e)); [lia|reflexivity]). }
rewrite Hl. destruct (Z.ltb_spec (timestamp e) (b_start (m_currentWindow a))); [reflexivity|lia].
Qed.

Lemma late_entry_is_dropped_witness :
addEntries new [spike_entry] = Some (windowAfter [spike_entry])
/\ [spike_entry] <> []
/\ timestamp late_entry < b_start (m_currentWindow (windowAfter [spike_entry]))
/\ addEntry (windowAfter [spike_entry]) late_entry
   = Some (windowAfter [spike_entry]).
Proof.
assert (H1 : addEntries new [spike_entry] = Some (windowAfter [spike_entry]))
  by (vm_compute; reflexivity).
assert (H2 : [spike_entry] <> []) by discriminate.
assert (H3 : timestamp late_entry
             < b_start (m_currentWindow (windowAfter [spike_entry])))
  by (vm_compute; reflexivity).
split; [exact H1|]. split; [exact H2|]. split; [exact H3|].
exact (late_entry_is_dropped [spike_entry] (windowAfter [spike_entry])
                             late_entry H1 H2 H3).
Defined.

End NoSilence.

(** ** [BurstPatternDetector]: bounded deques *)

Section BurstProperties.
Import Core BurstPatternDetector.

Lemma evictOld_suffix w now : forall (events : State),
exists pre, events = pre ++ evictOld w events now.
Proof.
induction events as [|[t0 x] rest IH]; [exists []; reflexivity|].
cbn [evictOld]. destruct (now - t0 <=? w).
- exists []. reflexivity.
- destruct IH as [pre H]. exists ((t0, x) :: pre). cbn. f_equal. exact H.
Qed.




Lemma keepLast_last {A} keep (l : list A) x y :
(1 <= keep)%nat -> List.last (keepLast keep (l ++ [x])) y = x.
Proof.
intros Hk. unfold keepLast. rewrite List.length_app. cbn [List.length].
replace (List.length l + 1 - keep)%nat with (List.length l - (keep - 1))%nat by lia.
rewrite List.skipn_app.
replace (List.length l - (keep - 1) - List.length l)%nat with 0%nat by lia.
cbn [skipn]. apply List.last_last.
Qed.







End BurstProperties.

(** ** [BurstPatternDetector]: the normal form of a message *)

Section NormalizeProperties.
Import CType StringUtils Core BurstPatternDetector.

Lemma tolower_toupper c : tolower (toupper c) = tolower c.
Proof. destruct c as [[] [] [] [] [] [] [] []]; reflexivity. Qed.

Lemma tolower_idem c : tolower (tolower c) = tolower c.
Proof. destruct c as [[] [] [] [] [] [] [] []]; reflexivity. Qed.

Lemma tolower_not_upper c : isupper (tolower c) = false.
Proof. destruct c as [[] [] [] [] [] [] [] []]; reflexivity. Qed.

Lemma map_tolower_toUpper s : map_chars tolower (toUpper s) = map_chars tolower s.
Proof.
unfold toUpper. induction s as [|c r IH]; [reflexivity|].
cbn. rewrite tolower_toupper, IH. reflexivity.
Qed.

Lemma map_tolower_toLower s : map_chars tolower (toLower s) = map_chars tolower s.
Proof.
unfold toLower. induction s as [|c r IH]; [reflexivity|].
cbn. rewrite tolower_idem, IH. reflexivity.
Qed.

Lemma map_tolower_lower s : all_chars (fun c => negb (isupper c)) (map_chars tolower s) = true.
Proof.
induction s as [|c r IH]; [reflexivity|]. cbn. rewrite tolower_not_upper, IH. reflexivity.
Qed.

Lemma replaceIds_all p s : forall run,
all_chars p "<id>" = true -> all_chars p run = true -> all_chars p s = true ->
all_chars p (replaceIds run s) = true.
Proof.
intros run Hid. revert run. induction s as [|c r IH]; intros run Hrun Hs; cbn [replaceIds].
- destruct (Nat.leb 8 (String.length run)); assumption.
- cbn [all_chars] in Hs. apply andb_true_iff in Hs as [Hc Hr].
  destruct (isxdigit c).
  + apply IH; [|exact Hr]. rewrite all_chars_app, Hrun. cbn. rewrite Hc. reflexivity.
  + rewrite all_chars_app. cbn [all_chars]. rewrite Hc, (IH EmptyString eq_refl Hr).
    destruct (Nat.leb 8 (String.length run)); [rewrite Hid|rewrite Hrun]; reflexivity.
Qed.

Lemma replaceNumbers_all p s : forall word,
all_chars p "<n>" = true -> all_chars p word = true -> all_chars p s = true ->
all_chars p (replaceNumbers word s) = true.
Proof.
intros word Hn. revert word. induction s as [|c r IH]; intros word Hw Hs; cbn [replaceNumbers].
- destruct (negb (empty word) && all_digits word)%bool; assumption.
- cbn [all_chars] in Hs. apply andb_true_iff in Hs as [Hc Hr].
  destruct (isword c).
  + apply IH; [|exact Hr]. rewrite all_chars_app, Hw. cbn. rewrite Hc. reflexivity.
  + rewrite all_chars_app. cbn [all_chars]. rewrite Hc, (IH EmptyString eq_refl Hr).
    destruct (negb (empty word) && all_digits word)%bool; [rewrite Hn|rewrite Hw]; reflexivity.
Qed.

Lemma collapse_all p s : forall inWs,
p " "%char = true -> all_chars p s = true ->
all_chars p (collapseWhitespace inWs s) = true.
Proof.
intros inWs Hsp. revert inWs. induction s as [|c r IH]; intros inWs Hs; [reflexivity|].
cbn [all_chars] in Hs. apply andb_true_iff in Hs as [Hc Hr].
cbn [collapseWhitespace]. destruct (isspace c).
- destruct inWs; [apply IH; exact Hr|]. cbn [all_chars]. rewrite Hsp, (IH true Hr). reflexivity.
- cbn [all_chars]. rewrite Hc, (IH false Hr). reflexivity.
Qed.

Lemma trimFront_all p s : all_chars p s = true -> all_chars p (trimFrontSpaces s) = true.
Proof.
induction s as [|c r IH]; [reflexivity|]. intros H. cbn [trimFrontSpaces].
destruct (Ascii.eqb c " "); [|exact H].
cbn [all_chars] in H. apply andb_true_iff in H as [_ H]. exact (IH H).
Qed.

Lemma trimBack_all p s : all_chars p s = true -> all_chars p (trimBackSpaces s) = true.
Proof.
induction s as [|c r IH]; [reflexivity|]. intros H. cbn [trimBackSpaces].
cbn [all_chars] in H. apply andb_true_iff in H as [Hc H].
destruct (Ascii.eqb c " " && empty (trimBackSpaces r))%bool; [reflexivity|].
cbn [all_chars]. rewrite Hc, (IH H). reflexivity.
Qed.

Lemma normalize_all p msg :
all_chars p "<id> <n>" = true ->
all_chars p (map_chars tolower msg) = true ->
all_chars p (normalizeMessage msg) = true.
Proof.
intros Hp Hm. unfold normalizeMessage.
cbn [all_chars] in Hp.
repeat match type of Hp with
       | (_ && _)%bool = true => apply andb_true_iff in Hp as [? Hp]
       end.
apply trimBack_all, trimFront_all, collapse_all; [assumption|].
apply replaceNumbers_all; [cbn; repeat (apply andb_true_iff; split); assumption|reflexivity|].
apply replaceIds_all; [cbn; repeat (apply andb_true_iff; split); assumption|reflexivity|exact Hm].
Qed.

(** white space *)
Lemma collapse_onlySpaces s : forall inWs,
all_chars onlySpaces (collapseWhitespace inWs s) = true.
Proof.
induction s as [|c r IH]; intros inWs; [reflexivity|].
cbn [collapseWhitespace]. destruct (isspace c) eqn:E.
- destruct inWs; [apply IH|]. cbn [all_chars]. rewrite IH. reflexivity.
- cbn [all_chars]. rewrite IH. unfold onlySpaces. rewrite E. reflexivity.
Qed.

Lemma collapse_no_double s : forall inWs,
no_double_space (collapseWhitespace inWs s) = true
/\ (inWs = true -> forall r, collapseWhitespace inWs s <> String " " r).
Proof.
induction s as [|c r IH]; intros inWs; [split; [reflexivity|discriminate]|].
cbn [collapseWhitespace]. destruct (isspace c) eqn:E.
- destruct inWs.
  + apply IH.
  + destruct (IH true) as [H1 H2]. split; [|discriminate].
    cbn [no_double_space]. destruct (collapseWhitespace true r) as [|b r'] eqn:Ec; [reflexivity|].
    rewrite H1, andb_true_r. destruct (Ascii.eqb_spec b " ") as [->|]; [|reflexivity].
    exfalso. exact (H2 eq_refl r' eq_refl).
- destruct (IH false) as [H1 _]. split.
  + cbn [no_double_space]. destruct (collapseWhitespace false r) as [|b r'] eqn:Ec; [reflexivity|].
    rewrite H1, andb_true_r.
    destruct (Ascii.eqb_spec c " ") as [->|]; [discriminate|reflexivity].
  + intros _ r' [= -> _]. discriminate.
Qed.

Lemma trimFront_no_double s :
no_double_space s = true -> no_double_space (trimFrontSpaces s) = true.
Proof.
induction s as [|c r IH]; [reflexivity|]. intros H. cbn [trimFrontSpaces].
destruct (Ascii.eqb c " "); [|exact H]. apply IH.
cbn [no_double_space] in H. destruct r; [reflexivity|].
apply andb_true_iff in H as [_ H]. exact H.
Qed.

Lemma trimBack_no_double s :
no_double_space s = true -> no_double_space (trimBackSpaces s) = true.
Proof.
induction s as [|c r IH]; [reflexivity|]. intros H. cbn [trimBackSpaces].
destruct (Ascii.eqb c " " && empty (trimBackSpaces r))%bool eqn:E; [reflexivity|].
cbn [no_double_space] in H |- *.
destruct r as [|b r']; [reflexivity|].
apply andb_true_iff in H as [Hab H]. specialize (IH H).
destruct (trimBackSpaces (String b r')) as [|b' r''] eqn:Et; [reflexivity|].
rewrite IH, andb_true_r.
cbn [trimBackSpaces] in Et.
destruct (Ascii.eqb b " " && empty (trimBackSpaces r'))%bool; [discriminate|].
injection Et as <- _. exact Hab.
Qed.

Lemma trimFront_front s r : trimFrontSpaces s <> String " " r.
Proof.
induction s as [|c s IH]; [discriminate|]. cbn [trimFrontSpaces].
destruct (Ascii.eqb_spec c " "); [exact IH|]. intros [= -> _]. contradiction.
Qed.

Lemma trimBack_front s c r :
trimBackSpaces s = String c r -> exists r', s = String c r'.
Proof.
destruct s as [|d s]; [discriminate|]. cbn [trimBackSpaces].
destruct (Ascii.eqb d " " && empty (trimBackSpaces s))%bool; [discriminate|].
intros [= -> _]. eauto.
Qed.

Lemma trimBack_back s r : trimBackSpaces s <> (r ++ " ")%string.
Proof.
revert r. induction s as [|c s IH]; intros r.
- destruct r; discriminate.
- cbn [trimBackSpaces].
  destruct (Ascii.eqb c " " && empty (trimBackSpaces s))%bool eqn:E.
  + destruct r; discriminate.
  + destruct r as [|x r].
    * rewrite append_nil_l. intros [= -> H]. rewrite H in E. discriminate.
    * rewrite append_cons. intros [= -> H]. exact (IH _ H).
Qed.

(** X19 ([normalizeMessage]).  The normal form of a message does not
  depend on the case of its letters; it holds no capital letter, no
  white space but single spaces, and neither starts nor ends with a
  space. *)
Theorem normalizeMessage_shape :
forall msg,
  let out := normalizeMessage msg in
  normalizeMessage (toUpper msg) = out
  /\ normalizeMessage (toLower msg) = out
  /\ all_chars (fun c => negb (isupper c)) out = true
  /\ all_chars onlySpaces out = true
  /\ no_double_space out = true
  /\ (forall r, out <> String " " r)
  /\ (forall r, out <> (r ++ " ")%string).
Proof.
intros msg out. subst out.
split; [unfold normalizeMessage; rewrite map_tolower_toUpper; reflexivity|].
split; [unfold normalizeMessage; rewrite map_tolower_toLower; reflexivity|].
split; [apply normalize_all; [reflexivity|apply map_tolower_lower]|].
split; [unfold normalizeMessage; apply trimBack_all, trimFront_all, collapse_onlySpaces|].
split; [unfold normalizeMessage; apply trimBack_no_double, trimFront_no_double, collapse_no_double|].
split.
- intros r H. unfold normalizeMessage in H.
  destruct (trimBack_front _ _ _ H) as [r' H']. exact (trimFront_front _ _ H').
- intros r. unfold normalizeMessage. apply trimBack_back.
Qed.

End NormalizeProperties.

(** ** [IpFrequencyDetector]: the shape of an address *)

Section IpShape.
Import CType StringUtils Core IpFrequencyDetector.

Lemma count_char_app c a b :
count_char c (a ++ b)%string = (count_char c a + count_char c b)%nat.
Proof.
induction a as [|x a IH]; [reflexivity|]. rewrite append_cons. cbn. rewrite IH. lia.
Qed.

Lemma takeDigits_spec n : forall s ds rest,
takeDigits n s = Some (ds, rest) ->
s = (ds ++ rest)%string /\ all_chars isdigit ds = true
/\ String.length ds = n /\ count_char "." ds = 0%nat.
Proof.
induction n as [|k IH]; intros s ds rest; cbn [takeDigits].
- intros [= <- <-]. auto.
- destruct s as [|c r]; [discriminate|].
  destruct (isdigit c) eqn:E; [|discriminate].
  destruct (takeDigits k r) as [[ds' rest']|] eqn:Et; [|discriminate].
  intros [= <- <-]. destruct (IH _ _ _ Et) as (H1 & H2 & H3 & H4).
  rewrite append_cons. cbn. rewrite E, H2, H3, H4.
  split; [f_equal; exact H1|]. split; [reflexivity|]. split; [reflexivity|].
  destruct (Ascii.eqb_spec c "."); [subst c; discriminate|reflexivity].
Qed.

Lemma digits_dotted ds : all_chars isdigit ds = true -> all_chars dotted ds = true.
Proof. apply all_chars_impl. intros c H. unfold dotted. rewrite H. reflexivity. Qed.

Lemma or_else_cases {A} (x y : option A) v :
LogParser.or_else x y = Some v -> x = Some v \/ y = Some v.
Proof. destruct x; cbn; auto. Qed.

Lemma matchGroups_spec k : forall s m,
matchGroups k s = Some m ->
(exists post, s = (m ++ post)%string) /\ shaped k (2 * k) (4 * k) m.
Proof.
induction k as [|k IH]; intros s m; cbn [matchGroups].
- destruct (boundaryAfterDigit s); [|discriminate]. intros [= <-].
  split; [exists s; reflexivity|]. repeat split; cbn; lia.
- destruct s as [|c r]; [discriminate|].
  destruct (Ascii.eqb_spec c ".") as [->|]; [|discriminate].
  assert (Htry : forall n, (1 <= n <= 3)%nat ->
    match takeDigits n r with
    | Some (ds, rest) =>
        match matchGroups k rest with
        | Some m0 => Some (String "." (ds ++ m0))
        | None => None
        end
    | None => None
    end = Some m ->
    (exists post, String "."%char r = (m ++ post)%string)
    /\ shaped (S k) (2 * S k) (4 * S k) m).
  { intros n Hn. destruct (takeDigits n r) as [[ds rest]|] eqn:Et; [|discriminate].
    destruct (matchGroups k rest) as [m0|] eqn:Em; [|discriminate].
    intros [= <-]. destruct (takeDigits_spec _ _ _ _ Et) as (H1 & H2 & H3 & H4).
    destruct (IH _ _ Em) as ([post Hp] & (S1 & S2 & S3)).
    split.
    - exists post. rewrite append_cons, append_assoc. f_equal. rewrite H1, Hp. reflexivity.
    - unfold shaped. cbn [all_chars count_char String.length].
      rewrite all_chars_app, count_char_app, string_length_app.
      rewrite (digits_dotted _ H2), S1, H4, S2, H3. cbn. repeat split; lia. }
  intros H. apply or_else_cases in H as [H|H]; [exact (Htry 3%nat ltac:(lia) H)|].
  apply or_else_cases in H as [H|H]; [exact (Htry 2%nat ltac:(lia) H)|exact (Htry 1%nat ltac:(lia) H)].
Qed.

Lemma matchHere_spec s m :
matchHere s = Some m ->
(exists post, s = (m ++ post)%string) /\ shaped 3 7 15 m.
Proof.
unfold matchHere.
assert (Htry : forall n, (1 <= n <= 3)%nat ->
  match takeDigits n s with
  | Some (ds, rest) =>
      match matchGroups 3 rest with
      | Some m0 => Some (ds ++ m0)%string
      | None => None
      end
  | None => None
  end = Some m ->
  (exists post, s = (m ++ post)%string) /\ shaped 3 7 15 m).
{ intros n Hn. destruct (takeDigits n s) as [[ds rest]|] eqn:Et; [|discriminate].
  destruct (matchGroups 3 rest) as [m0|] eqn:Em; [|discriminate].
  intros [= <-]. destruct (takeDigits_spec _ _ _ _ Et) as (H1 & H2 & H3 & H4).
  destruct (matchGroups_spec _ _ _ Em) as ([post Hp] & (S1 & S2 & S3)).
  split.
  - exists post. rewrite append_assoc, H1, Hp. reflexivity.
  - unfold shaped. rewrite all_chars_app, count_char_app, string_length_app.
    rewrite (digits_dotted _ H2), S1, H4, S2, H3. cbn. repeat split; lia. }
intros H. apply or_else_cases in H as [H|H]; [exact (Htry 3%nat ltac:(lia) H)|].
apply or_else_cases in H as [H|H]; [exact (Htry 2%nat ltac:(lia) H)|exact (Htry 1%nat ltac:(lia) H)].
Qed.

Lemma searchIp_spec s : forall prev m,
searchIp prev s = Some m ->
(exists pre post, s = (pre ++ m ++ post)%string) /\ shaped 3 7 15 m.
Proof.
induction s as [|c r IH]; intros prev m; cbn [searchIp].
- destruct (match prev with Some p => negb (isword p) | None => true end).
  + destruct (matchHere EmptyString) as [m0|] eqn:E; [|discriminate].
    intros [= <-]. destruct (matchHere_spec _ _ E) as ([post Hp] & Hs).
    split; [exists EmptyString, post; exact Hp|exact Hs].
  + discriminate.
- destruct (if match prev with Some p => negb (isword p) | None => true end
            then matchHere (String c r) else None) as [m0|] eqn:E.
  + intros [= <-].
    destruct (match prev with Some p => negb (isword p) | None => true end); [|discriminate].
    destruct (matchHere_spec _ _ E) as ([post Hp] & Hs).
    split; [exists EmptyString, post; exact Hp|exact Hs].
  + intros H. destruct (IH _ _ H) as ((pre & post & Hp) & Hs).
    split; [|exact Hs]. exists (String c pre), post. rewrite append_cons. f_equal. exact Hp.
Qed.

(** X20 ([extractIp]).  An address taken from a message is a piece of
  the message made of digits and exactly three dots, 7 to 15 characters
  long: four groups of one to three digits. *)
Theorem extractIp_shape :
forall message ip,
  extractIp message = Some ip ->
  (exists pre post, message = (pre ++ ip ++ post)%string)
  /\ all_chars dotted ip = true
  /\ count_char "." ip = 3%nat
  /\ (7 <= String.length ip <= 15)%nat.
Proof.
intros message ip H. unfold extractIp in H.
destruct (searchIp_spec _ _ _ H) as (Hp & Hs). split; [exact Hp|exact Hs].
Qed.

Lemma extractIp_shape_witness :
extractIp "login from 10.0.0.7" = Some "10.0.0.7"
/\ ((exists pre post, "login from 10.0.0.7" = (pre ++ "10.0.0.7" ++ post)%string)
    /\ all_chars dotted "10.0.0.7" = true
    /\ count_char "." "10.0.0.7" = 3%nat
    /\ (7 <= String.length "10.0.0.7" <= 15)%nat).
Proof.
assert (H : extractIp "login from 10.0.0.7" = Some "10.0.0.7") by (vm_compute; reflexivity).
split; [exact H|]. exact (extractIp_shape _ _ H).
Defined.

End IpShape.

(** ** [SpikeDetector]: severity and cold start *)

Section SpikeSeverity.
Import Core SpikeDetector.

Lemma reachable_no_previous d : reachable d -> no_previous d.
Proof.
induction 1 as [|d _ IH|d ratio _ IH|d w _ IH|d w _ IH|d n _ IH|d e _ IH];
  try exact IH.
- intros src st. cbn. rewrite lookup_empty. discriminate.
- intros src st. cbn. rewrite lookup_empty. discriminate.
- destruct (source e) as [src|] eqn:Hs.
  + destruct (string_dec src EmptyString) as [->|Hne].
    * rewrite processEntry_skips by auto. exact IH.
    * rewrite (processEntry_state d e src Hs Hne). cbn [fst].
      intros s st. unfold with_states. cbn [m_sourceStates].
      rewrite lookup_insert. destruct (decide (src = s)) as [->|].
      -- intros [= <-]. unfold recordEntry, advanceWindows.
         destruct (evict (m_shortWindow d) _ _ _) as [recent cur].
         destruct (evict (m_baselineWindow d) _ _ _) as [baseline base].
         cbn [previousCount]. unfold stateOf.
         destruct (m_sourceStates d !! s) as [st0|] eqn:E; cbn [default].
         ++ exact (IH s st0 E).
         ++ reflexivity.
      -- apply IH.
  + rewrite processEntry_skips by auto. exact IH.
Qed.

Lemma stateOf_previous d src : no_previous d -> previousCount (stateOf d src) = 0%nat.
Proof.
intros H. unfold stateOf. destruct (m_sourceStates d !! src) as [st|] eqn:E; cbn [default].
- exact (H src st E).
- reflexivity.
Qed.

Lemma recordEntry_previous d st entry :
previousCount (recordEntry d st entry) = previousCount st.
Proof.
unfold recordEntry, advanceWindows.
destruct (evict (m_shortWindow d) _ _ _) as [recent cur].
destruct (evict (m_baselineWindow d) _ _ _) as [baseline base]. reflexivity.
Qed.

Lemma severity_saturates thr ratio :
(11 # 10 <= thr)%Q -> (thr < ratio)%Q ->
Double.min 1 (Double.div (Double.sub ratio 1) (Double.sub thr 1)) = 1%Q.
Proof.
intros Ht Hr. apply min_one_saturates.
assert (H1 : (0 < thr - 1)%Q).
{ unfold Qminus. rewrite <- (Qplus_opp_r 1). apply Qplus_lt_le_compat; [|apply Qle_refl].
  eapply Qlt_le_trans; [|exact Ht]. reflexivity. }
assert (H2 : (thr - 1 <= ratio - 1)%Q).
{ unfold Qminus. apply Qplus_le_compat; [apply Qlt_le_weak; exact Hr|apply Qle_refl]. }
unfold Double.div, Double.sub. apply round_ge_one.
apply Qle_shift_div_l; [apply round_positive, H1|]. rewrite Qmult_1_l.
apply round_mono; [apply Qlt_le_weak, H1|exact H2].
Qed.

Lemma ends_with_app a b suffix :
(exists t, b = (t ++ suffix)%string) ->
exists t, (a ++ b)%string = (t ++ suffix)%string.
Proof.
intros [t ->]. exists (a ++ t)%string. rewrite append_assoc. reflexivity.
Qed.

(** X21 ([SpikeDetector::processEntry], [calculateStats],
  [createAnomaly]; [spikeToAnomaly] in [main.cpp]).  Whatever its
  settings and whatever it has seen, every spike a detector emits has
  severity exactly 1 and rate of change 0: the previous count of a
  source is never written, and a ratio above the threshold saturates
  the severity.  The driver therefore maps every spike to Critical,
  and every description ends in ROC=0.00. *)
Theorem spike_severity_is_critical :
forall d entry,
  reachable d ->
  Forall (fun s =>
            severity s = 1%Q
            /\ rateOfChange (stats s) = 0%Q
            /\ a_severity (Pipeline.spikeToAnomaly s) = SevCritical
            /\ exists text, description s = (text ++ "ROC=0.00")%string)
         (snd (processEntry d entry)).
Proof.
intros d entry Hr.
destruct (reachable_invariant d Hr) as (_ & Ht & _).
pose proof (reachable_no_previous d Hr) as Hp.
destruct (source entry) as [src|] eqn:Hs.
2:{ rewrite processEntry_skips by auto. constructor. }
destruct (string_dec src EmptyString) as [->|Hne].
{ rewrite processEntry_skips by auto. constructor. }
rewrite (processEntry_state d entry src Hs Hne). cbn [snd].
set (st := recordEntry d (stateOf d src) entry).
set (sts := calculateStats d st src (timestamp entry)).
destruct (isSpike d sts) eqn:E; [|constructor].
constructor; [|constructor].
assert (Hroc : rateOfChange sts = 0%Q).
{ unfold sts, calculateStats. cbn [rateOfChange].
  unfold st. rewrite recordEntry_previous, (stateOf_previous _ _ Hp). reflexivity. }
assert (Hsev : severity (createAnomaly d sts (samples st)) = 1%Q).
{ unfold createAnomaly. cbn [severity]. apply severity_saturates; [exact Ht|].
  unfold isSpike in E. apply andb_true_iff in E as [E _]. apply andb_true_iff in E as [E _].
  unfold Double.gtb, Double.ltb in E. apply negb_true_iff in E.
  apply Qnot_le_lt. intros Hle. apply Qle_bool_iff in Hle. congruence. }
split; [exact Hsev|]. split; [exact Hroc|]. split.
- unfold Pipeline.spikeToAnomaly. cbn [a_severity]. rewrite Hsev. reflexivity.
- unfold createAnomaly. cbn [description]. rewrite Hroc.
  change (Double.format_fixed 2 0) with "0.00"%string.
  do 8 apply ends_with_app. exists "x baseline, "%string. reflexivity.
Qed.

Lemma spikeRun_reachable entries : forall d,
reachable d -> reachable (fst (spikeRun d entries)).
Proof.
induction entries as [|e rest IH]; intros d Hr; [exact Hr|].
cbn [spikeRun fst]. apply IH. apply reach_processEntry. exact Hr.
Qed.

Lemma spike_severity_is_critical_witness :
let d := fst (spikeRun new (List.repeat spike_entry 14)) in
reachable d
/\ snd (processEntry d spike_entry) <> []
/\ Forall (fun s =>
             severity s = 1%Q
             /\ rateOfChange (stats s) = 0%Q
             /\ a_severity (Pipeline.spikeToAnomaly s) = SevCritical
             /\ exists text, description s = (text ++ "ROC=0.00")%string)
          (snd (processEntry d spike_entry)).
Proof.
intros d.
assert (Hr : reachable d) by (apply spikeRun_reachable, reach_new).
split; [exact Hr|]. split; [vm_compute; discriminate|].
exact (spike_severity_is_critical d spike_entry Hr).
Defined.








End SpikeSeverity.

(** ** The reporters: filter, ranking and cap *)

Section ReporterViews.
Import Core.















(** CSV *)








End ReporterViews.

(** ** The driver: counters, statistics, time range and kinds of anomaly *)

Section Counters.
Import Report.

Lemma wrap64_0 : wrap64 0 = 0%N.
Proof. reflexivity. Qed.

Lemma incr_wrap64 n : incr_u64 (wrap64 n) = wrap64 (S n).
Proof.
unfold incr_u64, wrap64. rewrite Nat2N.inj_succ, <- N.add_1_r.
rewrite N.Div0.add_mod_idemp_l. reflexivity.
Qed.

Lemma add_wrap64 n (b : bool) :
add_u64 (wrap64 n) (if b then 1 else 0)%N
= wrap64 (n + (if b then 1 else 0)).
Proof.
unfold add_u64, wrap64. rewrite N.Div0.add_mod_idemp_l.
destruct b; f_equal; lia.
Qed.

Lemma count_if_app {A} (p : A -> bool) l1 l2 :
count_if p (l1 ++ l2) = (count_if p l1 + count_if p l2)%nat.
Proof. unfold count_if. rewrite List.filter_app, List.length_app. reflexivity. Qed.

End Counters.

Section MapUpdate.
Import Report.
Context {K V : Type}.
Variable ltb eqb : K -> K -> bool.
Variable d : V.
Hypothesis eqb_eq : forall a b, eqb a b = true <-> a = b.
Hypothesis ltb_irrefl : forall a, ltb a a = false.
Hypothesis ltb_trans : forall a b c, ltb a b = true -> ltb b c = true -> ltb a c = true.
Hypothesis ltb_total : forall a b, eqb a b = false -> ltb a b = false -> ltb b a = true.
Implicit Types m : list (K * V).


Lemma keys_above_find k m : keys_above ltb k m -> map_find eqb k m = None.
Proof.
induction 1 as [|[k' v] rest Hk _ IH]; [reflexivity|].
cbn [map_find]. cbn [fst] in Hk.
destruct (eqb k k') eqn:E; [|exact IH].
apply eqb_eq in E. subst k'. rewrite ltb_irrefl in Hk. discriminate.
Qed.

Lemma keys_above_trans k k' m :
ltb k k' = true -> keys_above ltb k' m -> keys_above ltb k m.
Proof.
intros H. apply List.Forall_impl. intros kv Hkv. eapply ltb_trans; eauto.
Qed.

Lemma map_update_above f k k0 m :
ltb k0 k = true -> keys_above ltb k0 m -> keys_above ltb k0 (map_update ltb eqb d f k m).
Proof.
intros Hk. induction 1 as [|[k' v] rest Hk' Hrest IH]; cbn [map_update].
- constructor; [exact Hk|constructor].
- destruct (eqb k k') eqn:E.
  + constructor; [exact Hk'|exact Hrest].
  + destruct (ltb k k') eqn:L.
    * constructor; [exact Hk|]. constructor; [exact Hk'|exact Hrest].
    * constructor; [exact Hk'|exact IH].
Qed.

Lemma map_update_sorted f k m :
keys_sorted ltb m -> keys_sorted ltb (map_update ltb eqb d f k m).
Proof.
induction m as [|[k' v] rest IH]; cbn [map_update keys_sorted fst].
- intros _. split; [constructor|exact I].
- intros [Ha Hs].
  destruct (eqb k k') eqn:E.
  + cbn [keys_sorted fst]. auto.
  + destruct (ltb k k') eqn:L.
    * cbn [keys_sorted fst]. split; [|auto].
      constructor; [exact L|]. eapply keys_above_trans; eauto.
    * cbn [keys_sorted fst]. split; [|auto].
      apply map_update_above; [|exact Ha]. apply ltb_total; [exact E|exact L].
Qed.

Lemma map_find_update_eq f k m :
keys_sorted ltb m ->
map_find eqb k (map_update ltb eqb d f k m)
= Some (f (default d (map_find eqb k m))).
Proof.
assert (Hkk : eqb k k = true) by (apply eqb_eq; reflexivity).
induction m as [|[k' v] rest IH]; cbn [map_update map_find keys_sorted fst].
- intros _. rewrite Hkk. reflexivity.
- intros [Ha Hs]. destruct (eqb k k') eqn:E.
  + cbn [map_find]; rewrite ?E; reflexivity.
  + destruct (ltb k k') eqn:L.
    * cbn [map_find]. rewrite Hkk.
      rewrite (keys_above_find k rest (keys_above_trans _ _ _ L Ha)).
      reflexivity.
    * cbn [map_find]; rewrite ?E; apply IH, Hs.
Qed.

Lemma map_find_update_ne f k k0 m :
k0 <> k ->
map_find eqb k0 (map_update ltb eqb d f k m) = map_find eqb k0 m.
Proof.
intros Hne.
assert (Hk : eqb k0 k = false).
{ destruct (eqb k0 k) eqn:E; [|reflexivity]. apply eqb_eq in E. contradiction. }
induction m as [|[k' v] rest IH]; cbn [map_update map_find].
- rewrite Hk. reflexivity.
- destruct (eqb k k') eqn:E.
  + apply eqb_eq in E. subst k'. cbn [map_find]. rewrite Hk. reflexivity.
  + destruct (ltb k k').
    * cbn [map_find]. rewrite Hk. reflexivity.
    * cbn [map_find]. rewrite IH. reflexivity.
Qed.

(** Sums of one counter over the map. *)
Variable g : V -> N.


Lemma fold_add_u64 m : forall t0,
List.fold_left (fun total kv => add_u64 total (g (snd kv))) m t0
= ((t0 + sumN g m) mod 2 ^ 64)%N \/ m = [].
Proof.
induction m as [|kv rest IH]; intros t0; [right; reflexivity|left].
cbn [List.fold_left sumN List.fold_right].
destruct (IH (add_u64 t0 (g (snd kv)))) as [->| ->].
- unfold add_u64. rewrite N.Div0.add_mod_idemp_l. f_equal. fold (sumN g rest). lia.
- cbn. unfold add_u64. f_equal. lia.
Qed.

Lemma fold_add_u64_0 m :
List.fold_left (fun total kv => add_u64 total (g (snd kv))) m 0%N
= (sumN g m mod 2 ^ 64)%N.
Proof.
destruct (fold_add_u64 m 0%N) as [->| ->]; [|reflexivity].
rewrite N.add_0_l. reflexivity.
Qed.

Lemma sumN_update f k m (b : bool) :
g d = 0%N ->
(forall v, g (f v) = if b then incr_u64 (g v) else g v) ->
(sumN g (map_update ltb eqb d f k m) mod 2 ^ 64
 = (sumN g m + (if b then 1 else 0)) mod 2 ^ 64)%N.
Proof.
intros Hd Hf.
assert (Hone : forall v acc,
           ((g (f v) + acc) mod 2 ^ 64
            = (g v + acc + (if b then 1 else 0)) mod 2 ^ 64)%N).
{ intros v acc. rewrite Hf. destruct b.
  - unfold incr_u64. rewrite N.Div0.add_mod_idemp_l. f_equal. lia.
  - f_equal. lia. }
induction m as [|[k' v] rest IH]; cbn [map_update].
- cbn [sumN List.fold_right snd]. rewrite Hone, Hd. f_equal.
- destruct (eqb k k').
  + cbn [sumN List.fold_right snd]. apply Hone.
  + destruct (ltb k k').
    * cbn [sumN List.fold_right snd]. rewrite Hone, Hd. f_equal.
    * cbn [sumN List.fold_right snd]. fold (sumN g (map_update ltb eqb d f k rest)).
      fold (sumN g rest).
      rewrite <- N.Div0.add_mod_idemp_r, IH, N.Div0.add_mod_idemp_r.
      f_equal. lia.
Qed.

End MapUpdate.

Section DriverLoop.
Import Core Pipeline.
Variable A : Analyzers.
Variable env : Env.

Lemma processLines_app lines1 : forall lines2 (s : State A),
processLines A env s (lines1 ++ lines2)
= match processLines A env s lines1 with
  | Some s' => processLines A env s' lines2
  | None => None
  end.
Proof.
induction lines1 as [|l rest IH]; intros lines2 s; [reflexivity|].
cbn [List.app processLines].
destruct (processLine A env s l); [apply IH|reflexivity].
Qed.

Lemma processLines_snoc lines line (s s' : State A) :
processLines A env s (lines ++ [line]) = Some s' ->
exists s0, processLines A env s lines = Some s0
           /\ processLine A env s0 line = Some s'.
Proof.
rewrite processLines_app.
destruct (processLines A env s lines) as [s0|]; [|discriminate].
cbn [processLines]. intros H. exists s0. split; [reflexivity|].
destruct (processLine A env s0 line); [exact H|discriminate].
Qed.

Lemma entriesOf_snoc z lines line :
entriesOf z (lines ++ [line])
= entriesOf z lines ++ match lineEntry z line with Some e => [e] | None => [] end.
Proof.
unfold entriesOf. rewrite omap_app. f_equal.
Qed.

Lemma malformed_snoc z lines line :
count_if (lineMalformed z) (lines ++ [line])
= (count_if (lineMalformed z) lines
   + if lineMalformed z line then 1 else 0)%nat.
Proof.
rewrite count_if_app. unfold count_if at 2. cbn [List.filter].
destruct (lineMalformed z line); reflexivity.
Qed.

Lemma addEntries_snoc entries : forall a e,
TimeWindowAnalyzer.addEntries a (entries ++ [e])
= match TimeWindowAnalyzer.addEntries a entries with
  | Some a' => TimeWindowAnalyzer.addEntry a' e
  | None => None
  end.
Proof.
induction entries as [|x rest IH]; intros a e;
  cbn [List.app TimeWindowAnalyzer.addEntries].
- destruct (TimeWindowAnalyzer.addEntry a e); reflexivity.
- destruct (TimeWindowAnalyzer.addEntry a x); [apply IH|reflexivity].
Qed.


Lemma processLine_cases (s s' : State A) line :
processLine A env s line = Some s' ->
(StringUtils.empty line = true /\ s' = s)
\/ (lineMalformed (tz env) line = true
    /\ lineEntry (tz env) line = None
    /\ s' = mkState A
              (Report.addAnomaly
                 (report A s)
                 (malformedAnomaly
                    (clock env (clockReads A s))
                    (LogParser.error
                       (LogParser.parseLineDetailed (tz env) LogParser.new line))))
              (parsedCount A s) (Report.incr_u64 (malformedCount A s))
              (Report.incr_u64 (emittedCount A s))
              (haveTimeRange A s) (minTs A s) (maxTs A s)
              (freq A s) (timeWindow A s) (pattern A s)
              (spikeDetector A s) (statDetector A s)
              (burstDetector A s) (ipDetector A s)
              (S (clockReads A s)))
\/ (exists e tw news,
       lineMalformed (tz env) line = false
       /\ lineEntry (tz env) line = Some e
       /\ TimeWindowAnalyzer.addEntry (timeWindow A s) e = Some tw
       /\ news = entryAnomalies
                   e
                   (snd (SpikeDetector.processEntry (spikeDetector A s) e))
                   (snd (stat_processEntry A (statDetector A s) e))
                   (snd (BurstPatternDetector.processEntry (burstDetector A s) e))
                   (snd (IpFrequencyDetector.processEntry (ipDetector A s) e))
       /\ s' = mkState A
                 (withAnomalies
                    (Report.updateSourceStats
                       (Report.incrementLevelCount (report A s) (level e) false)
                       (sourceName e) (level e))
                    (Report.m_anomalies (report A s) ++ news))
                 (Report.incr_u64 (parsedCount A s))
                 (malformedCount A s)
                 (emittedAfter (emittedCount A s) news)
                 true
                 (if haveTimeRange A s
                  then (if timestamp e <? minTs A s then timestamp e else minTs A s)
                  else timestamp e)
                 (if haveTimeRange A s
                  then (if maxTs A s <? timestamp e then timestamp e else maxTs A s)
                  else timestamp e)
                 (freq_addEntry A (freq A s) e) tw
                 (pattern_addEntry A (pattern A s) e)
                 (fst (SpikeDetector.processEntry (spikeDetector A s) e))
                 (fst (stat_processEntry A (statDetector A s) e))
                 (fst (BurstPatternDetector.processEntry (burstDetector A s) e))
                 (fst (IpFrequencyDetector.processEntry (ipDetector A s) e))
                 (clockReads A s)).
Proof.
unfold processLine, lineMalformed, lineEntry.
destruct (StringUtils.empty line) eqn:He.
{ intros [= <-]. left. auto. }
cbn [negb andb].
destruct (LogParser.entry _) as [e|] eqn:Hp; cbn [has_value negb].
- destruct (TimeWindowAnalyzer.addEntry (timeWindow A s) e) as [tw|] eqn:Htw;
    [|discriminate].
  destruct (SpikeDetector.processEntry (spikeDetector A s) e)
    as [spike spikes] eqn:Hsp.
  destruct (stat_processEntry A (statDetector A s) e) as [stat stats] eqn:Hst.
  destruct (BurstPatternDetector.processEntry (burstDetector A s) e)
    as [burst bursts] eqn:Hbu.
  destruct (IpFrequencyDetector.processEntry (ipDetector A s) e)
    as [ip hits] eqn:Hip.
  rewrite emitAll_eq. intros [= <-]. right. right.
  exists e, tw, (entryAnomalies e spikes stats bursts hits).
  rewrite Hsp, Hst, Hbu, Hip.
  split; [reflexivity|]. split; [reflexivity|]. split; [exact Htw|].
  split; reflexivity.
- unfold emit. cbn [fst snd]. intros [= <-]. right. left. auto.
Qed.

Lemma emittedAfter_wrap l : forall n,
emittedAfter (wrap64 n) l = wrap64 (n + List.length l).
Proof.
unfold emittedAfter.
induction l as [|a l IH]; intros n; cbn [List.fold_left List.length].
- rewrite Nat.add_0_r. reflexivity.
- rewrite incr_wrap64, IH. f_equal. lia.
Qed.

(** Kinds *)
Lemma entryAnomalies_kind e spikes stats bursts hits :
Forall (fun a => driverKind a /\ isOther a = false)
       (entryAnomalies e spikes stats bursts hits).
Proof.
unfold entryAnomalies, ruleAnomalies. cbn [List.app].
repeat (apply Forall_app; split); apply List.Forall_forall; intros a Ha;
  apply List.in_map_iff in Ha; destruct Ha as (x & <- & _).
- unfold spikeToAnomaly, driverKind, isOther. cbn.
  repeat split; try discriminate; auto.
- unfold statToAnomaly, driverKind, isOther. cbn.
  repeat split; try discriminate.
  destruct (Double.geb _ _); [discriminate|].
  destruct (Double.geb _ _); discriminate.
- unfold burstToAnomaly, driverKind, isOther. cbn.
  repeat split; discriminate.
- unfold ipToAnomaly, driverKind, isOther. cbn.
  repeat split; discriminate.
Qed.

Lemma malformedAnomaly_kind nowTp error :
driverKind (malformedAnomaly nowTp error)
/\ isOther (malformedAnomaly nowTp error) = true.
Proof.
unfold malformedAnomaly, driverKind, isOther.
cbn [a_type a_severity a_score a_source a_description].
repeat split; try discriminate. apply prefix_app.
Qed.

Lemma offlineAnomalies_kind ty have lo hi ds : forall k,
ty = FrequencySpike \/ ty = SequenceViolation ->
Forall (fun a => driverKind a /\ isOther a = false)
       (fst (offlineAnomalies env ty have lo hi k ds)).
Proof.
intros k Hty.
assert (Hone : forall lo hi d,
           (fun a => driverKind a /\ isOther a = false)
             (mkAnomaly ty Medium lo hi 1 d None [])).
{ intros lo' hi' d. unfold driverKind, isOther. cbn.
  destruct Hty as [-> | ->]; repeat split; discriminate. }
revert k. induction ds as [|d rest IH]; intros k; cbn [offlineAnomalies].
- constructor.
- destruct have.
  + specialize (IH k). destruct (offlineAnomalies env ty true lo hi k rest).
    cbn [fst] in *. constructor; [apply Hone|exact IH].
  + specialize (IH (S (S k))).
    destruct (offlineAnomalies env ty false lo hi (S (S k)) rest).
    cbn [fst] in *. constructor; [apply Hone|exact IH].
Qed.

Lemma timeWindow_kind a entries :
TimeWindowAnalyzer.addEntries TimeWindowAnalyzer.new entries = Some a ->
Forall (fun x => driverKind x /\ isOther x = false)
       (List.map timeWindowToAnomaly
                 (TimeWindowAnalyzer.detectAnomalies (tz env) a (uninit env))).
Proof.
intros Ha.
destruct (addEntries_contiguous _ _ _ new_contiguous Ha) as [Hc Hs].
assert (H0 : 0 <= TimeWindowAnalyzer.m_silenceThreshold a)
  by (rewrite Hs; cbn; lia).
apply List.Forall_forall. intros x Hx.
apply List.in_map_iff in Hx. destruct Hx as (w & <- & Hw).
pose proof (detectAnomalies_notS (tz env) a (uninit env) Hc H0) as Hn.
rewrite List.Forall_forall in Hn. specialize (Hn w Hw).
unfold timeWindowToAnomaly, driverKind, isOther. cbn.
rewrite (no_S_not_found _ Hn).
repeat split; discriminate.
Qed.

End DriverLoop.

Section DriverAccounting.
Import Core Pipeline.
Variable A : Analyzers.
Variable env : Env.
Variable file : string.

Lemma count_isOther_false l :
Forall (fun a => driverKind a /\ isOther a = false) l -> count_if isOther l = 0%nat.
Proof.
unfold count_if. induction 1 as [|a l [_ Ha] _ IH]; [reflexivity|].
cbn [List.filter]. rewrite Ha. exact IH.
Qed.

Lemma Forall_kind l :
Forall (fun a => driverKind a /\ isOther a = false) l -> Forall driverKind l.
Proof. apply List.Forall_impl. intros a [H _]. exact H. Qed.

Lemma loop_accounting lines : forall s,
processLines A env (start A file) lines = Some s ->
parsedCount A s = wrap64 (List.length (entriesOf (tz env) lines))
/\ malformedCount A s = wrap64 (count_if (lineMalformed (tz env)) lines)
/\ emittedCount A s = wrap64 (List.length (Report.anomalies (report A s)))
/\ count_if isOther (Report.anomalies (report A s))
   = count_if (lineMalformed (tz env)) lines
/\ Forall driverKind (Report.anomalies (report A s))
/\ TimeWindowAnalyzer.addEntries TimeWindowAnalyzer.new
                                 (entriesOf (tz env) lines)
   = Some (timeWindow A s)
/\ Report.m_processedFile (report A s) = Some file.
Proof.
induction lines as [|line lines IH] using List.rev_ind; intros s Hs.
- cbn in Hs. injection Hs as <-. cbn. repeat split; constructor.
- apply processLines_snoc in Hs. destruct Hs as (s0 & Hs0 & Hstep).
  destruct (IH s0 Hs0) as (Hp & Hm & He & Ho & Hk & Htw & Hf).
  rewrite entriesOf_snoc, malformed_snoc.
  apply processLine_cases in Hstep.
  destruct Hstep as [[Hempty ->]|[(Hmal & Hent & ->)|
                                  (e & tw & news & Hmal & Hent & Hadd & Hnews & ->)]].
  + assert (Hent : lineEntry (tz env) line = None)
      by (unfold lineEntry; rewrite Hempty; reflexivity).
    assert (Hmal : lineMalformed (tz env) line = false)
      by (unfold lineMalformed; rewrite Hempty; reflexivity).
    rewrite Hent, Hmal, List.app_nil_r, Nat.add_0_r. auto 10.
  + rewrite Hent, Hmal, List.app_nil_r.
    cbn [parsedCount malformedCount emittedCount report timeWindow].
    unfold Report.addAnomaly, Report.anomalies in *.
    cbn [Report.m_anomalies Report.m_processedFile].
    rewrite List.length_app, count_if_app. cbn [List.length].
    destruct (malformedAnomaly_kind
                (clock env (clockReads A s0))
                (LogParser.error
                   (LogParser.parseLineDetailed (tz env) LogParser.new line)))
      as [Hkind Hother].
    split; [exact Hp|]. split; [rewrite Hm, incr_wrap64; f_equal; lia|].
    split; [rewrite He, incr_wrap64; f_equal; lia|].
    split; [rewrite Ho; unfold count_if at 2; cbn [List.filter];
            rewrite Hother; reflexivity|].
    split; [apply Forall_app; split;
            [exact Hk|constructor; [exact Hkind|constructor]]|].
    split; [exact Htw|exact Hf].
  + rewrite Hent, Hmal, Nat.add_0_r.
    cbn [parsedCount malformedCount emittedCount report timeWindow].
    unfold withAnomalies, Report.anomalies in *.
    cbn [Report.m_anomalies Report.m_processedFile].
    rewrite !List.length_app, count_if_app, addEntries_snoc, Htw.
    cbn [List.length].
    assert (Hn : Forall (fun a => driverKind a /\ isOther a = false) news)
      by (subst news; apply entryAnomalies_kind).
    split; [rewrite Hp, incr_wrap64; f_equal; lia|].
    split; [exact Hm|].
    split; [rewrite He; apply emittedAfter_wrap|].
    split; [rewrite Ho, (count_isOther_false _ Hn); lia|].
    split; [apply Forall_app; split; [exact Hk|apply Forall_kind, Hn]|].
    split; [exact Hadd|exact Hf].
Qed.

End DriverAccounting.

Section DriverStatistics.
Import Core Pipeline.
Variable A : Analyzers.
Variable env : Env.
Variable file : string.

Lemma sameLevel_eq a b : sameLevel a b = true <-> a = b.
Proof.
unfold sameLevel. rewrite Z.eqb_eq. split; [|intros ->; reflexivity].
destruct a, b; cbn; intros H; try reflexivity; discriminate.
Qed.

Lemma level_ltb_irrefl (a : LogLevel) :
(LogLevel_ordinal a <? LogLevel_ordinal a) = false.
Proof. apply Z.ltb_irrefl. Qed.

Lemma level_ltb_trans (a b c : LogLevel) :
(LogLevel_ordinal a <? LogLevel_ordinal b) = true ->
(LogLevel_ordinal b <? LogLevel_ordinal c) = true ->
(LogLevel_ordinal a <? LogLevel_ordinal c) = true.
Proof. rewrite !Z.ltb_lt. lia. Qed.

Lemma level_ltb_total (a b : LogLevel) :
sameLevel a b = false ->
(LogLevel_ordinal a <? LogLevel_ordinal b) = false ->
(LogLevel_ordinal b <? LogLevel_ordinal a) = true.
Proof.
unfold sameLevel. intros Hab Hlt.
apply Z.eqb_neq in Hab. apply Z.ltb_ge in Hlt. apply Z.ltb_lt. lia.
Qed.

Lemma string_ltb_irrefl s : String.ltb s s = false.
Proof. unfold String.ltb. rewrite string_compare_refl. reflexivity. Qed.

Lemma string_ltb_trans a b c :
String.ltb a b = true -> String.ltb b c = true -> String.ltb a c = true.
Proof.
unfold String.ltb.
destruct (String.compare a b) eqn:H1; try discriminate.
destruct (String.compare b c) eqn:H2; try discriminate.
rewrite (string_compare_lt_trans _ _ _ H1 H2). reflexivity.
Qed.

Lemma string_ltb_total a b :
String.eqb a b = false -> String.ltb a b = false -> String.ltb b a = true.
Proof.
unfold String.ltb. intros He Hl.
rewrite (String.compare_antisym b a).
destruct (String.compare a b) eqn:Hc; cbn; try reflexivity; try discriminate.
apply String.compare_eq_iff in Hc. subst b. rewrite String.eqb_refl in He.
discriminate.
Qed.

Lemma count_if_snoc {X} (p : X -> bool) l x :
count_if p (l ++ [x]) = (count_if p l + if p x then 1 else 0)%nat.
Proof.
rewrite count_if_app. unfold count_if at 2. cbn [List.filter].
destruct (p x); reflexivity.
Qed.

Lemma count_if_zero {X} (p q : X -> bool) l :
(forall x, q x = true -> p x = true) ->
count_if p l = 0%nat -> count_if q l = 0%nat.
Proof.
intros Hpq. unfold count_if.
induction l as [|x l IH]; [reflexivity|]. cbn [List.filter].
destruct (q x) eqn:Hq.
- rewrite (Hpq x Hq). discriminate.
- destruct (p x); [discriminate|exact IH].
Qed.

Lemma loop_statistics lines : forall s,
processLines A env (start A file) lines = Some s ->
let E := entriesOf (tz env) lines in
(keys_sorted (fun a b => LogLevel_ordinal a <? LogLevel_ordinal b)
             (Report.m_levelStats (report A s))
 /\ forall L,
     map_find sameLevel L (Report.m_levelStats (report A s))
     = let n := count_if (fun e => sameLevel L (level e)) E in
       counted n (Report.mkLevelStats (wrap64 n) 0))
/\ (keys_sorted String.ltb (Report.m_sourceStats (report A s))
    /\ forall src,
        map_find String.eqb src (Report.m_sourceStats (report A s))
        = let of_src p e := (String.eqb src (sourceName e) && p (level e))%bool in
          let n := count_if (of_src (fun _ => true)) E in
          counted n (Report.mkSourceStats
                       (wrap64 n)
                       (wrap64 (count_if (of_src isErrorLevel) E))
                       (wrap64 (count_if (of_src isWarnLevel) E))))
/\ Report.totalErrorEvents (report A s)
   = wrap64 (count_if (fun e => isErrorLevel (level e)) E)
/\ Report.totalWarningEvents (report A s)
   = wrap64 (count_if (fun e => isWarnLevel (level e)) E).
Proof.
induction lines as [|line lines IH] using List.rev_ind; intros s Hs E.
- cbn in Hs. injection Hs as <-. cbn. repeat split; constructor.
- apply processLines_snoc in Hs. destruct Hs as (s0 & Hs0 & Hstep).
  destruct (IH s0 Hs0) as ((Hls & Hl) & (Hss & Hsrc) & Hte & Htw).
  subst E. rewrite entriesOf_snoc.
  apply processLine_cases in Hstep.
  destruct Hstep as [[Hempty ->]|[(Hmal & Hent & ->)|
                                  (e & tw & news & Hmal & Hent & Hadd & Hnews & ->)]].
  + assert (Hent : lineEntry (tz env) line = None)
      by (unfold lineEntry; rewrite Hempty; reflexivity).
    rewrite Hent, List.app_nil_r. auto.
  + rewrite Hent, List.app_nil_r. cbn [report].
    unfold Report.addAnomaly, Report.totalErrorEvents, Report.totalWarningEvents in *.
    cbn [Report.m_levelStats Report.m_sourceStats]. auto.
  + rewrite Hent. cbn [report].
    unfold withAnomalies, Report.updateSourceStats, Report.incrementLevelCount,
      Report.totalErrorEvents, Report.totalWarningEvents in *.
    cbn [Report.m_levelStats Report.m_sourceStats].
    split; [split|split; [split|split]].
    * apply (map_update_sorted _ sameLevel _ level_ltb_trans level_ltb_total).
      exact Hls.
    * intros L. cbv zeta. rewrite count_if_snoc.
      destruct (sameLevel L (level e)) eqn:HL.
      -- apply sameLevel_eq in HL. subst L.
         change (fun a b => LogLevel_ordinal a =? LogLevel_ordinal b) with sameLevel.
         rewrite (map_find_update_eq _ sameLevel _ sameLevel_eq
                    level_ltb_irrefl level_ltb_trans _ _ _ Hls).
         rewrite Hl. cbv zeta. rewrite Nat.add_1_r.
         set (n := count_if (fun e0 => sameLevel (level e) (level e0))
                            (entriesOf (tz env) lines)).
         clearbody n.
         destruct n as [|k]; cbn [counted default id Report.ls_count
                                  Report.ls_anomalyCount].
         ++ reflexivity.
         ++ rewrite incr_wrap64. reflexivity.
      -- change (fun a b => LogLevel_ordinal a =? LogLevel_ordinal b) with sameLevel.
         rewrite (map_find_update_ne _ sameLevel _ sameLevel_eq).
         ++ rewrite Hl, Nat.add_0_r. reflexivity.
         ++ intros ->. assert (sameLevel (level e) (level e) = true)
              by (apply sameLevel_eq; reflexivity). congruence.
    * apply (map_update_sorted _ String.eqb _ string_ltb_trans string_ltb_total).
      exact Hss.
    * intros src. cbv zeta. rewrite !count_if_snoc.
      destruct (String.eqb src (sourceName e)) eqn:HS; cbn [andb].
      -- apply String.eqb_eq in HS. subst src.
         rewrite (map_find_update_eq _ String.eqb _ String.eqb_eq
                    string_ltb_irrefl string_ltb_trans _ _ _ Hss).
         rewrite Hsrc. cbv zeta. rewrite (Nat.add_1_r (count_if _ _)).
         set (n := count_if _ _). set (ne := count_if _ _). set (nw := count_if _ _).
         assert (Hz : n = 0%nat -> ne = 0%nat /\ nw = 0%nat).
         { intros Hn. subst n ne nw.
           assert (Hw : forall p x,
                      (String.eqb (sourceName e) (sourceName x) && p x)%bool = true ->
                      (String.eqb (sourceName e) (sourceName x) && true)%bool = true).
           { intros p x. destruct (String.eqb _ _); [reflexivity|discriminate]. }
           split.
           - apply (count_if_zero _ _ _ (Hw (fun x => isErrorLevel (level x))) Hn).
           - apply (count_if_zero _ _ _ (Hw (fun x => isWarnLevel (level x))) Hn). }
         destruct n as [|k]; cbn [counted default id].
         ++ destruct (Hz eq_refl) as [-> ->]. destruct (level e); reflexivity.
         ++ destruct (level e);
              cbn [Report.totalEvents Report.errorEvents Report.warningEvents
                   isErrorLevel isWarnLevel];
              rewrite ?incr_wrap64, ?Nat.add_0_r, ?Nat.add_1_r; reflexivity.
      -- rewrite (map_find_update_ne _ String.eqb _ String.eqb_eq).
         ++ rewrite Hsrc, !Nat.add_0_r. reflexivity.
         ++ intros ->. rewrite String.eqb_refl in HS. discriminate.
    * rewrite fold_add_u64_0 in *. rewrite count_if_snoc.
      rewrite (sumN_update _ _ _ _ _ _ _ (isErrorLevel (level e)));
        [|reflexivity|intros v; destruct (level e); reflexivity].
      rewrite <- N.Div0.add_mod_idemp_l, Hte.
      apply (add_wrap64 _ (isErrorLevel (level e))).
    * rewrite fold_add_u64_0 in *. rewrite count_if_snoc.
      rewrite (sumN_update _ _ _ _ _ _ _ (isWarnLevel (level e)));
        [|reflexivity|intros v; destruct (level e); reflexivity].
      rewrite <- N.Div0.add_mod_idemp_l, Htw.
      apply (add_wrap64 _ (isWarnLevel (level e))).
Qed.

End DriverStatistics.

Section DriverFinish.
Import Core Pipeline.
Variable A : Analyzers.
Variable env : Env.
Variable file : string.

Lemma loop_time_range lines : forall s,
processLines A env (start A file) lines = Some s ->
let E := entriesOf (tz env) lines in
haveTimeRange A s = match E with [] => false | _ :: _ => true end
/\ (E <> [] ->
    Forall (fun e => minTs A s <= timestamp e <= maxTs A s) E
    /\ In (minTs A s) (List.map timestamp E)
    /\ In (maxTs A s) (List.map timestamp E)).
Proof.
induction lines as [|line lines IH] using List.rev_ind; intros s Hs E.
- cbn in Hs. injection Hs as <-. cbn. split; [reflexivity|]. intros H. contradiction.
- apply processLines_snoc in Hs. destruct Hs as (s0 & Hs0 & Hstep).
  destruct (IH s0 Hs0) as (Hh & Hr).
  subst E. rewrite entriesOf_snoc.
  apply processLine_cases in Hstep.
  destruct Hstep as [[Hempty ->]|[(Hmal & Hent & ->)|
                                  (e & tw & news & Hmal & Hent & Hadd & Hnews & ->)]].
  + assert (Hent : lineEntry (tz env) line = None)
      by (unfold lineEntry; rewrite Hempty; reflexivity).
    rewrite Hent, List.app_nil_r. auto.
  + rewrite Hent, List.app_nil_r. cbn [haveTimeRange minTs maxTs]. auto.
  + rewrite Hent. cbn [haveTimeRange minTs maxTs].
    split; [destruct (entriesOf (tz env) lines); reflexivity|].
    intros _. rewrite List.map_app. cbn [List.map].
    destruct (entriesOf (tz env) lines) as [|e0 rest] eqn:HE.
    * rewrite Hh. cbn [List.app List.map].
      split; [constructor; [lia|constructor]|]. split; left; reflexivity.
    * rewrite Hh. destruct (Hr ltac:(discriminate)) as (Hall & Hmin & Hmax).
      split; [|split].
      -- apply Forall_app. split.
         ++ eapply List.Forall_impl; [|exact Hall]. cbv beta. intros x Hx.
            destruct (Z.ltb_spec (timestamp e) (minTs A s0)),
                     (Z.ltb_spec (maxTs A s0) (timestamp e)); lia.
         ++ constructor; [|constructor].
            destruct (Z.ltb_spec (timestamp e) (minTs A s0)),
                     (Z.ltb_spec (maxTs A s0) (timestamp e)); lia.
      -- apply List.in_or_app.
         destruct (Z.ltb_spec (timestamp e) (minTs A s0));
           [right; left; reflexivity|left; exact Hmin].
      -- apply List.in_or_app.
         destruct (Z.ltb_spec (maxTs A s0) (timestamp e));
           [right; left; reflexivity|left; exact Hmax].
Qed.

Lemma finish_fields (s : State A) :
let r := finish A env s in
(exists offline,
    Report.anomalies r = Report.anomalies (report A s) ++ offline
    /\ forall entries,
        TimeWindowAnalyzer.addEntries TimeWindowAnalyzer.new entries
        = Some (timeWindow A s) ->
        Forall (fun a => driverKind a /\ isOther a = false) offline)
/\ Report.m_totalEntries r = parsedCount A s
/\ Report.m_levelStats r = Report.m_levelStats (report A s)
/\ Report.m_sourceStats r = Report.m_sourceStats (report A s)
/\ Report.m_processedFile r = Report.m_processedFile (report A s)
/\ (haveTimeRange A s = true ->
    Report.m_analysisStart r = minTs A s /\ Report.m_analysisEnd r = maxTs A s)
/\ (haveTimeRange A s = false ->
    exists k, Report.m_analysisStart r = clock env k
              /\ Report.m_analysisEnd r = clock env k).
Proof.
unfold finish.
pose proof (offlineAnomalies_kind env FrequencySpike (haveTimeRange A s)
              (minTs A s) (maxTs A s) (freq_detectAnomalies A (freq A s))
              (clockReads A s) (or_introl eq_refl)) as Hf.
destruct (offlineAnomalies env FrequencySpike _ _ _ _ _) as [freqAnoms k1].
pose proof (offlineAnomalies_kind env SequenceViolation (haveTimeRange A s)
              (minTs A s) (maxTs A s)
              (pattern_detectAnomalies A (pattern A s))
              k1 (or_intror eq_refl)) as Hp.
destruct (offlineAnomalies env SequenceViolation _ _ _ _ _) as [patAnoms k2].
cbn [fst] in Hf, Hp.
rewrite emitAll_eq. cbv zeta.
destruct (haveTimeRange A s);
  unfold Report.setAnalysisEnd, Report.setAnalysisStart, Report.setTotalEntries,
    withAnomalies, Report.anomalies;
  cbn [Report.m_anomalies Report.m_totalEntries Report.m_levelStats
       Report.m_sourceStats Report.m_processedFile Report.m_analysisStart
       Report.m_analysisEnd].
all: split;
  [eexists; split; [reflexivity|]; intros entries He;
   repeat (apply Forall_app; split);
   [exact Hf|exact Hp|apply (timeWindow_kind env _ _ He)]|].
all: repeat (split; [reflexivity|]).
- split; [auto|discriminate].
- split; [discriminate|]. intros _. exists k2. auto.
Qed.

End DriverFinish.

Section DriverTheorems.
Import Core Pipeline.

Lemma loop_ends A env file lines :
exists s, processLines A env (start A file) lines = Some s.
Proof.
destruct (processLines_total A env lines (start A file)) as (s & Hs & _).
- cbn. lia.
- exists s. exact Hs.
Qed.




(** X26 ([Report::incrementLevelCount], [updateSourceStats],
  [totalErrorEvents], [totalWarningEvents], as the driver calls them).
  In the finished report a level has an entry exactly when a parsed
  entry has that level, with their number as count and an anomaly
  count of zero (the driver never marks an entry as an anomaly); a
  source (unknown for an entry without one) has an entry exactly when
  a parsed entry names it, with the numbers of its entries, of its
  Error or Critical ones and of its Warn ones; the two totals are the
  numbers of Error or Critical and of Warn entries.  All counts are
  64-bit. *)
Theorem driver_statistics :
forall A env file lines,
exists r,
  run A env file lines = Some r
  /\ let E := entriesOf (tz env) lines in
     (forall L,
         map_find sameLevel L (Report.m_levelStats r)
         = let n := count_if (fun e => sameLevel L (level e)) E in
           counted n (Report.mkLevelStats (wrap64 n) 0))
     /\ (forall src,
            map_find String.eqb src (Report.m_sourceStats r)
            = let of_src p e :=
                (String.eqb src (sourceName e) && p (level e))%bool in
              let n := count_if (of_src (fun _ => true)) E in
              counted n (Report.mkSourceStats
                           (wrap64 n)
                           (wrap64 (count_if (of_src isErrorLevel) E))
                           (wrap64 (count_if (of_src isWarnLevel) E))))
     /\ Report.totalErrorEvents r
        = wrap64 (count_if (fun e => isErrorLevel (level e)) E)
     /\ Report.totalWarningEvents r
        = wrap64 (count_if (fun e => isWarnLevel (level e)) E)
     /\ Report.m_totalEntries r = wrap64 (List.length E).
Proof.
intros A env file lines.
destruct (loop_ends A env file lines) as [s Hs].
exists (finish A env s).
split; [unfold run; rewrite Hs; reflexivity|].
destruct (loop_statistics A env file lines s Hs)
  as ((_ & Hl) & (_ & Hsrc) & Hte & Htw).
destruct (loop_accounting A env file lines s Hs) as (Hp & _).
destruct (finish_fields A env s) as (_ & Ht & Hls & Hss & _).
cbv zeta in *. unfold Report.totalErrorEvents, Report.totalWarningEvents in *.
rewrite Hls, Hss, Ht.
split; [exact Hl|]. split; [exact Hsrc|]. split; [exact Hte|].
split; [exact Htw|exact Hp].
Qed.

(** X27 (the time range kept by [main]).  When at least one line is
  parsed, the analysis start and end of the report are the earliest
  and the latest timestamp among the parsed entries, whatever the
  order of the lines; when none is, both are one and the same reading
  of the clock. *)
Theorem driver_time_range :
forall A env file lines,
exists r,
  run A env file lines = Some r
  /\ match entriesOf (tz env) lines with
     | [] =>
         exists k, Report.m_analysisStart r = clock env k
                   /\ Report.m_analysisEnd r = clock env k
     | E =>
         Forall (fun e => Report.m_analysisStart r <= timestamp e
                          <= Report.m_analysisEnd r) E
         /\ In (Report.m_analysisStart r) (List.map timestamp E)
         /\ In (Report.m_analysisEnd r) (List.map timestamp E)
     end.
Proof.
intros A env file lines.
destruct (loop_ends A env file lines) as [s Hs].
exists (finish A env s).
split; [unfold run; rewrite Hs; reflexivity|].
destruct (loop_time_range A env file lines s Hs) as (Hh & Hr).
destruct (finish_fields A env s) as (_ & _ & _ & _ & _ & Hyes & Hno).
cbv zeta in *.
destruct (entriesOf (tz env) lines) as [|e rest].
- apply Hno, Hh.
- destruct (Hyes Hh) as [-> ->]. apply Hr. discriminate.
Qed.

(** X28 (every place where [main] builds an anomaly).  No report holds
  an anomaly of type Silence, whatever the file and the offline
  analyzers; severity Critical is given to spikes only; and an anomaly
  of type Other is a malformed-line one: severity Low, score 1, source
  parser, and a description that starts with Malformed log line. *)
Theorem driver_anomaly_kinds :
forall A env file lines,
exists r,
  run A env file lines = Some r
  /\ Forall driverKind (Report.anomalies r).
Proof.
intros A env file lines.
destruct (loop_ends A env file lines) as [s Hs].
exists (finish A env s).
split; [unfold run; rewrite Hs; reflexivity|].
destruct (loop_accounting A env file lines s Hs)
  as (_ & _ & _ & _ & Hk & Htw & _).
destruct (finish_fields A env s) as ((offline & Ha & Hoff) & _).
rewrite Ha. apply Forall_app. split; [exact Hk|].
apply Forall_kind, (Hoff _ Htw).
Qed.

End DriverTheorems.

(** ** [JsonReporter]: the characters of the report *)

Section JsonOutput.
Import CType StringUtils TimeUtils Core JsonReporter.

Lemma numeric_above_c0 s : all_chars numeric s = true -> all_chars above_c0 s = true.
Proof.
apply all_chars_impl. intros c. unfold numeric, above_c0, isdigit.
intros H. apply N.leb_le.
repeat (apply orb_true_iff in H; destruct H as [H|H]).
- apply andb_true_iff in H as [H _]. apply N.leb_le in H. lia.
- apply Ascii.eqb_eq in H. subst c. cbn. lia.
- apply Ascii.eqb_eq in H. subst c. cbn. lia.
Qed.

Lemma toIso8601_above_c0 tz tp : all_chars above_c0 (toIso8601 tz tp) = true.
Proof.
unfold toIso8601. cbv zeta. destruct (civil_from_days _) as [[y m] d].
rewrite !all_chars_app.
rewrite (numeric_above_c0 _ (signed_numeric y)).
rewrite !(numeric_above_c0 _ (digits_numeric _ (field_digits _ _))).
reflexivity.
Qed.

Lemma quoted_above_c0 s :
all_chars above_c0 s = true -> all_chars above_c0 (quoted s) = true.
Proof.
intros H. unfold quoted. rewrite append_cons. cbn [all_chars].
rewrite all_chars_app, H. reflexivity.
Qed.

Lemma show_Z_above_c0 z : all_chars above_c0 (show_Z z) = true.
Proof. apply numeric_above_c0, signed_numeric. Qed.

Lemma show_nat_above_c0 n : all_chars above_c0 (show_nat n) = true.
Proof. apply numeric_above_c0, show_nat_numeric. Qed.

Lemma anomalyToJson_above_c0 tz a : all_chars above_c0 (anomalyToJson tz a) = true.
Proof.
unfold anomalyToJson, formatIsoTimestamp. rewrite !all_chars_app.
rewrite !show_Z_above_c0, (numeric_above_c0 _ (format_fixed_numeric _ _)).
rewrite !(quoted_above_c0 _ (toIso8601_above_c0 _ _)).
rewrite !(quoted_above_c0 _ (escapeJsonString_above_c0 _)).
reflexivity.
Qed.

Lemma summaryToJson_above_c0 tz r : all_chars above_c0 (summaryToJson tz r) = true.
Proof.
unfold summaryToJson, formatIsoTimestamp. rewrite !all_chars_app.
rewrite !show_Z_above_c0.
rewrite !(quoted_above_c0 _ (toIso8601_above_c0 _ _)).
reflexivity.
Qed.

Lemma processedFileJson_above_c0 r : all_chars above_c0 (processedFileJson r) = true.
Proof.
unfold processedFileJson. destruct (Report.m_processedFile _); [|reflexivity].
apply quoted_above_c0, escapeJsonString_above_c0.
Qed.

Lemma join_above_c0 sep l :
all_chars above_c0 sep = true ->
Forall (fun s => all_chars above_c0 s = true) l ->
all_chars above_c0 (join sep l) = true.
Proof.
intros Hsep. induction 1 as [|x l Hx Hl IH]; [reflexivity|].
cbn [join]. destruct l as [|y l']; [exact Hx|].
rewrite !all_chars_app, Hx, Hsep, IH. reflexivity.
Qed.

Lemma prettyAnomalies_lines tz l :
all_chars (fun c => (above_c0 c || N.eqb (code c) 10)%bool)
          (prettyAnomalies tz l) = true.
Proof.
induction l as [|a rest IH]; [reflexivity|].
cbn [prettyAnomalies]. rewrite !all_chars_app, IH.
rewrite (all_chars_impl above_c0 _ (anomalyToJson tz a));
  [|intros c ->; reflexivity|apply anomalyToJson_above_c0].
destruct rest; reflexivity.
Qed.

(** X29 ([JsonReporter::writeCompactJson], [writePrettyJson],
  [anomalyToJson], [summaryToJson]).  Whatever the file name, the
  sources and the descriptions hold, the compact report has no byte
  below 0x20 (none of the control characters U+0000 to U+001F), so it
  has no line break and is one line, and the pretty report has none but
  the line feeds of its layout: every text taken from the input goes
  through [escapeJsonString].  DEL (0x7F) is not counted among these
  bytes. *)
Theorem json_report_characters :
forall tz generated r,
  all_chars above_c0 (writeCompactJson tz generated r) = true
  /\ all_chars (fun c => (above_c0 c || N.eqb (code c) 10)%bool)
               (writePrettyJson tz generated r) = true.
Proof.
intros tz generated r. split.
- unfold writeCompactJson, formatIsoTimestamp. rewrite !all_chars_app.
  rewrite summaryToJson_above_c0, processedFileJson_above_c0,
    show_nat_above_c0.
  rewrite (quoted_above_c0 _ (toIso8601_above_c0 _ _)).
  rewrite join_above_c0; [reflexivity|reflexivity|].
  apply List.Forall_forall. intros s Hs.
  apply List.in_map_iff in Hs. destruct Hs as (a & <- & _).
  apply anomalyToJson_above_c0.
- assert (Hp : forall s, all_chars above_c0 s = true ->
                         all_chars (fun c => (above_c0 c || N.eqb (code c) 10)%bool) s
                         = true).
  { intros s. apply all_chars_impl. intros c ->. reflexivity. }
  unfold writePrettyJson, formatIsoTimestamp. rewrite !all_chars_app.
  rewrite prettyAnomalies_lines.
  rewrite (Hp _ (summaryToJson_above_c0 _ _)),
    (Hp _ (processedFileJson_above_c0 _)), (Hp _ (show_nat_above_c0 _)).
  rewrite (Hp _ (quoted_above_c0 _ (toIso8601_above_c0 _ _))).
  reflexivity.
Qed.

End JsonOutput.
